(** * GitHub Showdown: aggregation, comparison and cache engine

    A shallow embedding of [src/lib/cache.ts], [src/lib/github.ts] and
    [src/lib/github/client.ts], followed by the properties established
    about them.

    Conventions of the embedding.
    - A JavaScript [number] that may carry a fraction is an exact rational
      ([Q]); fields that the upstream API delivers as integer counts are
      [Z].  The language shares are computed in double precision,
      rounding written out; elsewhere arithmetic is taken exact.
    - Strings are byte strings (UTF-8).  White space is that of the
      language, recognised in its encoding; letter case is modelled on
      ASCII, which covers handles, URLs and metric labels.
    - [null] and [undefined] are [None].
    - A thrown exception is a constructor of the result type. *)

From Stdlib Require Import ZArith QArith Qround Qabs Qpower List String Ascii.
From Stdlib Require Import Lia Lqa.
From Stdlib Require Import Sorting.Sorted Sorting.Permutation DecimalString.
From stdpp Require Import gmap strings.

Import ListNotations.
Open Scope Q_scope.

(* ===================================================================== *)
(** * Part I: the embedding                                               *)
(* ===================================================================== *)

(** ** Numbers *)

(** The integer [n] nearest to a non-negative [x], the larger one on a
    tie: the choice [Number.prototype.toFixed] makes. *)
Definition round_half_up (x : Q) : Z := Qfloor (x + (1 # 2)).

(** [Number(x.toFixed(2))].  [toFixed] works on the magnitude and puts the
    sign back, so halves round away from zero. *)
Definition toFixed2 (x : Q) : Q :=
  if Qlt_le_dec x 0
  then - (round_half_up (- x * 100) # 100)
  else round_half_up (x * 100) # 100.

Definition Qltb (x y : Q) : bool := negb (Qle_bool y x).

(** *** Double precision

    The quotients and products of the program are binary64 numbers: the
    exact result rounded to the nearest number with 53 significant bits,
    the one with an even last bit on a tie.  The exponent does not go
    below that of the subnormal numbers; overflow to infinity lies beyond
    any count the program handles and is not modelled. *)

(** The integer nearest to [x], the even one on a tie. *)
Definition round_half_even (x : Q) : Z :=
  let f := Qfloor x in
  match Qcompare (x - inject_Z f) (1 # 2) with
  | Lt => f
  | Gt => (f + 1)%Z
  | Eq => if Z.even f then f else (f + 1)%Z
  end.

(** The largest [k] with [2 ^ k <= x], for a positive [x]. *)
Definition ilog2 (x : Q) : Z :=
  let k := (Z.log2 (Qnum x) - Z.log2 (QDen x))%Z in
  if Qle_bool (2 ^ k) x then k else (k - 1)%Z.

Definition binary64 (x : Q) : Q :=
  if Qeq_bool x 0 then 0
  else
    let e := Z.max (ilog2 (Qabs x) - 52) (-1074) in
    inject_Z (round_half_even (x / 2 ^ e)) * 2 ^ e.

(** [xs.reduce((sum, x) => sum + x, 0)]. *)
Definition Zsum (l : list Z) : Z := fold_left Z.add l 0%Z.

(** ** Strings *)

(** [String.prototype.includes]. *)
Fixpoint includes (needle s : string) : bool :=
  String.prefix needle s ||
  match s with
  | EmptyString => false
  | String _ s' => includes needle s'
  end.

Fixpoint string_forallb (f : ascii -> bool) (s : string) : bool :=
  match s with
  | EmptyString => true
  | String c s' => f c && string_forallb f s'
  end.

Fixpoint string_map (f : ascii -> ascii) (s : string) : string :=
  match s with
  | EmptyString => EmptyString
  | String c s' => String (f c) (string_map f s')
  end.

Definition code_in (lo hi : nat) (c : ascii) : bool :=
  (lo <=? nat_of_ascii c)%nat && (nat_of_ascii c <=? hi)%nat.

(** The bytes with the given codes. *)
Definition bytes_of_codes (codes : list nat) : string :=
  string_of_list_ascii (map ascii_of_nat codes).

(** The white space and line terminators of the language, each in its
    UTF-8 encoding: U+0009 to U+000D, U+0020, U+00A0, U+1680, U+2000 to
    U+200A, U+2028, U+2029, U+202F, U+205F, U+3000 and U+FEFF. *)
Definition white_space : list string :=
  map bytes_of_codes
    [ [9]; [10]; [11]; [12]; [13]; [32]; [194; 160]; [225; 154; 128];
      [226; 128; 128]; [226; 128; 129]; [226; 128; 130]; [226; 128; 131];
      [226; 128; 132]; [226; 128; 133]; [226; 128; 134]; [226; 128; 135];
      [226; 128; 136]; [226; 128; 137]; [226; 128; 138];
      [226; 128; 168]; [226; 128; 169]; [226; 128; 175]; [226; 129; 159];
      [227; 128; 128]; [239; 187; 191] ]%nat.

(** The number of bytes of the white space character at the front of
    [s], 0 when [s] starts with something else. *)
Definition space_width (s : string) : nat :=
  match List.find (fun w => String.prefix w s) white_space with
  | Some w => String.length w
  | None => 0%nat
  end.

(** A byte that starts the encoding of a white space character. *)
Definition space_lead (c : ascii) : bool :=
  existsb
    (fun w => match w with String c' _ => Ascii.eqb c c' | EmptyString => false end)
    white_space.

(** [trimStart]: white space characters are dropped from the front, one
    after the other; [skip] counts the bytes of the current one that are
    still to be dropped. *)
Fixpoint trimStart_from (skip : nat) (s : string) {struct s} : string :=
  match s with
  | EmptyString => EmptyString
  | String _ s' =>
      match skip with
      | S k => trimStart_from k s'
      | O =>
          match space_width s with
          | S k => trimStart_from k s'
          | O => s
          end
      end
  end.

Definition trimStart (s : string) : string := trimStart_from 0 s.

(** Whether [s] is white space throughout. *)
Fixpoint blank_from (skip : nat) (s : string) {struct s} : bool :=
  match s with
  | EmptyString => true
  | String _ s' =>
      match skip with
      | S k => blank_from k s'
      | O =>
          match space_width s with
          | S k => blank_from k s'
          | O => false
          end
      end
  end.

Definition blank (s : string) : bool := blank_from 0 s.

(** [trimEnd]: the text is kept up to the point from which only white
    space follows. *)
Fixpoint trimEnd (s : string) : string :=
  match s with
  | EmptyString => EmptyString
  | String c s' => if blank s then EmptyString else String c (trimEnd s')
  end.

(** [String.prototype.trim]. *)
Definition trim (s : string) : string := trimEnd (trimStart s).

(** Lower-casing of one ASCII character. *)
Definition toLowerCase_char (c : ascii) : ascii :=
  if code_in 65 90 c then ascii_of_nat (nat_of_ascii c + 32) else c.

(** [String.prototype.toLowerCase]. *)
Definition toLowerCase (s : string) : string := string_map toLowerCase_char s.

(** Case folding of the [i] flag, for a pattern of ASCII characters: only
    the ASCII capitals fold onto ASCII letters. *)
Definition fold_case (c : ascii) : ascii := toLowerCase_char c.

(** Match the literal [pat], given folded, at the front of [s] and hand
    back what follows it. *)
Fixpoint match_literal_i (pat s : string) : option string :=
  match pat, s with
  | EmptyString, _ => Some s
  | String p pat', String c s' =>
      if Ascii.eqb (fold_case c) p then match_literal_i pat' s' else None
  | String _ _, EmptyString => None
  end.

(** The class [[^/?#]]. *)
Definition in_segment (c : ascii) : bool :=
  negb (Ascii.eqb c "/" || Ascii.eqb c "?" || Ascii.eqb c "#").

(** The longest run matched by [[^/?#]*] at the front of [s]. *)
Fixpoint segment (s : string) : string :=
  match s with
  | EmptyString => EmptyString
  | String c s' => if in_segment c then String c (segment s') else EmptyString
  end.

(** The match of [/github\.com\/([^/?#]+)/i], reduced to its capture group:
    the leftmost position at which the host literal is followed by a
    non-empty segment. *)
Fixpoint match_profile_url (s : string) : option string :=
  let here :=
    match match_literal_i "github.com/" s with
    | Some rest =>
        match segment rest with
        | EmptyString => None
        | login => Some login
        end
    | None => None
    end in
  match here with
  | Some login => Some login
  | None =>
      match s with
      | EmptyString => None
      | String _ s' => match_profile_url s'
      end
  end.

(** [s.replace(/^@/, empty)]: one leading at-sign is dropped. *)
Definition strip_leading_at (s : string) : string :=
  match s with
  | String c s' => if Ascii.eqb c "@" then s' else s
  | EmptyString => EmptyString
  end.

(** An integer in a template literal. *)
Definition Z_to_string (z : Z) : string := NilZero.string_of_int (Z.to_int z).

Definition dquote : string := String (Ascii.ascii_of_nat 34) EmptyString.

(** ** Outcomes of calls that may throw ([src/lib/github/client.ts]) *)

Record GitHubApiError (P : Type) : Type := {
  message : string;
  status : Z;
  data : P
}.
Arguments message {P}.
Arguments status {P}.
Arguments data {P}.

Record Error : Type := { Error_message : string }.

Inductive Outcome (E A : Type) : Type :=
| Returned (a : A)
| Thrown (e : E).
Arguments Returned {E A}.
Arguments Thrown {E A}.

(** ** [Array.prototype.sort]

    The sort is stable and consumes only the sign of the comparator:
    [Lt] (negative) keeps the first argument in front, [Gt] (positive)
    puts the second one in front, [Eq] keeps the input order.  It is
    realised as a stable insertion sort. *)
Section ArraySort.
Context {A : Type} (cmp : A -> A -> comparison).

Fixpoint sort_insert (x : A) (l : list A) : list A :=
  match l with
  | [] => [x]
  | y :: l' =>
      match cmp x y with
      | Gt => y :: sort_insert x l'
      | _ => x :: y :: l'
      end
  end.

Definition Array_sort (l : list A) : list A := fold_right sort_insert [] l.
End ArraySort.

(** ** [Map] with insertion order

    A JavaScript [Map] iterates in insertion order and [set] on a present
    key keeps that key's position, so the map is an association list:
    [Map_set] overwrites in place or appends. *)
Section InsertionOrderedMap.
Context {V : Type}.

Fixpoint Map_get (k : string) (m : list (string * V)) : option V :=
  match m with
  | [] => None
  | (k', v) :: m' => if String.eqb k' k then Some v else Map_get k m'
  end.

Fixpoint Map_set (k : string) (v : V) (m : list (string * V))
    : list (string * V) :=
  match m with
  | [] => [(k, v)]
  | (k', v') :: m' =>
      if String.eqb k' k then (k', v) :: m' else (k', v') :: Map_set k v m'
  end.
End InsertionOrderedMap.

(** ** The GitHub client ([src/lib/github/client.ts], [src/lib/env.ts]) *)

Module Env.
Record t : Type := {
  GITHUB_ACCESS_TOKEN : option string;
  IMGFLIP_USERNAME : option string;
  IMGFLIP_PASSWORD : option string
}.
End Env.

(** An empty string is falsy, like [undefined] and [null]. *)
Definition truthy_string (s : option string) : option string :=
  match s with
  | Some EmptyString | None => None
  | Some l => Some l
  end.

Definition GITHUB_GRAPHQL_API : string := "https://api.github.com/graphql".

(** [Object.assign(headers, extra)]: later keys overwrite, new keys are
    appended. *)
Definition Object_assign (headers extra : list (string * string))
    : list (string * string) :=
  fold_left (fun h kv => Map_set (fst kv) (snd kv) h) extra headers.

Definition buildHeaders (env : Env.t) (extra : option (list (string * string)))
    : list (string * string) :=
  let headers :=
    [("Accept", "application/vnd.github+json");
     ("Content-Type", "application/json");
     ("User-Agent", "github-compare-app")] in
  let headers :=
    match truthy_string (Env.GITHUB_ACCESS_TOKEN env) with
    | Some token => Object_assign headers [("Authorization", "Bearer " +:+ token)]
    | None => headers
    end in
  match extra with
  | Some extra => Object_assign headers extra
  | None => headers
  end.

Module GraphQlError.
Record t : Type := { message : string }.
End GraphQlError.

Module GraphQlResponse.
Record t (T : Type) : Type := {
  data : option T;
  errors : option (list GraphQlError.t)
}.
Arguments data {T}.
Arguments errors {T}.
End GraphQlResponse.

(** The request handed to [fetch]; the body is [JSON.stringify] of the
    query and its variables. *)
Module Request.
Record t : Type := {
  url : string;
  method : string;
  headers : list (string * string);
  query : string;
  variables : list (string * string)
}.
End Request.

(** What [fetch] resolves to; [json] is [None] when the body does not
    parse, which the caller replaces by [{}]. *)
Module Response.
Record t (T : Type) : Type := {
  ok : bool;
  status : Z;
  json : option (GraphQlResponse.t T)
}.
Arguments ok {T}.
Arguments status {T}.
Arguments json {T}.
End Response.

(** [await response.json().catch(() => ({}))]. *)
Definition json_or_empty {T : Type} (response : Response.t T) : GraphQlResponse.t T :=
  match Response.json response with
  | Some payload => payload
  | None => {| GraphQlResponse.data := None; GraphQlResponse.errors := None |}
  end.

(** [githubGraphqlFetch], returning its outcome together with the
    requests it sent. *)
Definition githubGraphqlFetch {T : Type} (env : Env.t)
    (fetch : Request.t -> Response.t T) (query : string)
    (variables : list (string * string))
    : Outcome (GitHubApiError (GraphQlResponse.t T)) (option T) * list Request.t :=
  match truthy_string (Env.GITHUB_ACCESS_TOKEN env) with
  | None => (Returned None, [])
  | Some _ =>
      let request :=
        {| Request.url := GITHUB_GRAPHQL_API; Request.method := "POST";
           Request.headers := buildHeaders env None;
           Request.query := query; Request.variables := variables |} in
      let response := fetch request in
      let payload := json_or_empty response in
      let errors_length :=
        match GraphQlResponse.errors payload with
        | Some errors => length errors
        | None => 0%nat
        end in
      if negb (Response.ok response) || negb (errors_length =? 0)%nat then
        (Thrown
           {| message :=
                match GraphQlResponse.errors payload with
                | Some (first :: _) => GraphQlError.message first
                | _ =>
                    "GitHub GraphQL API error ("
                    +:+ Z_to_string (Response.status response) +:+ ")"
                end;
              status := Response.status response;
              data := payload |},
         [request])
      else (Returned (GraphQlResponse.data payload), [request])
  end.

(** ** The short-lived cache ([src/lib/cache.ts])

    [V] ranges over the cached values, which are never [undefined]; a
    lookup answers [None] for [undefined].  Every method that consults
    [Date.now()] takes the reading as an argument; [remember] consults it
    twice, once in [get] and again in [set] after the factory has
    settled.  The factory may answer differently each time it is invoked:
    its [n]-th invocation yields [factory n], and the state counts the
    invocations made so far. *)
Module TTLCache.
Section WithValue.
Context {V : Type}.

Record CacheEntry : Type := { value : V; expiresAt : Z }.

Record t : Type := {
  store : gmap string CacheEntry;
  defaultTtlMs : Z;
  invocations : nat
}.

Definition with_store (c : t) (m : gmap string CacheEntry) : t :=
  {| store := m; defaultTtlMs := defaultTtlMs c; invocations := invocations c |}.

Definition get (now : Z) (key : string) (c : t) : option V * t :=
  match store c !! key with
  | None => (None, c)
  | Some entry =>
      if (expiresAt entry <? now)%Z
      then (None, with_store c (delete key (store c)))
      else (Some (value entry), c)
  end.

Definition set (now : Z) (key : string) (v : V) (ttlMs : option Z) (c : t) : t :=
  let expiresAt :=
    (now + match ttlMs with Some ttl => ttl | None => defaultTtlMs c end)%Z in
  with_store c (<[key := {| value := v; expiresAt := expiresAt |}]> (store c)).

Definition remember (now later : Z) (key : string) (factory : nat -> V)
    (ttlMs : option Z) (c : t) : V * t :=
  match get now key c with
  | (Some cached, c) => (cached, c)
  | (None, c) =>
      let v := factory (invocations c) in
      let c := {| store := store c; defaultTtlMs := defaultTtlMs c;
                  invocations := S (invocations c) |} in
      (v, set later key v ttlMs c)
  end.

Definition clear (key : option string) (c : t) : t :=
  match key with
  | Some key => with_store c (delete key (store c))
  | None => with_store c ∅
  end.
End WithValue.
Arguments CacheEntry : clear implicits.
Arguments t : clear implicits.
End TTLCache.

(** A fresh five-minute cache of invocation indices, as used in the
    worked example. *)
Definition fresh_cache : TTLCache.t nat :=
  {| TTLCache.store := ∅; TTLCache.defaultTtlMs := 1000 * 60 * 5;
     TTLCache.invocations := 0 |}.

(** A transport that answers every request with a server error, and an
    environment with and without a credential. *)
Definition failing_fetch (request : Request.t) : Response.t nat :=
  {| Response.ok := false; Response.status := 502; Response.json := None |}.

Definition env_with_token : Env.t :=
  {| Env.GITHUB_ACCESS_TOKEN := Some "ghp_token"; Env.IMGFLIP_USERNAME := None;
     Env.IMGFLIP_PASSWORD := None |}.

Definition env_without_token : Env.t :=
  {| Env.GITHUB_ACCESS_TOKEN := None; Env.IMGFLIP_USERNAME := None;
     Env.IMGFLIP_PASSWORD := None |}.

(** A transport that answers with data, and one that answers with a
    success carrying two errors in its body. *)
Definition answering_fetch (request : Request.t) : Response.t nat :=
  {| Response.ok := true; Response.status := 200;
     Response.json :=
       Some {| GraphQlResponse.data := Some 42%nat;
               GraphQlResponse.errors := None |} |}.

Definition erroring_fetch (request : Request.t) : Response.t nat :=
  {| Response.ok := true; Response.status := 200;
     Response.json :=
       Some {| GraphQlResponse.data := Some 42%nat;
               GraphQlResponse.errors :=
                 Some [ {| GraphQlError.message := "rate limited" |};
                        {| GraphQlError.message := "try later" |} ] |} |}.

(** ** Upstream records ([src/lib/github.ts]) *)

Module RestRepo.
Record t : Type := {
  id : Z;
  name : string;
  full_name : string;
  description : option string;
  stargazers_count : Z;
  watchers_count : Z;
  forks_count : Z;
  open_issues_count : Z;
  html_url : string;
  language : option string;
  archived : bool;
  disabled : bool;
  created_at : string;
  updated_at : string;
  pushed_at : string;
  private : bool;
  fork : bool
}.
End RestRepo.

Module LanguageNode.
Record t : Type := { name : string; color : option string }.
End LanguageNode.

Module LanguageEdge.
Record t : Type := { size : Z; node : LanguageNode.t }.
End LanguageEdge.

Module GraphqlRepository.
Record t : Type := {
  name : string;
  stargazerCount : Z;
  forkCount : Z;
  primaryLanguage : option LanguageNode.t;
  languages_edges : list LanguageEdge.t;
  updatedAt : string;
  createdAt : string;
  url : string;
  isArchived : bool
}.
End GraphqlRepository.

(** ** Paginated repository listing *)

(** The body of a failed response: the parsed JSON, reduced to the
    [message] the code reads; a body that does not parse is [{}]. *)
Module ErrorPayload.
Record t : Type := { message : option string }.
End ErrorPayload.

(** What the transport hands back for one page. *)
Module PageResponse.
Record t : Type := {
  ok : bool;
  status : Z;
  batch : list RestRepo.t;
  errorPayload : ErrorPayload.t;
  link : option string
}.
End PageResponse.

Definition perPage : nat := 100.

(** The marker of a continuation link, [rel=next] with [next] quoted. *)
Definition rel_next : string := "rel=" +:+ dquote +:+ "next" +:+ dquote.

(** The [while (true)] loop of [fetchUserRepositories].  [upstream login
    page] is the response to the request for that page; [requested] logs
    the pages asked for.  [None] stands for running out of fuel. *)
Fixpoint fetch_pages (fuel : nat) (upstream : string -> Z -> PageResponse.t)
    (login : string) (page : Z) (repositories : list RestRepo.t)
    (requested : list Z)
    : option (Outcome (GitHubApiError ErrorPayload.t) (list RestRepo.t) * list Z) :=
  match fuel with
  | O => None
  | S fuel =>
      let response := upstream login page in
      let requested := requested ++ [page] in
      if negb (PageResponse.ok response) then
        let errorPayload := PageResponse.errorPayload response in
        Some
          (Thrown
             {| message :=
                  match ErrorPayload.message errorPayload with
                  | Some m => m
                  | None =>
                      "Failed to fetch repositories for " +:+ login +:+ " ("
                      +:+ Z_to_string (PageResponse.status response) +:+ ")"
                  end;
                status := PageResponse.status response;
                data := errorPayload |},
           requested)
      else
        let batch := PageResponse.batch response in
        let repositories := repositories ++ batch in
        let hasNextPage :=
          match PageResponse.link response with
          | Some linkHeader => includes rel_next linkHeader
          | None => false
          end in
        if negb hasNextPage || (length batch <? perPage)%nat || (3 <=? page)%Z
        then Some (Returned repositories, requested)
        else fetch_pages fuel upstream login (page + 1)%Z repositories requested
  end.

Definition fetchUserRepositories (upstream : string -> Z -> PageResponse.t)
    (login : string)
    : option (Outcome (GitHubApiError ErrorPayload.t) (list RestRepo.t) * list Z) :=
  fetch_pages 3 upstream login 1%Z [] [].

(** ** Totals *)

Module Totals.
Record t : Type := { stars : Z; forks : Z; watchers : Z; issues : Z }.
End Totals.

Definition computeTotals (repos : list RestRepo.t) : Totals.t :=
  fold_left
    (fun acc repo =>
       {| Totals.stars := Totals.stars acc + RestRepo.stargazers_count repo;
          Totals.forks := Totals.forks acc + RestRepo.forks_count repo;
          Totals.watchers := Totals.watchers acc + RestRepo.watchers_count repo;
          Totals.issues := Totals.issues acc + RestRepo.open_issues_count repo |}%Z)
    repos
    {| Totals.stars := 0; Totals.forks := 0; Totals.watchers := 0;
       Totals.issues := 0 |}.

(** The sum of a list of integers, head first. *)
Fixpoint sum_list (l : list Z) : Z :=
  match l with
  | [] => 0
  | x :: l' => x + sum_list l'
  end%Z.

(** A repository with the given number of stars and nothing else of
    note. *)
Definition starred_repo (stars : Z) : RestRepo.t :=
  {| RestRepo.id := 1; RestRepo.name := "repo"; RestRepo.full_name := "octocat/repo";
     RestRepo.description := None; RestRepo.stargazers_count := stars;
     RestRepo.watchers_count := stars; RestRepo.forks_count := 1;
     RestRepo.open_issues_count := 0; RestRepo.html_url := EmptyString;
     RestRepo.language := None; RestRepo.archived := false;
     RestRepo.disabled := false; RestRepo.created_at := "2020-01-01T00:00:00Z";
     RestRepo.updated_at := "2020-01-01T00:00:00Z";
     RestRepo.pushed_at := "2020-01-01T00:00:00Z"; RestRepo.private := false;
     RestRepo.fork := false |}.

(** An account with 101 repositories: a full first page with a
    continuation link, then a page of one. *)
Definition two_page_upstream (login : string) (page : Z) : PageResponse.t :=
  if (page =? 1)%Z
  then {| PageResponse.ok := true; PageResponse.status := 200;
          PageResponse.batch := repeat (starred_repo 2) 100;
          PageResponse.errorPayload := {| ErrorPayload.message := None |};
          PageResponse.link :=
            Some ("<https://api.github.com/user/1/repos?page=2>; " +:+ rel_next) |}
  else {| PageResponse.ok := true; PageResponse.status := 200;
          PageResponse.batch := [starred_repo 5];
          PageResponse.errorPayload := {| ErrorPayload.message := None |};
          PageResponse.link := None |}.

(** A page asks for its successor when it is full, carries a continuation
    link and is not the third. *)
Definition asks_for_more (upstream : string -> Z -> PageResponse.t)
    (login : string) (page : Z) : Prop :=
  let response := upstream login page in
  (exists linkHeader, PageResponse.link response = Some linkHeader /\
                      includes rel_next linkHeader = true) /\
  (perPage <= length (PageResponse.batch response))%nat /\ (page < 3)%Z.

Module ContributionDay.
Record t : Type := { date : string; contributionCount : Z }.
End ContributionDay.

Module ContributionWeek.
Record t : Type := { firstDay : string; contributionDays : list ContributionDay.t }.
End ContributionWeek.

Module ContributionCalendar.
Record t : Type := { totalContributions : Z; weeks : list ContributionWeek.t }.
End ContributionCalendar.

Module GraphqlContributionCalendar.
Record t : Type := {
  contributionCalendar : ContributionCalendar.t;
  totalCommitContributions : Z;
  totalIssueContributions : Z;
  totalPullRequestContributions : Z;
  totalPullRequestReviewContributions : Z;
  restrictedContributionsCount : Z
}.
End GraphqlContributionCalendar.

(** ** Derived records ([src/lib/github/types.ts]) *)

Module LanguageStat.
Record t : Type := {
  name : string;
  bytes : Z;
  percentage : Q;
  color : option string;
  repoCount : Z
}.
End LanguageStat.

Module WeeklyContribution.
Record t : Type := { weekStart : string; total : Z }.
End WeeklyContribution.

Module Streak.
Record t : Type := { current : Z; longest : Z }.
End Streak.

Module Breakdown.
Record t : Type := {
  commits : Z;
  pullRequests : Z;
  reviews : Z;
  issues : Z;
  restricted : Z
}.
End Breakdown.

Module ContributionStats.
Record t : Type := {
  total : Z;
  lastYear : Z;
  weeklyAverage : Q;
  weeklyMax : Z;
  weeklySeries : list WeeklyContribution.t;
  streak : Streak.t;
  breakdown : Breakdown.t
}.
End ContributionStats.

Module RepositoryHighlight.
Record t : Type := {
  name : string;
  description : option string;
  url : string;
  stargazers : Z;
  forks : Z;
  primaryLanguage : option string;
  updatedAt : string;
  createdAt : string;
  isArchived : bool
}.
End RepositoryHighlight.

Module Highlights.
Record t : Type := {
  mostStarred : option RepositoryHighlight.t;
  mostForked : option RepositoryHighlight.t;
  newestRepo : option RepositoryHighlight.t;
  oldestRepo : option RepositoryHighlight.t;
  pinned : option (list RepositoryHighlight.t)
}.
End Highlights.

Module GitHubUserInsights.
Record t : Type := {
  login : string;
  name : option string;
  avatarUrl : string;
  profileUrl : string;
  bio : option string;
  company : option string;
  location : option string;
  followers : Z;
  following : Z;
  publicRepos : Z;
  publicGists : Z;
  createdAt : string;
  totals : Totals.t;
  languages : list LanguageStat.t;
  contributions : option ContributionStats.t;
  highlights : Highlights.t;
  repositories : list RepositoryHighlight.t
}.
End GitHubUserInsights.

(** ** Comparison metrics ([src/lib/github/types.ts]) *)

Inductive Direction : Type := up | down | equal.

Module ComparisonMetric.
Record t : Type := {
  id : string;
  label : string;
  description : option string;
  userA : Q;
  userB : Q;
  diff : Q;
  direction : Direction
}.
End ComparisonMetric.

Definition SAFE_METRIC_DIFF_THRESHOLD : Q := 0.01.

Definition buildMetric (id label : string) (userA userB : Q)
    (description : option string) : ComparisonMetric.t :=
  let diff := toFixed2 (userA - userB) in
  let direction :=
    if Qle_bool (Qabs diff) SAFE_METRIC_DIFF_THRESHOLD then equal
    else if Qltb 0 diff then up else down in
  {| ComparisonMetric.id := id; ComparisonMetric.label := label;
     ComparisonMetric.description := description;
     ComparisonMetric.userA := userA; ComparisonMetric.userB := userB;
     ComparisonMetric.diff := diff; ComparisonMetric.direction := direction |}.

(** ** Contribution aggregation *)

(** [a.localeCompare(b)] on dates: the calendar's dates are ISO
    [YYYY-MM-DD] strings, on which the locale's order is the order of the
    code units. *)
Definition localeCompare (a b : string) : comparison := String.compare a b.

(** All days of the calendar, sorted by date. *)
Definition sorted_days (weeks : list ContributionWeek.t) : list ContributionDay.t :=
  Array_sort
    (fun a b => localeCompare (ContributionDay.date a) (ContributionDay.date b))
    (flat_map ContributionWeek.contributionDays weeks).

(** The body of the streak loop, on the pair (currentStreak,
    longestStreak). *)
Definition streak_step (st : Z * Z) (day : ContributionDay.t) : Z * Z :=
  let '(currentStreak, longestStreak) := st in
  if (0 <? ContributionDay.contributionCount day)%Z
  then
    let currentStreak := (currentStreak + 1)%Z in
    (currentStreak, Z.max longestStreak currentStreak)
  else (0%Z, longestStreak).

(** [Math.max(...xs)] of a non-empty array. *)
Definition Math_max (x : Z) (xs : list Z) : Z := fold_left Z.max xs x.

(** The weekly average is rounded from the exact quotient.  The program
    divides in double precision first, which for a quotient on a rounding
    boundary can give the neighbouring hundredth (3 contributions over 40
    weeks: 0.07 there, 0.08 here); either way the average is within half
    a hundredth of the exact mean for every count the upstream API can
    deliver.  Sums, maxima and streaks are integer computations. *)
Definition aggregateContributionStats (data : option GraphqlContributionCalendar.t)
    : option ContributionStats.t :=
  match data with
  | None => None
  | Some data =>
      let weeks :=
        ContributionCalendar.weeks
          (GraphqlContributionCalendar.contributionCalendar data) in
      let weeklySeries :=
        map (fun week =>
               {| WeeklyContribution.weekStart := ContributionWeek.firstDay week;
                  WeeklyContribution.total :=
                    Zsum (map ContributionDay.contributionCount
                            (ContributionWeek.contributionDays week)) |})
          weeks in
      let weeklyTotals := map WeeklyContribution.total weeklySeries in
      let weeklyAverage :=
        match weeklyTotals with
        | [] => 0
        | _ =>
            toFixed2
              (inject_Z (Zsum weeklyTotals)
               / inject_Z (Z.of_nat (length weeklyTotals)))
        end in
      let weeklyMax :=
        match weeklyTotals with
        | [] => 0%Z
        | x :: xs => Math_max x xs
        end in
      let '(currentStreak, longestStreak) :=
        fold_left streak_step (sorted_days weeks) (0%Z, 0%Z) in
      Some
        {| ContributionStats.total :=
             ContributionCalendar.totalContributions
               (GraphqlContributionCalendar.contributionCalendar data);
           ContributionStats.lastYear := Zsum weeklyTotals;
           ContributionStats.weeklyAverage := weeklyAverage;
           ContributionStats.weeklyMax := weeklyMax;
           ContributionStats.weeklySeries := weeklySeries;
           ContributionStats.streak :=
             {| Streak.current := currentStreak; Streak.longest := longestStreak |};
           ContributionStats.breakdown :=
             {| Breakdown.commits :=
                  GraphqlContributionCalendar.totalCommitContributions data;
                Breakdown.pullRequests :=
                  GraphqlContributionCalendar.totalPullRequestContributions data;
                Breakdown.reviews :=
                  GraphqlContributionCalendar.totalPullRequestReviewContributions
                    data;
                Breakdown.issues :=
                  GraphqlContributionCalendar.totalIssueContributions data;
                Breakdown.restricted :=
                  GraphqlContributionCalendar.restrictedContributionsCount data |}
        |}
  end.

(** A day with at least one contribution. *)
Definition active (day : ContributionDay.t) : bool :=
  (0 <? ContributionDay.contributionCount day)%Z.

(** The number of active days at the front of a list. *)
Fixpoint leading_run (days : list ContributionDay.t) : nat :=
  match days with
  | day :: days' => if active day then S (leading_run days') else 0%nat
  | [] => 0%nat
  end.

(** The number of active days at the end of a list. *)
Definition trailing_run (days : list ContributionDay.t) : nat :=
  leading_run (rev days).

(** The calendar of the worked example: eight days in two weeks, the
    later week listed first. *)
Definition example_calendar : GraphqlContributionCalendar.t :=
  let day d n :=
    {| ContributionDay.date := d; ContributionDay.contributionCount := n |} in
  {| GraphqlContributionCalendar.contributionCalendar :=
       {| ContributionCalendar.totalContributions := 5;
          ContributionCalendar.weeks :=
            [ {| ContributionWeek.firstDay := "2024-01-07";
                 ContributionWeek.contributionDays :=
                   [day "2024-01-07" 0%Z; day "2024-01-08" 0%Z] |};
              {| ContributionWeek.firstDay := "2023-12-31";
                 ContributionWeek.contributionDays :=
                   [day "2024-01-01" 1%Z; day "2024-01-02" 1%Z;
                    day "2024-01-03" 0%Z; day "2024-01-04" 1%Z;
                    day "2024-01-05" 1%Z; day "2024-01-06" 1%Z] |} ] |};
     GraphqlContributionCalendar.totalCommitContributions := 5;
     GraphqlContributionCalendar.totalIssueContributions := 0;
     GraphqlContributionCalendar.totalPullRequestContributions := 0;
     GraphqlContributionCalendar.totalPullRequestReviewContributions := 0;
     GraphqlContributionCalendar.restrictedContributionsCount := 0 |}.

(** ** Handle normalisation *)

Definition sanitizeLogin (input : string) : Outcome Error string :=
  let trimmed := trim input in
  match trimmed with
  | EmptyString => Thrown {| Error_message := "GitHub username cannot be empty" |}
  | _ =>
      match match_profile_url trimmed with
      | Some login => Returned login
      | None => Returned (strip_leading_at trimmed)
      end
  end.

(** The key under which [getUserInsights] caches a profile. *)
Definition insightsCacheKey (input : string) : Outcome Error string :=
  match sanitizeLogin input with
  | Returned login => Returned (toLowerCase login)
  | Thrown e => Thrown e
  end.

(** The characters of a handle: letters, digits and the hyphen. *)
Definition handle_char (c : ascii) : bool :=
  code_in 48 57 c || code_in 65 90 c || code_in 97 122 c || Ascii.eqb c "-".

Definition valid_handle (h : string) : bool :=
  match h with
  | EmptyString => false
  | _ => string_forallb handle_char h
  end.

(** What may precede the host in a profile URL: anything free of the
    letter the host starts with. *)
Definition before_host (scheme : string) : bool :=
  string_forallb (fun c => negb (Ascii.eqb (fold_case c) "g")) scheme.

(** What may follow the handle in a profile URL: nothing, or a path, query
    or fragment. *)
Definition after_handle (rest : string) : bool :=
  match rest with
  | EmptyString => true
  | String c _ => negb (in_segment c)
  end.

(** ** Language aggregation *)

Module LanguageTotal.
Record t : Type := { bytes : Z; color : option string; repoCount : Z }.
End LanguageTotal.

(** One pass of the inner loop over [repo.languages.edges]; the state is
    the shared [languageTotals] map and this repository's
    [seenLanguages]. *)
Definition gql_edge_step
    (st : list (string * LanguageTotal.t) * gset string) (edge : LanguageEdge.t)
    : list (string * LanguageTotal.t) * gset string :=
  let '(languageTotals, seenLanguages) := st in
  let name := LanguageNode.name (LanguageEdge.node edge) in
  let edge_color := LanguageNode.color (LanguageEdge.node edge) in
  let current :=
    match Map_get name languageTotals with
    | Some c => c
    | None => {| LanguageTotal.bytes := 0; LanguageTotal.color := edge_color;
                 LanguageTotal.repoCount := 0 |}
    end in
  let bytes := (LanguageTotal.bytes current + LanguageEdge.size edge)%Z in
  let unseen := negb (bool_decide (name ∈ seenLanguages)) in
  let repoCount :=
    if unseen then (LanguageTotal.repoCount current + 1)%Z
    else LanguageTotal.repoCount current in
  let seenLanguages := if unseen then {[name]} ∪ seenLanguages else seenLanguages in
  let color :=
    match LanguageTotal.color current with
    | Some c => Some c
    | None => edge_color
    end in
  (Map_set name
     {| LanguageTotal.bytes := bytes; LanguageTotal.color := color;
        LanguageTotal.repoCount := repoCount |} languageTotals,
   seenLanguages).

Definition gql_repo_step (languageTotals : list (string * LanguageTotal.t))
    (repo : GraphqlRepository.t) : list (string * LanguageTotal.t) :=
  fst (fold_left gql_edge_step (GraphqlRepository.languages_edges repo)
         (languageTotals, ∅)).

Definition rest_repo_step (languageTotals : list (string * LanguageTotal.t))
    (repo : RestRepo.t) : list (string * LanguageTotal.t) :=
  match truthy_string (RestRepo.language repo) with
  | None => languageTotals
  | Some language =>
      let current :=
        match Map_get language languageTotals with
        | Some c => c
        | None => {| LanguageTotal.bytes := 0; LanguageTotal.color := None;
                     LanguageTotal.repoCount := 0 |}
        end in
      Map_set language
        {| LanguageTotal.bytes := LanguageTotal.bytes current + 1;
           LanguageTotal.color := LanguageTotal.color current;
           LanguageTotal.repoCount := LanguageTotal.repoCount current + 1 |}
        languageTotals
  end.

(** The map built by the two loops of [aggregateLanguageStats];
    [gqlRepos?.length] is truthy for a present, non-empty array. *)
Definition languageTotals (restRepos : list RestRepo.t)
    (gqlRepos : option (list GraphqlRepository.t))
    : list (string * LanguageTotal.t) :=
  match gqlRepos with
  | Some ((_ :: _) as repos) => fold_left gql_repo_step repos []
  | _ => fold_left rest_repo_step restRepos []
  end.

(** The sum of a numeric field over the values of a map. *)
Definition weight {V : Type} (f : V -> Z) (m : list (string * V)) : Z :=
  Zsum (map (fun e => f (snd e)) m).

Notation "'total_of'" := (weight LanguageTotal.bytes).
Notation "'nonneg_totals'" :=
  (List.Forall
     (fun e : string * LanguageTotal.t => (0 <= LanguageTotal.bytes (snd e))%Z)).

(** [Number(((bytes / totalBytes) * 100).toFixed(2))], or 0 for no bytes
    at all; the quotient and the product are rounded to binary64 before
    [toFixed] reads the value. *)
Definition language_percentage (totalBytes bytes : Z) : Q :=
  if (totalBytes =? 0)%Z then 0
  else
    toFixed2 (binary64 (binary64 (inject_Z bytes / inject_Z totalBytes) * 100)).

Definition aggregateLanguageStats (restRepos : list RestRepo.t)
    (gqlRepos : option (list GraphqlRepository.t)) : list LanguageStat.t :=
  let languageTotals := languageTotals restRepos gqlRepos in
  let totalBytes :=
    Zsum (map (fun e => LanguageTotal.bytes (snd e)) languageTotals) in
  firstn 8
    (Array_sort
       (fun a b => (LanguageStat.bytes b - LanguageStat.bytes a ?= 0)%Z)
       (map (fun '(name, entry) =>
               {| LanguageStat.name := name;
                  LanguageStat.bytes := LanguageTotal.bytes entry;
                  LanguageStat.repoCount := LanguageTotal.repoCount entry;
                  LanguageStat.color := LanguageTotal.color entry;
                  LanguageStat.percentage :=
                    language_percentage totalBytes (LanguageTotal.bytes entry) |})
          languageTotals)).

Definition Qsum (l : list Q) : Q := fold_right Qplus 0 l.

(** What the input holds in total: every edge size of every repository on
    the graph path, one unit per repository with a language on the REST
    path. *)
Definition input_total_bytes (restRepos : list RestRepo.t)
    (gqlRepos : option (list GraphqlRepository.t)) : Z :=
  match gqlRepos with
  | Some ((_ :: _) as repos) =>
      Zsum (map LanguageEdge.size
              (concat (map GraphqlRepository.languages_edges repos)))
  | _ =>
      Z.of_nat
        (length
           (List.filter
              (fun repo =>
                 match truthy_string (RestRepo.language repo) with
                 | Some _ => true
                 | None => false
                 end) restRepos))
  end.

(** Byte counts are not negative. *)
Definition sizes_nonneg (gqlRepos : option (list GraphqlRepository.t)) : Prop :=
  match gqlRepos with
  | Some repos =>
      List.Forall
        (fun repo =>
           List.Forall (fun edge => (0 <= LanguageEdge.size edge)%Z)
             (GraphqlRepository.languages_edges repo)) repos
  | None => True
  end.

(** A REST repository that reports [language] and nothing else of note. *)
Definition rest_repo_in (language : string) : RestRepo.t :=
  {| RestRepo.id := 1; RestRepo.name := "repo"; RestRepo.full_name := "octocat/repo";
     RestRepo.description := None; RestRepo.stargazers_count := 0;
     RestRepo.watchers_count := 0; RestRepo.forks_count := 0;
     RestRepo.open_issues_count := 0; RestRepo.html_url := EmptyString;
     RestRepo.language := Some language; RestRepo.archived := false;
     RestRepo.disabled := false; RestRepo.created_at := "2020-01-01T00:00:00Z";
     RestRepo.updated_at := "2020-01-01T00:00:00Z";
     RestRepo.pushed_at := "2020-01-01T00:00:00Z"; RestRepo.private := false;
     RestRepo.fork := false |}.

(** Six repositories, each in a language of its own. *)
Definition six_languages : list RestRepo.t :=
  map rest_repo_in ["C"; "Go"; "Java"; "OCaml"; "Python"; "Rust"].

(** A repository of 160 bytes: 137 in one language, 23 in another. *)
Definition two_sizes : GraphqlRepository.t :=
  let edge name size :=
    {| LanguageEdge.size := size;
       LanguageEdge.node :=
         {| LanguageNode.name := name; LanguageNode.color := None |} |} in
  {| GraphqlRepository.name := "repo"; GraphqlRepository.stargazerCount := 0;
     GraphqlRepository.forkCount := 0; GraphqlRepository.primaryLanguage := None;
     GraphqlRepository.languages_edges := [edge "TypeScript" 137%Z; edge "CSS" 23%Z];
     GraphqlRepository.updatedAt := "2020-01-01T00:00:00Z";
     GraphqlRepository.createdAt := "2020-01-01T00:00:00Z";
     GraphqlRepository.url := EmptyString; GraphqlRepository.isArchived := false |}.

(** The direction rule read on the raw values: [equal] whenever the raw
    gap is within the tolerance, and otherwise [up] or [down] by the order
    of the raw values. *)
Definition direction_by_raw_gap (a b : Q) (d : Direction) : Prop :=
  (Qabs (a - b) <= 0.01 -> d = equal) /\
  (~ Qabs (a - b) <= 0.01 -> (d = up <-> b < a) /\ (d = down <-> a < b)).

Module MemePrompt.
Record t : Type := { templateId : string; topText : string; bottomText : string }.
End MemePrompt.

Module ComparisonResult.
Record t : Type := {
  userA : GitHubUserInsights.t;
  userB : GitHubUserInsights.t;
  metrics : list ComparisonMetric.t;
  heroMetric : option ComparisonMetric.t;
  summary : string;
  memePrompt : option MemePrompt.t
}.
End ComparisonResult.

(** ** The seven metrics *)

Definition buildComparisonMetrics (userA userB : GitHubUserInsights.t)
    : list ComparisonMetric.t :=
  let aContrib := GitHubUserInsights.contributions userA in
  let bContrib := GitHubUserInsights.contributions userB in
  let aTopLanguage := head (GitHubUserInsights.languages userA) in
  let bTopLanguage := head (GitHubUserInsights.languages userB) in
  let or_zero {A : Type} (f : A -> Q) (o : option A) : Q :=
    match o with Some x => f x | None => 0 end in
  [ buildMetric "repositories" "Public Repositories"
      (inject_Z (GitHubUserInsights.publicRepos userA))
      (inject_Z (GitHubUserInsights.publicRepos userB))
      (Some "Total public repositories owned by each user.");
    buildMetric "stars" "Repository Stars"
      (inject_Z (Totals.stars (GitHubUserInsights.totals userA)))
      (inject_Z (Totals.stars (GitHubUserInsights.totals userB)))
      (Some "Sum of stars across public repositories.");
    buildMetric "followers" "Followers"
      (inject_Z (GitHubUserInsights.followers userA))
      (inject_Z (GitHubUserInsights.followers userB))
      (Some "Follower counts indicate community reach.");
    buildMetric "weekly_contributions" "Average Weekly Contributions"
      (or_zero ContributionStats.weeklyAverage aContrib)
      (or_zero ContributionStats.weeklyAverage bContrib)
      (Some "Average contributions per week over the last year.");
    buildMetric "yearly_contributions" "Yearly Contributions"
      (or_zero (fun c => inject_Z (ContributionStats.lastYear c)) aContrib)
      (or_zero (fun c => inject_Z (ContributionStats.lastYear c)) bContrib)
      (Some "Total contributions in the last 52 weeks.");
    buildMetric "top_language_share" "Top Language Share (%)"
      (or_zero LanguageStat.percentage aTopLanguage)
      (or_zero LanguageStat.percentage bTopLanguage)
      (Some "Share of work done in the most used language.");
    buildMetric "pull_requests" "Pull Request Contributions"
      (or_zero
         (fun c => inject_Z (Breakdown.pullRequests (ContributionStats.breakdown c)))
         aContrib)
      (or_zero
         (fun c => inject_Z (Breakdown.pullRequests (ContributionStats.breakdown c)))
         bContrib)
      (Some "Pull requests made in the last year.") ].

(** ** Hero metric *)

Definition Direction_eqb (x y : Direction) : bool :=
  match x, y with
  | up, up | down, down | equal, equal => true
  | _, _ => false
  end.

Definition selectHeroMetric (metrics : list ComparisonMetric.t)
    : option ComparisonMetric.t :=
  head
    (Array_sort
       (fun a b => Qabs (ComparisonMetric.diff b) - Qabs (ComparisonMetric.diff a) ?= 0)
       (List.filter
          (fun metric => negb (Direction_eqb (ComparisonMetric.direction metric) equal))
          metrics)).

(** ** Summary and meme prompt *)

Inductive Scenario : Type := dominant | close | upset | tie.

Definition MEME_TEMPLATES (scenario : Scenario) : list string :=
  match scenario with
  | dominant => ["61579"; "188390779"; "252600902"]
  | close => ["129242436"; "222403160"; "112126428"]
  | upset => ["181913649"; "247375501"; "129365222"]
  | tie => ["438680"; "217743513"; "4087833"]
  end.

(** [items[Math.floor(r * items.length)]], where [r] is what
    [Math.random()] returned; [None] is [undefined]. *)
Definition pickRandom {A : Type} (items : list A) (r : Q) : option A :=
  let i := Qfloor (r * inject_Z (Z.of_nat (length items))) in
  if (i <? 0)%Z then None else nth_error items (Z.to_nat i).

(** The three characters that the source has between the two halves of
    one caption, as UTF-8 bytes. *)
Definition caption_separator : string :=
  string_of_list_ascii
    (map ascii_of_nat [195; 162; 226; 130; 172; 226; 128; 157]%nat).

Definition Qmaximum (a b : Q) : Q := if Qle_bool a b then b else a.
Definition Qminimum (a b : Q) : Q := if Qle_bool a b then a else b.

Definition topLanguageWinner (user : GitHubUserInsights.t) : string :=
  match GitHubUserInsights.languages user with
  | language :: _ => LanguageStat.name language
  | [] => "mystery stack"
  end.

(** The caption pools of the three magnitude bands: top lines and bottom
    lines. *)
Definition quips (winner loser metricName formattedWinnerValue formattedLoserValue
    winnerLanguage loserLanguage secondaryLine : string) (scenario : Scenario)
    : list string * list string :=
  match scenario with
  | close =>
      ([ winner +:+ " barely edges " +:+ loser +:+ " on " +:+ metricName;
         winner +:+ " vs " +:+ loser +:+ ": photo-finish on " +:+ metricName;
         winner +:+ " sneaks ahead with " +:+ formattedWinnerValue +:+ " "
           +:+ metricName ],
       [ loser +:+ " sitting at " +:+ formattedLoserValue +:+ " "
           +:+ caption_separator +:+ " rematch after lunch?";
         "Scoreboard: " +:+ winner +:+ " " +:+ formattedWinnerValue +:+ " vs "
           +:+ loser +:+ " " +:+ formattedLoserValue +:+ ".";
         loser +:+ " sharpening " +:+ loserLanguage
           +:+ " skills for the next push." ])
  | upset =>
      ([ winner +:+ " drops an upset in " +:+ metricName;
         "Plot twist: " +:+ winner +:+ " takes " +:+ metricName;
         winner +:+ " whispers " +:+ dquote +:+ "hold my keyboard" +:+ dquote ],
       [ loser +:+ " stunned at " +:+ formattedLoserValue +:+ ". " +:+ secondaryLine;
         loser +:+ " was not ready for the " +:+ winnerLanguage +:+ " flex.";
         loser +:+ " writing a retro on how this happened." ])
  | _ =>
      ([ winner +:+ " farming " +:+ metricName +:+ " like it's Hacktoberfest";
         "Meanwhile " +:+ winner +:+ " speedruns " +:+ metricName;
         winner +:+ " hitting " +:+ formattedWinnerValue +:+ " " +:+ metricName
           +:+ " before standup" ],
       [ loser +:+ " stuck at " +:+ formattedLoserValue +:+ " and refactoring "
           +:+ loserLanguage +:+ " code.";
         loser +:+ " googling " +:+ dquote +:+ "how to catch up "
           +:+ formattedWinnerValue +:+ "-" +:+ formattedLoserValue +:+ dquote;
         loser +:+ " whispering to " +:+ loserLanguage +:+ ": " +:+ dquote
           +:+ "We need more " +:+ metricName +:+ "..." +:+ dquote ])
  end.

Definition tie_topTextOptions (duo : string) : list string :=
  [ duo +:+ " in the ultimate merge conflict";
    duo +:+ " trying to out-commit each other";
    duo +:+ " same vibes, different clones" ].

Definition tie_bottomTextOptions (languages : string) : list string :=
  [ "Result: perfect tie. Maybe pair on " +:+ languages +:+ "?";
    "No winner. Just two legends pushing main together.";
    "It's a dead heat. Time for a duo livestream in " +:+ languages +:+ "." ].

(** The band of an absolute gap. *)
Definition scenario_of_gap (gap : Q) : Scenario :=
  if Qltb 100 gap then dominant else if Qltb gap 10 then close else upset.

Section Narrative.
(** The conversion of a number to a string in a template literal, and
    [Intl.NumberFormat("en-US", { notation: "compact",
    maximumFractionDigits: 1 }).format]. *)
Variable Number_toString : Q -> string.
Variable compactNumber_format : Q -> string.

(** Every number of the model is finite. *)
Definition formatStat (value : Q) : string := compactNumber_format (Qabs value).

Definition buildSummary (result : ComparisonResult.t) : string :=
  let userA := ComparisonResult.userA result in
  let userB := ComparisonResult.userB result in
  match ComparisonResult.heroMetric result with
  | None =>
      GitHubUserInsights.login userA +:+ " and " +:+ GitHubUserInsights.login userB
      +:+ " are neck and neck across all tracked metrics."
  | Some heroMetric =>
      let winner :=
        if Qle_bool 0 (ComparisonMetric.diff heroMetric)
        then GitHubUserInsights.login userA else GitHubUserInsights.login userB in
      let loser :=
        if Qle_bool 0 (ComparisonMetric.diff heroMetric)
        then GitHubUserInsights.login userB else GitHubUserInsights.login userA in
      winner +:+ " outshines " +:+ loser +:+ " on "
      +:+ toLowerCase (ComparisonMetric.label heroMetric)
      +:+ " by " +:+ Number_toString (Qabs (ComparisonMetric.diff heroMetric))
      +:+ ". Check the charts for the full story."
  end.

(** [r1], [r2], [r3] are the three values [Math.random()] returns, in the
    order the calls are made. *)
Definition deriveMemePrompt (result : ComparisonResult.t) (r1 r2 r3 : Q)
    : option MemePrompt.t :=
  let heroMetric := ComparisonResult.heroMetric result in
  let metrics := ComparisonResult.metrics result in
  let userA := ComparisonResult.userA result in
  let userB := ComparisonResult.userB result in
  match heroMetric with
  | None =>
      templateId ← pickRandom (MEME_TEMPLATES tie) r1;
      let duo :=
        GitHubUserInsights.login userA +:+ " & " +:+ GitHubUserInsights.login userB in
      let languages :=
        topLanguageWinner userA +:+ " vs " +:+ topLanguageWinner userB in
      topText ← pickRandom (tie_topTextOptions duo) r2;
      bottomText ← pickRandom (tie_bottomTextOptions languages) r3;
      Some {| MemePrompt.templateId := templateId; MemePrompt.topText := topText;
              MemePrompt.bottomText := bottomText |}
  | Some heroMetric =>
      let a_leads := Qle_bool 0 (ComparisonMetric.diff heroMetric) in
      let winner := if a_leads then userA else userB in
      let loser := if a_leads then userB else userA in
      let winnerValue :=
        if a_leads then ComparisonMetric.userA heroMetric
        else ComparisonMetric.userB heroMetric in
      let loserValue :=
        if a_leads then ComparisonMetric.userB heroMetric
        else ComparisonMetric.userA heroMetric in
      let gap := Qabs (ComparisonMetric.diff heroMetric) in
      let scenario := scenario_of_gap gap in
      templateId ← pickRandom (MEME_TEMPLATES scenario) r1;
      let secondaryMetric :=
        head
          (Array_sort
             (fun a b =>
                Qabs (ComparisonMetric.diff b) - Qabs (ComparisonMetric.diff a) ?= 0)
             (List.filter
                (fun metric =>
                   negb (String.eqb (ComparisonMetric.id metric)
                           (ComparisonMetric.id heroMetric)))
                metrics)) in
      let secondaryLine :=
        match secondaryMetric with
        | Some secondaryMetric =>
            let secondaryLeader :=
              if Qle_bool 0 (ComparisonMetric.diff secondaryMetric) then userA
              else userB in
            GitHubUserInsights.login secondaryLeader +:+ " owns "
            +:+ toLowerCase (ComparisonMetric.label secondaryMetric) +:+ " ("
            +:+ formatStat
                  (Qmaximum (ComparisonMetric.userA secondaryMetric)
                     (ComparisonMetric.userB secondaryMetric))
            +:+ " vs "
            +:+ formatStat
                  (Qminimum (ComparisonMetric.userA secondaryMetric)
                     (ComparisonMetric.userB secondaryMetric))
            +:+ ")."
        | None => GitHubUserInsights.login winner +:+ " is on a roll."
        end in
      let winnerLanguage := topLanguageWinner winner in
      let loserLanguage := topLanguageWinner loser in
      let metricName := toLowerCase (ComparisonMetric.label heroMetric) in
      let formattedWinnerValue := formatStat winnerValue in
      let formattedLoserValue := formatStat loserValue in
      let choices :=
        quips (GitHubUserInsights.login winner) (GitHubUserInsights.login loser)
          metricName formattedWinnerValue formattedLoserValue winnerLanguage
          loserLanguage secondaryLine scenario in
      topText ← pickRandom (fst choices) r2;
      bottomText ← pickRandom (snd choices) r3;
      Some {| MemePrompt.templateId := templateId; MemePrompt.topText := topText;
              MemePrompt.bottomText := bottomText |}
  end.
End Narrative.

(** The first revision of the prompt, kept in the sources next to the
    randomised one: one template per band and fixed wording. *)
Module Earlier.
Definition MEME_TEMPLATES (scenario : Scenario) : string :=
  match scenario with
  | dominant => "61579"
  | close => "129242436"
  | upset => "181913649"
  | tie => "438680"
  end.

Definition deriveMemePrompt (Number_toString : Q -> string)
    (result : ComparisonResult.t) : option MemePrompt.t :=
  let userA := ComparisonResult.userA result in
  let userB := ComparisonResult.userB result in
  match ComparisonResult.heroMetric result with
  | None =>
      Some
        {| MemePrompt.templateId := MEME_TEMPLATES tie;
           MemePrompt.topText :=
             GitHubUserInsights.login userA +:+ " vs "
             +:+ GitHubUserInsights.login userB;
           MemePrompt.bottomText :=
             "It's too close to call. Maybe open a PR together?" |}
  | Some heroMetric =>
      let a_leads := Qle_bool 0 (ComparisonMetric.diff heroMetric) in
      let winner := if a_leads then userA else userB in
      let loser := if a_leads then userB else userA in
      let gap := Qabs (ComparisonMetric.diff heroMetric) in
      let winnerValue :=
        if a_leads then ComparisonMetric.userA heroMetric
        else ComparisonMetric.userB heroMetric in
      let loserValue :=
        if a_leads then ComparisonMetric.userB heroMetric
        else ComparisonMetric.userA heroMetric in
      let templateId := MEME_TEMPLATES (scenario_of_gap gap) in
      let metricName := ComparisonMetric.label heroMetric in
      Some
        {| MemePrompt.templateId := templateId;
           MemePrompt.topText :=
             GitHubUserInsights.login winner +:+ " flexing "
             +:+ toLowerCase metricName;
           MemePrompt.bottomText :=
             GitHubUserInsights.login loser +:+ " stuck on "
             +:+ Number_toString loserValue +:+ " while "
             +:+ GitHubUserInsights.login winner +:+ " hits "
             +:+ Number_toString winnerValue +:+ "." |}
  end.
End Earlier.

(** The body of the factory of [compareUsers], once both profiles are at
    hand. *)
Definition compare_insights (Number_toString compactNumber_format : Q -> string)
    (userA userB : GitHubUserInsights.t) (r1 r2 r3 : Q) : ComparisonResult.t :=
  let metrics := buildComparisonMetrics userA userB in
  let heroMetric := selectHeroMetric metrics in
  let comparison :=
    {| ComparisonResult.userA := userA; ComparisonResult.userB := userB;
       ComparisonResult.metrics := metrics;
       ComparisonResult.heroMetric := heroMetric;
       ComparisonResult.summary := EmptyString;
       ComparisonResult.memePrompt := None |} in
  let summary := buildSummary Number_toString comparison in
  let comparison :=
    {| ComparisonResult.userA := userA; ComparisonResult.userB := userB;
       ComparisonResult.metrics := metrics;
       ComparisonResult.heroMetric := heroMetric;
       ComparisonResult.summary := summary;
       ComparisonResult.memePrompt := None |} in
  {| ComparisonResult.userA := userA; ComparisonResult.userB := userB;
     ComparisonResult.metrics := metrics;
     ComparisonResult.heroMetric := heroMetric;
     ComparisonResult.summary := summary;
     ComparisonResult.memePrompt :=
       deriveMemePrompt compactNumber_format comparison r1 r2 r3 |}.

(** A profile with the given handle, stars and followers and nothing
    else. *)
Definition example_user (login : string) (stars followers : Z)
    : GitHubUserInsights.t :=
  {| GitHubUserInsights.login := login; GitHubUserInsights.name := None;
     GitHubUserInsights.avatarUrl := EmptyString;
     GitHubUserInsights.profileUrl := EmptyString;
     GitHubUserInsights.bio := None; GitHubUserInsights.company := None;
     GitHubUserInsights.location := None;
     GitHubUserInsights.followers := followers;
     GitHubUserInsights.following := 0; GitHubUserInsights.publicRepos := 3;
     GitHubUserInsights.publicGists := 0;
     GitHubUserInsights.createdAt := "2020-01-01T00:00:00Z";
     GitHubUserInsights.totals :=
       {| Totals.stars := stars; Totals.forks := 0; Totals.watchers := 0;
          Totals.issues := 0 |};
     GitHubUserInsights.languages := [];
     GitHubUserInsights.contributions := None;
     GitHubUserInsights.highlights :=
       {| Highlights.mostStarred := None; Highlights.mostForked := None;
          Highlights.newestRepo := None; Highlights.oldestRepo := None;
          Highlights.pinned := None |};
     GitHubUserInsights.repositories := [] |}.

(** A rendering of numbers for the worked examples: the integer part. *)
Definition integer_part (q : Q) : string := Z_to_string (Qfloor q).

(** The comparison of the worked example: 500 stars and 10 followers
    against 350 stars and 12 followers. *)
Definition example_comparison : ComparisonResult.t :=
  compare_insights integer_part integer_part
    (example_user "alice" 500 10) (example_user "bob" 350 12) 0 0.5 0.9.

(** The metric list of the worked example: stars 500 against 350,
    followers 10 against 5, repositories 3 against 3. *)
Definition example_stars : ComparisonMetric.t :=
  buildMetric "stars" "Repository Stars" 500 350
    (Some "Sum of stars across public repositories.").
Definition example_followers : ComparisonMetric.t :=
  buildMetric "followers" "Followers" 10 5
    (Some "Follower counts indicate community reach.").
Definition example_repositories : ComparisonMetric.t :=
  buildMetric "repositories" "Public Repositories" 3 3
    (Some "Total public repositories owned by each user.").

(** ** The cache with a factory that may fail

    [remember] again, for a factory whose promise may reject: the
    rejection passes through [await] and [set] is never reached. *)
Definition remember_or_throw {V E : Type} (now later : Z) (key : string)
    (factory : nat -> Outcome E V) (ttlMs : option Z) (c : TTLCache.t V)
    : Outcome E V * TTLCache.t V :=
  match TTLCache.get now key c with
  | (Some cached, c) => (Returned cached, c)
  | (None, c) =>
      let settled := factory (TTLCache.invocations c) in
      let c :=
        {| TTLCache.store := TTLCache.store c;
           TTLCache.defaultTtlMs := TTLCache.defaultTtlMs c;
           TTLCache.invocations := S (TTLCache.invocations c) |} in
      match settled with
      | Returned v => (Returned v, TTLCache.set later key v ttlMs c)
      | Thrown e => (Thrown e, c)
      end
  end.

(** A cache holding one entry, and a factory that fails on its first
    invocation only. *)
Definition one_entry_cache : TTLCache.t nat :=
  TTLCache.set 1000 "octocat" 7%nat None fresh_cache.

Definition flaky_factory (n : nat) : Outcome string nat :=
  match n with
  | O => Thrown "upstream unavailable"
  | S _ => Returned n
  end.

(** ** Highlights *)

Module GraphqlPinned.
Record t : Type := {
  name : string;
  description : option string;
  stargazerCount : Z;
  url : string;
  primaryLanguage : option (option string);
  updatedAt : string;
  createdAt : string;
  isArchived : bool
}.
End GraphqlPinned.

Definition formatRepository (repo : RestRepo.t) : RepositoryHighlight.t :=
  {| RepositoryHighlight.name := RestRepo.name repo;
     RepositoryHighlight.description := RestRepo.description repo;
     RepositoryHighlight.url := RestRepo.html_url repo;
     RepositoryHighlight.stargazers := RestRepo.stargazers_count repo;
     RepositoryHighlight.forks := RestRepo.forks_count repo;
     RepositoryHighlight.primaryLanguage := RestRepo.language repo;
     RepositoryHighlight.updatedAt := RestRepo.updated_at repo;
     RepositoryHighlight.createdAt := RestRepo.created_at repo;
     RepositoryHighlight.isArchived := RestRepo.archived repo || RestRepo.disabled repo |}.

Definition mapPinned (item : GraphqlPinned.t) : RepositoryHighlight.t :=
  {| RepositoryHighlight.name := GraphqlPinned.name item;
     RepositoryHighlight.description := GraphqlPinned.description item;
     RepositoryHighlight.url := GraphqlPinned.url item;
     RepositoryHighlight.stargazers := GraphqlPinned.stargazerCount item;
     RepositoryHighlight.forks := 0;
     RepositoryHighlight.primaryLanguage :=
       match GraphqlPinned.primaryLanguage item with
       | Some name => name
       | None => None
       end;
     RepositoryHighlight.updatedAt := GraphqlPinned.updatedAt item;
     RepositoryHighlight.createdAt := GraphqlPinned.createdAt item;
     RepositoryHighlight.isArchived := GraphqlPinned.isArchived item |}.

Definition deriveHighlights (repos : list RestRepo.t)
    (pinned : option (list GraphqlPinned.t)) : Highlights.t :=
  let sortedByStars :=
    Array_sort
      (fun a b => (RestRepo.stargazers_count b - RestRepo.stargazers_count a ?= 0)%Z)
      repos in
  let sortedByForks :=
    Array_sort
      (fun a b => (RestRepo.forks_count b - RestRepo.forks_count a ?= 0)%Z) repos in
  let sortedByCreated :=
    Array_sort
      (fun a b => localeCompare (RestRepo.created_at a) (RestRepo.created_at b))
      repos in
  let sortedByUpdated :=
    Array_sort
      (fun a b => localeCompare (RestRepo.updated_at b) (RestRepo.updated_at a))
      repos in
  {| Highlights.mostStarred := option_map formatRepository (head sortedByStars);
     Highlights.mostForked := option_map formatRepository (head sortedByForks);
     Highlights.oldestRepo := option_map formatRepository (head sortedByCreated);
     Highlights.newestRepo := option_map formatRepository (head sortedByUpdated);
     Highlights.pinned := option_map (map mapPinned) pinned |}.

(** [r] is the first element of [l] that ranks at least as high as every
    other: everything before it is [worse], it is [worse] than nothing
    after it. *)
Definition first_best {A : Type} (worse : A -> A -> Prop) (l : list A) (r : A) : Prop :=
  exists l1 l2, l = l1 ++ r :: l2 /\
    List.Forall (fun m => worse m r) l1 /\ List.Forall (fun m => ~ worse r m) l2.

(** ** Metrics seen from the other side *)

Definition flip (d : Direction) : Direction :=
  match d with
  | up => down
  | down => up
  | equal => equal
  end.

(** [m'] is [m] with the two users exchanged: same identity, values
    swapped, difference negated, direction flipped. *)
Definition mirrored (m m' : ComparisonMetric.t) : Prop :=
  ComparisonMetric.id m' = ComparisonMetric.id m /\
  ComparisonMetric.label m' = ComparisonMetric.label m /\
  ComparisonMetric.userA m' = ComparisonMetric.userB m /\
  ComparisonMetric.userB m' = ComparisonMetric.userA m /\
  ComparisonMetric.diff m' == - ComparisonMetric.diff m /\
  Qabs (ComparisonMetric.diff m') = Qabs (ComparisonMetric.diff m) /\
  ComparisonMetric.direction m' = flip (ComparisonMetric.direction m).

(** The seven numbers [buildComparisonMetrics] reads from a profile, in
    the order of the metrics; a statistic that is absent counts as 0. *)
Definition metric_values (user : GitHubUserInsights.t) : list Q :=
  let contributions := GitHubUserInsights.contributions user in
  let or_zero {A : Type} (f : A -> Q) (o : option A) : Q :=
    match o with Some x => f x | None => 0 end in
  [ inject_Z (GitHubUserInsights.publicRepos user);
    inject_Z (Totals.stars (GitHubUserInsights.totals user));
    inject_Z (GitHubUserInsights.followers user);
    or_zero ContributionStats.weeklyAverage contributions;
    or_zero (fun c => inject_Z (ContributionStats.lastYear c)) contributions;
    or_zero LanguageStat.percentage (head (GitHubUserInsights.languages user));
    or_zero
      (fun c => inject_Z (Breakdown.pullRequests (ContributionStats.breakdown c)))
      contributions ].

(** The two profiles give the same seven numbers. *)
Definition same_stats (a b : GitHubUserInsights.t) : Prop :=
  Forall2 Qeq (metric_values a) (metric_values b).

(** A profile like [example_user] that has contribution data and one
    language, all of it zero. *)
Definition idle_user (login : string) (stars followers : Z) : GitHubUserInsights.t :=
  let u := example_user login stars followers in
  {| GitHubUserInsights.login := GitHubUserInsights.login u;
     GitHubUserInsights.name := GitHubUserInsights.name u;
     GitHubUserInsights.avatarUrl := GitHubUserInsights.avatarUrl u;
     GitHubUserInsights.profileUrl := GitHubUserInsights.profileUrl u;
     GitHubUserInsights.bio := GitHubUserInsights.bio u;
     GitHubUserInsights.company := GitHubUserInsights.company u;
     GitHubUserInsights.location := GitHubUserInsights.location u;
     GitHubUserInsights.followers := GitHubUserInsights.followers u;
     GitHubUserInsights.following := GitHubUserInsights.following u;
     GitHubUserInsights.publicRepos := GitHubUserInsights.publicRepos u;
     GitHubUserInsights.publicGists := GitHubUserInsights.publicGists u;
     GitHubUserInsights.createdAt := GitHubUserInsights.createdAt u;
     GitHubUserInsights.totals := GitHubUserInsights.totals u;
     GitHubUserInsights.languages :=
       [ {| LanguageStat.name := "TypeScript"; LanguageStat.bytes := 0;
            LanguageStat.percentage := 0 # 7; LanguageStat.color := None;
            LanguageStat.repoCount := 1 |} ];
     GitHubUserInsights.contributions :=
       Some {| ContributionStats.total := 0; ContributionStats.lastYear := 0;
               ContributionStats.weeklyAverage := 0 # 3;
               ContributionStats.weeklyMax := 0;
               ContributionStats.weeklySeries := [];
               ContributionStats.streak :=
                 {| Streak.current := 0; Streak.longest := 0 |};
               ContributionStats.breakdown :=
                 {| Breakdown.commits := 0; Breakdown.pullRequests := 0;
                    Breakdown.reviews := 0; Breakdown.issues := 0;
                    Breakdown.restricted := 0 |} |};
     GitHubUserInsights.highlights := GitHubUserInsights.highlights u;
     GitHubUserInsights.repositories := GitHubUserInsights.repositories u |}.

(** A record that [buildMetric] can have returned. *)
Definition built (m : ComparisonMetric.t) : Prop :=
  exists i l a b d, m = buildMetric i l a b d.

(** The ids of the seven metrics, in their order. *)
Definition metric_ids : list string :=
  ["repositories"; "stars"; "followers"; "weekly_contributions";
   "yearly_contributions"; "top_language_share"; "pull_requests"].

(** What the input holds for one language: on the graph path the sizes of
    the edges carrying its name and the repositories having such an edge,
    on the REST path the repositories written in it. *)
Definition names (name : string) (edge : LanguageEdge.t) : bool :=
  String.eqb (LanguageNode.name (LanguageEdge.node edge)) name.

Definition graph_bytes (name : string) (repos : list GraphqlRepository.t) : Z :=
  Zsum (map (fun repo =>
               Zsum (map LanguageEdge.size
                       (List.filter (names name)
                          (GraphqlRepository.languages_edges repo)))) repos).

Definition graph_repoCount (name : string) (repos : list GraphqlRepository.t) : Z :=
  Z.of_nat
    (length
       (List.filter
          (fun repo => existsb (names name) (GraphqlRepository.languages_edges repo))
          repos)).

Definition written_in (name : string) (repo : RestRepo.t) : bool :=
  match truthy_string (RestRepo.language repo) with
  | Some language => String.eqb language name
  | None => false
  end.

Definition rest_repoCount (name : string) (repos : list RestRepo.t) : Z :=
  Z.of_nat (length (List.filter (written_in name) repos)).

(** The fields of [languageTotals.get(name)], 0 for an absent key. *)
Definition bytes_of (name : string) (m : list (string * LanguageTotal.t)) : Z :=
  match Map_get name m with Some v => LanguageTotal.bytes v | None => 0%Z end.

Definition count_of (name : string) (m : list (string * LanguageTotal.t)) : Z :=
  match Map_get name m with Some v => LanguageTotal.repoCount v | None => 0%Z end.

(** ** The request schema ([src/lib/schemas.ts]) *)

(** Match the literal [pat] at the front of [s], letter for letter. *)
Fixpoint match_literal (pat s : string) : option string :=
  match pat, s with
  | EmptyString, _ => Some s
  | String p pat', String c s' =>
      if Ascii.eqb c p then match_literal pat' s' else None
  | String _ _, EmptyString => None
  end.

(** The match of [/github\.com\/([^/?#]+)/], without the [i] flag, reduced
    to its capture group. *)
Fixpoint match_profile_url_exact (s : string) : option string :=
  let here :=
    match match_literal "github.com/" s with
    | Some rest =>
        match segment rest with
        | EmptyString => None
        | login => Some login
        end
    | None => None
    end in
  match here with
  | Some login => Some login
  | None =>
      match s with
      | EmptyString => None
      | String _ s' => match_profile_url_exact s'
      end
  end.

Definition normalizeHandle (value : string) : string :=
  let trimmed := toLowerCase (trim value) in
  match match_profile_url_exact trimmed with
  | Some login => login
  | None => strip_leading_at trimmed
  end.




(** Strings of ASCII characters, on which the case mapping and the white
    space of the embedding are those of the language. *)
Definition ascii_only (s : string) : bool := string_forallb (code_in 0 127) s.

(** The key under which [compareUsers] caches a comparison. *)
Definition comparisonCacheKey (userAInput userBInput : string) : Outcome Error string :=
  match sanitizeLogin userAInput with
  | Thrown e => Thrown e
  | Returned loginA =>
      match sanitizeLogin userBInput with
      | Thrown e => Thrown e
      | Returned loginB =>
          Returned (toLowerCase loginA +:+ "::" +:+ toLowerCase loginB)
      end
  end.

(** ** The meme service ([src/lib/meme.ts]) *)

Module ImgflipData.
Record t : Type := { url : string; page_url : string }.
End ImgflipData.

(** The parsed body of the service's answer; [success] is the truthiness
    of the field, [{}] has none of the fields. *)
Module ImgflipResponse.
Record t : Type := {
  success : bool;
  data : option ImgflipData.t;
  error_message : option string
}.
End ImgflipResponse.

Module MemeResult.
Record t : Type := { url : string; pageUrl : string }.
End MemeResult.

(** The request handed to [fetch]: the body is the [URLSearchParams], in
    the order of the object literal. *)
Module ImgflipRequest.
Record t : Type := {
  endpoint : string;
  method : string;
  body : list (string * string)
}.
End ImgflipRequest.

(** What [fetch] resolves to; [json] is [None] when the body does not
    parse. *)
Module ImgflipHttp.
Record t : Type := { ok : bool; json : option ImgflipResponse.t }.
End ImgflipHttp.

Definition IMGFLIP_ENDPOINT : string := "https://api.imgflip.com/caption_image".

(** [generateMeme], returning its result together with the requests it
    sent. *)
Definition generateMeme (env : Env.t) (fetch : ImgflipRequest.t -> ImgflipHttp.t)
    (prompt : option MemePrompt.t) : option MemeResult.t * list ImgflipRequest.t :=
  match prompt, truthy_string (Env.IMGFLIP_USERNAME env),
        truthy_string (Env.IMGFLIP_PASSWORD env) with
  | Some prompt, Some username, Some password =>
      match MemePrompt.templateId prompt with
      | EmptyString => (None, [])
      | templateId =>
          let request :=
            {| ImgflipRequest.endpoint := IMGFLIP_ENDPOINT;
               ImgflipRequest.method := "POST";
               ImgflipRequest.body :=
                 [("template_id", templateId); ("username", username);
                  ("password", password);
                  ("text0", MemePrompt.topText prompt);
                  ("text1", MemePrompt.bottomText prompt)] |} in
          let response := fetch request in
          let payload :=
            match ImgflipHttp.json response with
            | Some payload => payload
            | None =>
                {| ImgflipResponse.success := false; ImgflipResponse.data := None;
                   ImgflipResponse.error_message := None |}
            end in
          match ImgflipHttp.ok response, ImgflipResponse.success payload,
                ImgflipResponse.data payload with
          | true, true, Some data =>
              (Some {| MemeResult.url := ImgflipData.url data;
                       MemeResult.pageUrl := ImgflipData.page_url data |},
               [request])
          | _, _, _ => (None, [request])
          end
      end
  | _, _, _ => (None, [])
  end.

(** Both credentials of the meme service set. *)
Definition env_with_imgflip : Env.t :=
  {| Env.GITHUB_ACCESS_TOKEN := None; Env.IMGFLIP_USERNAME := Some "memer";
     Env.IMGFLIP_PASSWORD := Some "hunter2" |}.

(** A service that answers every request with one picture. *)
Definition obliging_imgflip (_ : ImgflipRequest.t) : ImgflipHttp.t :=
  {| ImgflipHttp.ok := true;
     ImgflipHttp.json :=
       Some {| ImgflipResponse.success := true;
               ImgflipResponse.data :=
                 Some {| ImgflipData.url := "https://i.imgflip.com/1.jpg";
                         ImgflipData.page_url := "https://imgflip.com/i/1" |};
               ImgflipResponse.error_message := None |} |}.

(* ===================================================================== *)
(** * Part II: properties                                                 *)
(* ===================================================================== *)

(** ** Rounding to two decimals *)

Lemma Qmake_100 (n : Z) : n # 100 == inject_Z n * (1 # 100).
Proof. unfold Qeq, inject_Z; simpl. lia. Qed.

Lemma Qltb_lt (x y : Q) : Qltb x y = true <-> x < y.
Proof.
  unfold Qltb. rewrite negb_true_iff.
  destruct (Qle_bool y x) eqn:E.
  - apply Qle_bool_iff in E. split; [discriminate | intros H; lra].
  - split; [intros _ | reflexivity].
    apply Qnot_le_lt. intros H. apply Qle_bool_iff in H. congruence.
Qed.

Lemma round_half_up_bounds (x : Q) :
  inject_Z (round_half_up x) <= x + (1 # 2) /\
  x + (1 # 2) < inject_Z (round_half_up x) + 1.
Proof.
  unfold round_half_up. split; [apply Qfloor_le |].
  pose proof (Qlt_floor (x + (1 # 2))) as H.
  rewrite inject_Z_plus in H. exact H.
Qed.

(** The shape of [toFixed2 x]: an integer number of hundredths, pinned down
    by the sign of [x] and the two rounding inequalities. *)
Lemma toFixed2_cases (x : Q) :
  (0 <= x /\ exists n : Z, toFixed2 x = n # 100 /\
     inject_Z n <= x * 100 + (1 # 2) < inject_Z n + 1) \/
  (x < 0 /\ exists n : Z, toFixed2 x = (- n) # 100 /\
     inject_Z n <= - x * 100 + (1 # 2) < inject_Z n + 1).
Proof.
  unfold toFixed2. destruct (Qlt_le_dec x 0) as [Hneg | Hpos].
  - right. split; [exact Hneg |].
    exists (round_half_up (- x * 100)). split; [reflexivity |].
    apply round_half_up_bounds.
  - left. split; [exact Hpos |].
    exists (round_half_up (x * 100)). split; [reflexivity |].
    apply round_half_up_bounds.
Qed.

Lemma toFixed2_hundredths (x : Q) : exists n : Z, toFixed2 x = n # 100.
Proof.
  destruct (toFixed2_cases x) as [[_ [n [E _]]] | [_ [n [E _]]]]; eauto.
Qed.

Lemma toFixed2_near (x : Q) : Qabs (toFixed2 x - x) <= 0.005.
Proof.
  apply Qabs_Qle_condition.
  destruct (toFixed2_cases x) as [[_ [n [E [H1 H2]]]] | [_ [n [E [H1 H2]]]]];
    rewrite E; [rewrite (Qmake_100 n) | rewrite (Qmake_100 (- n)), inject_Z_opp]; lra.
Qed.

Lemma inject_Z_lt_inv (n m : Z) : inject_Z n < inject_Z m -> (n < m)%Z.
Proof. intros H. rewrite Zlt_Qlt. exact H. Qed.

Lemma inject_Z_le_inv (n m : Z) : inject_Z n <= inject_Z m -> (n <= m)%Z.
Proof. intros H. rewrite Zle_Qle. exact H. Qed.

(** Push [inject_Z] through sums and literals so that [lra] sees through. *)
Ltac inject_consts :=
  repeat match goal with
  | |- context [inject_Z (Z.pos ?p)] => change (inject_Z (Z.pos p)) with (Z.pos p # 1)
  | |- context [inject_Z (Z.neg ?p)] => change (inject_Z (Z.neg p)) with (Z.neg p # 1)
  | |- context [inject_Z 0%Z] => change (inject_Z 0%Z) with 0
  | H : context [inject_Z (Z.pos ?p)] |- _ =>
      change (inject_Z (Z.pos p)) with (Z.pos p # 1) in H
  | H : context [inject_Z (Z.neg ?p)] |- _ =>
      change (inject_Z (Z.neg p)) with (Z.neg p # 1) in H
  | H : context [inject_Z 0%Z] |- _ => change (inject_Z 0%Z) with 0 in H
  end.

Ltac to_Q :=
  first [apply inject_Z_lt_inv | apply inject_Z_le_inv];
  unfold Z.sub; rewrite ?inject_Z_plus, ?inject_Z_opp; inject_consts.

Ltac of_Z H :=
  first [rewrite Zlt_Qlt in H | rewrite Zle_Qle in H];
  unfold Z.sub in H; rewrite ?inject_Z_plus, ?inject_Z_opp in H; inject_consts.

(** A value already on the hundredths grid is left alone. *)
Lemma toFixed2_grid (k : Z) : toFixed2 (k # 100) == k # 100.
Proof.
  destruct (toFixed2_cases (k # 100)) as [[_ [n [E [H1 H2]]]] | [_ [n [E [H1 H2]]]]];
    rewrite E; rewrite (Qmake_100 k) in H1, H2.
  - assert (n = k) as ->; [| reflexivity].
    assert (n < k + 1)%Z by (to_Q; lra).
    assert (k - 1 < n)%Z by (to_Q; lra). lia.
  - assert (n = (- k)%Z) as ->; [| now rewrite Z.opp_involutive].
    assert (n < - k + 1)%Z by (to_Q; lra).
    assert (- k - 1 < n)%Z by (to_Q; lra). lia.
Qed.

(** The rounded value is within the tolerance exactly when the exact one
    is strictly below one and a half hundredths. *)
Lemma toFixed2_within_threshold (x : Q) :
  Qabs (toFixed2 x) <= 0.01 <-> Qabs x < 0.015.
Proof.
  rewrite Qabs_Qle_condition, Qabs_Qlt_condition.
  destruct (toFixed2_cases x) as [[Hx [n [E [H1 H2]]]] | [Hx [n [E [H1 H2]]]]];
    rewrite E; [rewrite (Qmake_100 n) | rewrite (Qmake_100 (- n)), inject_Z_opp].
  - split.
    + intros [_ Hn]. lra.
    + intros [_ Hlt].
      assert (n < 2)%Z as Hn by (to_Q; lra).
      assert (-1 < n)%Z as Hn0 by (to_Q; lra).
      assert (n <= 1)%Z as Hn1 by lia. assert (0 <= n)%Z as Hn2 by lia.
      of_Z Hn1. of_Z Hn2. lra.
  - split.
    + intros [Hn _]. lra.
    + intros [Hlt _].
      assert (n < 2)%Z as Hn by (to_Q; lra).
      assert (-1 < n)%Z as Hn0 by (to_Q; lra).
      assert (n <= 1)%Z as Hn1 by lia. assert (0 <= n)%Z as Hn2 by lia.
      of_Z Hn1. of_Z Hn2. lra.
Qed.

(** Rounding never flips a sign: it can only send a value to zero. *)
Lemma toFixed2_pos (x : Q) : 0 < toFixed2 x -> 0 < x.
Proof.
  destruct (toFixed2_cases x) as [[Hx [n [E [H1 H2]]]] | [Hx [n [E [H1 H2]]]]];
    rewrite E; [rewrite (Qmake_100 n) | rewrite (Qmake_100 (- n)), inject_Z_opp];
    intros Hp.
  - assert (0 < n)%Z as Hn by (to_Q; lra).
    assert (1 <= n)%Z as Hn1 by lia. of_Z Hn1. lra.
  - assert (-1 < n)%Z as Hn by (to_Q; lra).
    assert (0 <= n)%Z as Hn1 by lia. of_Z Hn1. lra.
Qed.

Lemma toFixed2_neg (x : Q) : toFixed2 x < 0 -> x < 0.
Proof.
  destruct (toFixed2_cases x) as [[Hx [n [E [H1 H2]]]] | [Hx [n [E [H1 H2]]]]];
    rewrite E; [rewrite (Qmake_100 n) | rewrite (Qmake_100 (- n)), inject_Z_opp];
    intros Hp; [| exact Hx].
  assert (-1 < n)%Z as Hn by (to_Q; lra).
  assert (0 <= n)%Z as Hn1 by lia. of_Z Hn1. lra.
Qed.

Lemma toFixed2_comp (x y : Q) : x == y -> toFixed2 x = toFixed2 y.
Proof.
  intros E. unfold toFixed2, round_half_up.
  destruct (Qlt_le_dec x 0), (Qlt_le_dec y 0); try lra.
  - now rewrite (Qfloor_comp (- x * 100 + (1 # 2)) (- y * 100 + (1 # 2))) by lra.
  - now rewrite (Qfloor_comp (x * 100 + (1 # 2)) (y * 100 + (1 # 2))) by lra.
Qed.

(** ** The comparison metric *)

Lemma buildMetric_direction_cases (i l : string) (a b : Q) (d : option string) :
  let m := buildMetric i l a b d in
  (ComparisonMetric.direction m = equal /\ Qabs (ComparisonMetric.diff m) <= 0.01) \/
  (ComparisonMetric.direction m = up /\
   ~ Qabs (ComparisonMetric.diff m) <= 0.01 /\ 0 < ComparisonMetric.diff m) \/
  (ComparisonMetric.direction m = down /\
   ~ Qabs (ComparisonMetric.diff m) <= 0.01 /\ ~ 0 < ComparisonMetric.diff m).
Proof.
  cbn. unfold SAFE_METRIC_DIFF_THRESHOLD.
  destruct (Qle_bool (Qabs (toFixed2 (a - b))) 0.01) eqn:E.
  - left. split; [reflexivity | now apply Qle_bool_iff].
  - assert (~ Qabs (toFixed2 (a - b)) <= 0.01) as N
      by (intros H; apply Qle_bool_iff in H; congruence).
    right. destruct (Qltb 0 (toFixed2 (a - b))) eqn:F.
    + left. repeat split; [exact N | now apply Qltb_lt].
    + right. repeat split; [exact N |].
      intros H. apply Qltb_lt in H. congruence.
Qed.

(** C1, as amended: the stored difference is [a - b] rounded to two
    decimals (a whole number of hundredths no further than 0.005 from the
    exact difference); the direction is [equal] exactly when the rounded
    difference is within 0.01, which in exact arithmetic is the raw gap
    being below 0.015; a raw gap within 0.01 is therefore always [equal];
    a direction other than [equal] is [up] iff [a > b] and [down] iff
    [a < b]; and for two values that carry at most two decimals, as all
    seven metrics do, the rule holds on the raw gap as well. *)
Theorem buildMetric_diff_direction (i l : string) (a b : Q) (d : option string) :
  let m := buildMetric i l a b d in
  (ComparisonMetric.userA m = a /\ ComparisonMetric.userB m = b) /\
  ((exists n : Z, ComparisonMetric.diff m = n # 100) /\
   Qabs (ComparisonMetric.diff m - (a - b)) <= 0.005) /\
  (ComparisonMetric.direction m = equal <-> Qabs (ComparisonMetric.diff m) <= 0.01) /\
  (ComparisonMetric.direction m = equal <-> Qabs (a - b) < 0.015) /\
  (Qabs (a - b) <= 0.01 -> ComparisonMetric.direction m = equal) /\
  (ComparisonMetric.direction m <> equal ->
     (ComparisonMetric.direction m = up <-> b < a) /\
     (ComparisonMetric.direction m = down <-> a < b)) /\
  (forall j k : Z, a == j # 100 -> b == k # 100 ->
     ComparisonMetric.diff m == a - b /\
     direction_by_raw_gap a b (ComparisonMetric.direction m)).
Proof.
  intros m.
  pose proof (buildMetric_direction_cases i l a b d) as Hc. fold m in Hc.
  assert (ComparisonMetric.diff m = toFixed2 (a - b)) as Hd by reflexivity.
  pose proof (toFixed2_within_threshold (a - b)) as Hw. rewrite <- Hd in Hw.
  assert (ComparisonMetric.direction m = equal
          <-> Qabs (ComparisonMetric.diff m) <= 0.01) as Heq.
  { destruct Hc as [[-> H] | [[-> [H _]] | [-> [H _]]]]; split; intros;
      tauto || discriminate. }
  assert (ComparisonMetric.direction m <> equal ->
            (ComparisonMetric.direction m = up <-> b < a) /\
            (ComparisonMetric.direction m = down <-> a < b)) as Hud.
  { intros Hne.
    destruct Hc as [[Hq _] | [[Hq [N P]] | [Hq [N P]]]]; [contradiction | |];
      rewrite Hq.
    - apply toFixed2_pos in P.
      split; split; intros; try reflexivity; try discriminate; lra.
    - assert (ComparisonMetric.diff m < 0) as P'.
      { apply Qnot_le_lt. intros H0. apply N.
        assert (ComparisonMetric.diff m == 0) as -> by lra. easy. }
      rewrite Hd in P'. apply toFixed2_neg in P'.
      split; split; intros; try reflexivity; try discriminate; lra. }
  split; [split; reflexivity |].
  split; [split; [apply toFixed2_hundredths | apply (toFixed2_near (a - b))] |].
  split; [exact Heq |].
  split; [rewrite Heq; exact Hw |].
  split.
  { intros H. apply Heq, Hw. apply Qle_lt_trans with (1 := H). reflexivity. }
  split; [exact Hud |].
  intros j k Ha Hb.
  assert (a - b == (j - k) # 100) as Hab.
  { rewrite Ha, Hb. unfold Qeq, Qminus, Qplus, Qopp; simpl. lia. }
  assert (ComparisonMetric.diff m == a - b) as Hex.
  { rewrite Hd, (toFixed2_comp _ _ Hab), Hab. apply toFixed2_grid. }
  split; [exact Hex |].
  split.
  - intros H. apply Heq. now rewrite Hex.
  - intros H. apply Hud. intros Hq. apply H. rewrite <- Hex. now apply Heq.
Qed.

Lemma buildMetric_diff_direction_witness :
  let m := buildMetric "stars" "Repository Stars" 33.34 33.33 None in
  Qabs (33.34 - 33.33) <= 0.01 /\ ComparisonMetric.direction m = equal /\
  ComparisonMetric.diff m == 33.34 - 33.33.
Proof.
  intros m.
  pose proof (buildMetric_diff_direction "stars" "Repository Stars" 33.34 33.33 None)
    as (_ & _ & _ & _ & Hle & _ & Hgrid).
  assert (Qabs (33.34 - 33.33) <= 0.01) as H by (vm_compute; discriminate).
  split; [exact H |]. split; [exact (Hle H) |].
  exact (proj1 (Hgrid 3334%Z 3333%Z ltac:(reflexivity) ltac:(reflexivity))).
Defined.

(** C1, as stated, fails: at [a = 0.014], [b = 0] the raw gap exceeds the
    tolerance and [a > b], yet the rounded difference is 0.01 and the
    direction is [equal], not [up]. *)
Lemma buildMetric_direction_counterexample :
  let m := buildMetric "stars" "Repository Stars" 0.014 0 None in
  ComparisonMetric.diff m = 0.01 /\ ComparisonMetric.direction m = equal /\
  ~ direction_by_raw_gap 0.014 0 (ComparisonMetric.direction m).
Proof.
  intros m. split; [reflexivity |]. split; [reflexivity |].
  intros [_ H].
  assert (~ Qabs (0.014 - 0) <= 0.01) as N
    by (vm_compute; intros C; apply C; reflexivity).
  destruct (H N) as [[_ Hup] _].
  assert (0 < 0.014) as P by reflexivity.
  specialize (Hup P). discriminate Hup.
Qed.

(** ** Stable sorting *)

Section ArraySortFacts.
Context {A : Type} (cmp : A -> A -> comparison).

Lemma sort_insert_Permutation (x : A) (l : list A) :
  Permutation (x :: l) (sort_insert cmp x l).
Proof.
  induction l as [| y l IH]; cbn; [reflexivity |].
  destruct (cmp x y); try reflexivity.
  rewrite perm_swap. now apply perm_skip.
Qed.

Lemma Array_sort_Permutation (l : list A) : Permutation l (Array_sort cmp l).
Proof.
  induction l as [| x l IH]; cbn; [reflexivity |].
  rewrite <- sort_insert_Permutation. now apply perm_skip.
Qed.

Lemma Array_sort_length (l : list A) : length (Array_sort cmp l) = length l.
Proof. symmetry. apply Permutation_length, Array_sort_Permutation. Qed.

Lemma head_sort_insert (x : A) (l : list A) :
  head (sort_insert cmp x l) =
  match head l with
  | None => Some x
  | Some y => match cmp x y with Gt => Some y | _ => Some x end
  end.
Proof. destruct l as [| y l]; cbn; [reflexivity |]. now destruct (cmp x y). Qed.

(** For a comparator that sorts by a key, largest first, the front of
    the sorted array is the first input element whose key is maximal:
    everything before it is strictly smaller, nothing after it is
    larger. *)
Lemma head_Array_sort_desc (key : A -> Q) (l : list A) (h : A) :
  (forall a b, cmp a b = Gt <-> key a < key b) ->
  head (Array_sort cmp l) = Some h ->
  exists l1 l2, l = l1 ++ h :: l2 /\
    List.Forall (fun m => key m < key h) l1 /\
    List.Forall (fun m => key m <= key h) l2.
Proof.
  intros Hcmp. revert h.
  induction l as [| x l IH]; intros h; [discriminate |].
  change (Array_sort cmp (x :: l)) with (sort_insert cmp x (Array_sort cmp l)).
  rewrite head_sort_insert.
  destruct (head (Array_sort cmp l)) as [y |] eqn:Ey.
  - destruct (IH y eq_refl) as (l1 & l2 & -> & F1 & F2).
    destruct (cmp x y) eqn:Exy.
    1, 2: intros [= <-];
      assert (key y <= key x)
        by (apply Qnot_lt_le; intros C; apply Hcmp in C; congruence);
      exists [], (l1 ++ y :: l2); split; [reflexivity |];
      split; [constructor |];
      apply List.Forall_app; split;
      [ eapply List.Forall_impl; [| exact F1]; cbn; intros m Hm; lra
      | constructor; [assumption |];
        eapply List.Forall_impl; [| exact F2]; cbn; intros m Hm; lra ].
    intros [= <-]. apply Hcmp in Exy.
    exists (x :: l1), l2. split; [reflexivity |].
    split; [| exact F2]. constructor; assumption.
  - intros [= <-].
    assert (l = []) as ->.
    { pose proof (Array_sort_length l) as Hl.
      destruct (Array_sort cmp l); [| discriminate].
      destruct l; [reflexivity | discriminate]. }
    exists [], []. repeat split; constructor.
Qed.

Lemma head_Array_sort_None (l : list A) :
  head (Array_sort cmp l) = None <-> l = [].
Proof.
  split; [| now intros ->].
  intros H. pose proof (Array_sort_length l) as Hl.
  destruct (Array_sort cmp l); [| discriminate].
  destruct l; [reflexivity | discriminate].
Qed.
Section Sortedness.
Hypothesis cmp_trans :
  forall a b c, cmp a b <> Gt -> cmp b c <> Gt -> cmp a c <> Gt.
Hypothesis cmp_asym : forall a b, cmp a b = Gt -> cmp b a <> Gt.

Lemma sort_insert_sorted (x : A) (l : list A) :
  StronglySorted (fun a b => cmp a b <> Gt) l ->
  StronglySorted (fun a b => cmp a b <> Gt) (sort_insert cmp x l).
Proof.
  induction 1 as [| y l Hs IH Hy]; cbn; [repeat constructor |].
  destruct (cmp x y) eqn:Exy.
  1, 2: constructor; [now constructor |];
    constructor; [congruence |];
    eapply List.Forall_impl; [| exact Hy]; cbn; intros z Hz;
    apply (cmp_trans x y z); congruence.
  constructor; [exact IH |].
  eapply Permutation_Forall; [apply sort_insert_Permutation |].
  constructor; [now apply cmp_asym | exact Hy].
Qed.

Lemma Array_sort_sorted (l : list A) :
  StronglySorted (fun a b => cmp a b <> Gt) (Array_sort cmp l).
Proof.
  induction l as [| x l IH]; cbn; [constructor |].
  now apply sort_insert_sorted.
Qed.
End Sortedness.
End ArraySortFacts.

(** ** Hero metric *)

Lemma filter_split {A : Type} (f : A -> bool) (l l1 l2 : list A) (x : A) :
  List.filter f l = l1 ++ x :: l2 ->
  exists k1 k2, l = k1 ++ x :: k2 /\
    List.filter f k1 = l1 /\ List.filter f k2 = l2 /\ f x = true.
Proof.
  revert l1. induction l as [| y l IH]; intros l1 H; cbn in H.
  - now destruct l1.
  - destruct (f y) eqn:Fy.
    + destruct l1 as [| z l1]; cbn in H; injection H as -> H.
      * exists [], l. now repeat split.
      * destruct (IH _ H) as (k1 & k2 & -> & E1 & E2 & Fx).
        exists (z :: k1), k2. cbn. rewrite Fy, E1. now repeat split.
    + destruct (IH _ H) as (k1 & k2 & -> & E1 & E2 & Fx).
      exists (y :: k1), k2. cbn. rewrite Fy. now repeat split.
Qed.

Lemma Direction_eqb_eq (x y : Direction) : Direction_eqb x y = true <-> x = y.
Proof. destruct x, y; cbn; split; congruence. Qed.

Lemma not_equal_iff (m : ComparisonMetric.t) :
  negb (Direction_eqb (ComparisonMetric.direction m) equal) = true
  <-> ComparisonMetric.direction m <> equal.
Proof.
  rewrite negb_true_iff, <- Direction_eqb_eq.
  destruct (Direction_eqb (ComparisonMetric.direction m) equal); split; congruence.
Qed.

Lemma gap_cmp (a b : ComparisonMetric.t) :
  (Qabs (ComparisonMetric.diff b) - Qabs (ComparisonMetric.diff a) ?= 0) = Gt
  <-> Qabs (ComparisonMetric.diff a) < Qabs (ComparisonMetric.diff b).
Proof. rewrite <- Qgt_alt. split; intros; lra. Qed.

(** Whatever a filter keeps satisfied the test; the rest failed it. *)
Lemma filter_Forall_keep {A : Type} (f : A -> bool) (P : A -> Prop) (l : list A) :
  List.Forall P (List.filter f l) ->
  List.Forall (fun x => f x = false \/ P x) l.
Proof.
  induction l as [| y l IH]; cbn; [constructor |].
  destruct (f y) eqn:Fy; intros H.
  - inversion H; subst. constructor; [now right | auto].
  - constructor; [now left | auto].
Qed.

(** C2: [selectHeroMetric] returns [null] exactly when every metric is
    [equal]; otherwise it returns a metric of the list that is not [equal],
    whose absolute difference is the largest among those that are not
    [equal], and which is the first such one in list order (every
    candidate before it has a strictly smaller gap); on the list
    stars (150), followers (5), repositories (0) it returns stars. *)
Theorem selectHeroMetric_first_largest_gap (metrics : list ComparisonMetric.t) :
  (selectHeroMetric metrics = None <->
     List.Forall (fun m => ComparisonMetric.direction m = equal) metrics) /\
  (forall h, selectHeroMetric metrics = Some h ->
     ComparisonMetric.direction h <> equal /\
     exists l1 l2, metrics = l1 ++ h :: l2 /\
       List.Forall
         (fun m =>
            ComparisonMetric.direction m = equal \/
            Qabs (ComparisonMetric.diff m) < Qabs (ComparisonMetric.diff h)) l1 /\
       List.Forall
         (fun m =>
            ComparisonMetric.direction m = equal \/
            Qabs (ComparisonMetric.diff m) <= Qabs (ComparisonMetric.diff h)) l2) /\
  selectHeroMetric [example_stars; example_followers; example_repositories]
    = Some example_stars.
Proof.
  unfold selectHeroMetric.
  set (keep :=
         fun metric => negb (Direction_eqb (ComparisonMetric.direction metric) equal)).
  set (cmp :=
         fun a b : ComparisonMetric.t =>
           Qabs (ComparisonMetric.diff b) - Qabs (ComparisonMetric.diff a) ?= 0).
  split; [| split].
  - rewrite head_Array_sort_None. split.
    + intros H. apply List.Forall_forall. intros m Hm.
      destruct (Direction_eqb (ComparisonMetric.direction m) equal) eqn:E;
        [now apply Direction_eqb_eq |].
      assert (In m (List.filter keep metrics)) as Hin
        by (apply List.filter_In; split; [exact Hm | unfold keep; now rewrite E]).
      rewrite H in Hin. destruct Hin.
    + intros H. induction H as [| m l Hm _ IH]; cbn; [reflexivity |].
      unfold keep at 1. rewrite Hm. exact IH.
  - intros h Hh.
    destruct (head_Array_sort_desc cmp (fun m => Qabs (ComparisonMetric.diff m))
                _ h gap_cmp Hh)
      as (l1 & l2 & Hf & F1 & F2).
    destruct (filter_split keep _ _ _ _ Hf) as (k1 & k2 & -> & <- & <- & Kh).
    split; [now apply not_equal_iff |].
    exists k1, k2. split; [reflexivity |].
    split.
    + apply filter_Forall_keep in F1.
      eapply List.Forall_impl; [| exact F1]. cbn. intros m [Hm | Hm]; [left | now right].
      unfold keep in Hm. apply negb_false_iff in Hm. now apply Direction_eqb_eq.
    + apply filter_Forall_keep in F2.
      eapply List.Forall_impl; [| exact F2]. cbn. intros m [Hm | Hm]; [left | now right].
      unfold keep in Hm. apply negb_false_iff in Hm. now apply Direction_eqb_eq.
  - reflexivity.
Qed.

Lemma selectHeroMetric_first_largest_gap_witness :
  ComparisonMetric.direction example_stars <> equal /\
  exists l1 l2,
    [example_stars; example_followers; example_repositories]
      = l1 ++ example_stars :: l2 /\
    List.Forall
      (fun m =>
         ComparisonMetric.direction m = equal \/
         Qabs (ComparisonMetric.diff m) < Qabs (ComparisonMetric.diff example_stars))
      l1 /\
    List.Forall
      (fun m =>
         ComparisonMetric.direction m = equal \/
         Qabs (ComparisonMetric.diff m) <= Qabs (ComparisonMetric.diff example_stars))
      l2.
Proof.
  pose proof (selectHeroMetric_first_largest_gap
                [example_stars; example_followers; example_repositories])
    as (_ & H & E).
  exact (H example_stars E).
Defined.

(** On a tie between two candidates the earlier one is selected. *)
Example selectHeroMetric_tie_first :
  let m1 := buildMetric "followers" "Followers" 10 15 None in
  let m2 := buildMetric "stars" "Repository Stars" 15 10 None in
  selectHeroMetric [example_repositories; m1; m2] = Some m1 /\
  selectHeroMetric [example_repositories; m2; m1] = Some m2.
Proof. split; reflexivity. Qed.


(** ** Language aggregation *)

Lemma fold_left_Zadd (l : list Z) (a : Z) :
  fold_left Z.add l a = (a + fold_left Z.add l 0)%Z.
Proof.
  revert a. induction l as [| y l IH]; intros a; cbn; [lia |].
  rewrite (IH (a + y)%Z), (IH (0 + y)%Z). lia.
Qed.

Lemma Zsum_cons (x : Z) (l : list Z) : Zsum (x :: l) = (x + Zsum l)%Z.
Proof. unfold Zsum. cbn. apply fold_left_Zadd. Qed.

Lemma Zsum_app (l1 l2 : list Z) : Zsum (l1 ++ l2) = (Zsum l1 + Zsum l2)%Z.
Proof.
  induction l1 as [| x l1 IH]; [reflexivity |].
  cbn [app]. rewrite !Zsum_cons, IH. lia.
Qed.

Lemma Zsum_Permutation (l1 l2 : list Z) : Permutation l1 l2 -> Zsum l1 = Zsum l2.
Proof.
  induction 1; rewrite ?Zsum_cons in *; lia.
Qed.

Lemma Zsum_nonneg (l : list Z) : List.Forall (fun x => (0 <= x)%Z) l -> (0 <= Zsum l)%Z.
Proof.
  induction 1; [reflexivity |]. rewrite Zsum_cons. lia.
Qed.

Section MapFacts.
Context {V : Type} (f : V -> Z).

Lemma weight_Map_set (k : string) (v : V) (m : list (string * V)) :
  weight f (Map_set k v m) =
  (weight f m - match Map_get k m with Some o => f o | None => 0 end + f v)%Z.
Proof.
  unfold weight. induction m as [| [k' v'] m IH]; cbn [Map_set Map_get map snd].
  - rewrite Zsum_cons. unfold Zsum. cbn. lia.
  - destruct (String.eqb k' k); cbn [map snd]; rewrite !Zsum_cons; [lia |].
    rewrite IH. lia.
Qed.

Lemma Map_set_Forall (P : V -> Prop) (k : string) (v : V) (m : list (string * V)) :
  List.Forall (fun e => P (snd e)) m -> P v ->
  List.Forall (fun e => P (snd e)) (Map_set k v m).
Proof.
  intros Hm Hv. induction Hm as [| [k' v'] m Hx Hl IH]; cbn.
  - now repeat constructor.
  - destruct (String.eqb k' k); constructor; assumption.
Qed.

Lemma Map_get_Forall (P : V -> Prop) (k : string) (v : V) (m : list (string * V)) :
  List.Forall (fun e => P (snd e)) m -> Map_get k m = Some v -> P v.
Proof.
  induction 1 as [| [k' v'] m Hx _ IH]; cbn; [discriminate |].
  destruct (String.eqb k' k); [now intros [= <-] | exact IH].
Qed.
End MapFacts.

Lemma gql_edge_step_total st (edge : LanguageEdge.t) :
  total_of (fst (gql_edge_step st edge)) =
  (total_of (fst st) + LanguageEdge.size edge)%Z.
Proof.
  destruct st as [m seen]. unfold gql_edge_step. cbn [fst].
  rewrite weight_Map_set. cbn.
  destruct (Map_get _ m); cbn; lia.
Qed.

Lemma gql_edge_step_nonneg st (edge : LanguageEdge.t) :
  nonneg_totals (fst st) -> (0 <= LanguageEdge.size edge)%Z ->
  nonneg_totals (fst (gql_edge_step st edge)).
Proof.
  destruct st as [m seen]. unfold gql_edge_step. cbn [fst]. intros Hm Hs.
  apply (Map_set_Forall (fun v => (0 <= LanguageTotal.bytes v)%Z)); [exact Hm |].
  cbn. destruct (Map_get _ m) as [c |] eqn:E; cbn; [| lia].
  pose proof (Map_get_Forall (fun v => (0 <= LanguageTotal.bytes v)%Z) _ _ _ Hm E).
  cbn in *. lia.
Qed.

Lemma gql_edges_total (edges : list LanguageEdge.t) st :
  total_of (fst (fold_left gql_edge_step edges st)) =
  (total_of (fst st) + Zsum (map LanguageEdge.size edges))%Z.
Proof.
  revert st. induction edges as [| e edges IH]; intros st; cbn [fold_left map].
  - change (Zsum []) with 0%Z. lia.
  - rewrite IH, gql_edge_step_total, Zsum_cons. lia.
Qed.

Lemma gql_edges_nonneg (edges : list LanguageEdge.t) st :
  nonneg_totals (fst st) ->
  List.Forall (fun edge => (0 <= LanguageEdge.size edge)%Z) edges ->
  nonneg_totals (fst (fold_left gql_edge_step edges st)).
Proof.
  intros Hst He. revert st Hst.
  induction He as [| e edges He _ IH]; intros st Hst; cbn [fold_left]; [exact Hst |].
  apply IH. now apply gql_edge_step_nonneg.
Qed.

Lemma gql_repos_total (repos : list GraphqlRepository.t) m :
  total_of (fold_left gql_repo_step repos m) =
  (total_of m +
   Zsum (map LanguageEdge.size
           (concat (map GraphqlRepository.languages_edges repos))))%Z.
Proof.
  revert m. induction repos as [| r repos IH]; intros m; cbn [fold_left map concat].
  - change (Zsum []) with 0%Z. lia.
  - rewrite IH. unfold gql_repo_step. rewrite gql_edges_total. cbn [fst].
    rewrite map_app, Zsum_app. lia.
Qed.

Lemma gql_repos_nonneg (repos : list GraphqlRepository.t) m :
  nonneg_totals m ->
  List.Forall
    (fun repo =>
       List.Forall (fun edge => (0 <= LanguageEdge.size edge)%Z)
         (GraphqlRepository.languages_edges repo)) repos ->
  nonneg_totals (fold_left gql_repo_step repos m).
Proof.
  intros Hm Hr. revert m Hm.
  induction Hr as [| r repos Hr _ IH]; intros m Hm; cbn [fold_left]; [exact Hm |].
  apply IH. unfold gql_repo_step. now apply gql_edges_nonneg.
Qed.

Lemma rest_repo_step_total m (repo : RestRepo.t) :
  total_of (rest_repo_step m repo) =
  (total_of m +
   match truthy_string (RestRepo.language repo) with Some _ => 1 | None => 0 end)%Z.
Proof.
  unfold rest_repo_step. destruct (truthy_string _); [| lia].
  rewrite weight_Map_set. cbn. destruct (Map_get _ m); cbn; lia.
Qed.

Lemma rest_repo_step_nonneg m (repo : RestRepo.t) :
  nonneg_totals m -> nonneg_totals (rest_repo_step m repo).
Proof.
  intros Hm. unfold rest_repo_step. destruct (truthy_string _); [| exact Hm].
  apply (Map_set_Forall (fun v => (0 <= LanguageTotal.bytes v)%Z)); [exact Hm |].
  cbn. destruct (Map_get _ m) as [c |] eqn:E; cbn; [| lia].
  pose proof (Map_get_Forall (fun v => (0 <= LanguageTotal.bytes v)%Z) _ _ _ Hm E).
  cbn in *. lia.
Qed.

Lemma rest_repos_total (repos : list RestRepo.t) m :
  total_of (fold_left rest_repo_step repos m) =
  (total_of m + input_total_bytes repos None)%Z.
Proof.
  revert m. induction repos as [| r repos IH]; intros m; cbn [fold_left].
  - cbn. lia.
  - rewrite IH, rest_repo_step_total. unfold input_total_bytes. cbn [List.filter].
    destruct (truthy_string _); cbn [length]; lia.
Qed.

Lemma rest_repos_nonneg (repos : list RestRepo.t) m :
  nonneg_totals m -> nonneg_totals (fold_left rest_repo_step repos m).
Proof.
  revert m. induction repos as [| r repos IH]; intros m Hm; cbn [fold_left];
    [exact Hm |].
  apply IH. now apply rest_repo_step_nonneg.
Qed.

(** The map's bytes add up to what the input holds. *)
Lemma languageTotals_total rest gql :
  total_of (languageTotals rest gql) = input_total_bytes rest gql.
Proof.
  unfold languageTotals, input_total_bytes.
  destruct gql as [[| r repos] |].
  - rewrite rest_repos_total. reflexivity.
  - rewrite gql_repos_total. reflexivity.
  - rewrite rest_repos_total. reflexivity.
Qed.

Lemma languageTotals_nonneg rest gql :
  sizes_nonneg gql -> nonneg_totals (languageTotals rest gql).
Proof.
  unfold languageTotals, sizes_nonneg. intros H.
  destruct gql as [[| r repos] |].
  - apply rest_repos_nonneg. constructor.
  - apply (gql_repos_nonneg (r :: repos) []); [constructor | exact H].
  - apply rest_repos_nonneg. constructor.
Qed.

Lemma StronglySorted_firstn {A : Type} (R : A -> A -> Prop) (n : nat) (l : list A) :
  StronglySorted R l -> StronglySorted R (firstn n l).
Proof.
  intros H. revert n. induction H as [| x l Hs IH Hx]; intros [| n]; cbn;
    try constructor; [apply IH | now apply Forall_take].
Qed.

Lemma StronglySorted_impl {A : Type} (R S : A -> A -> Prop) (l : list A) :
  (forall a b, R a b -> S a b) -> StronglySorted R l -> StronglySorted S l.
Proof.
  intros HRS. induction 1 as [| x l Hs IH Hx]; constructor; [exact IH |].
  eapply List.Forall_impl; [| exact Hx]. intros; now apply HRS.
Qed.

Lemma bytes_cmp (a b : LanguageStat.t) :
  (LanguageStat.bytes b - LanguageStat.bytes a ?= 0)%Z <> Gt <->
  (LanguageStat.bytes b <= LanguageStat.bytes a)%Z.
Proof.
  destruct (Z.compare_spec (LanguageStat.bytes b - LanguageStat.bytes a) 0);
    split; intros; try lia; try congruence.
Qed.

Lemma Zsum_firstn_le (n : nat) (l : list Z) :
  List.Forall (fun x => (0 <= x)%Z) l -> (Zsum (firstn n l) <= Zsum l)%Z.
Proof.
  intros H. rewrite <- (firstn_skipn n l) at 2. rewrite Zsum_app.
  assert (0 <= Zsum (skipn n l))%Z; [| lia].
  apply Zsum_nonneg. rewrite <- (firstn_skipn n l) in H.
  now apply List.Forall_app in H.
Qed.

(** *** Double precision *)

Lemma round_half_even_near (y : Q) :
  Qabs (inject_Z (round_half_even y) - y) <= 1 # 2.
Proof.
  unfold round_half_even.
  pose proof (Qfloor_le y) as Hlo. pose proof (Qlt_floor y) as Hhi.
  rewrite inject_Z_plus in Hhi. change (inject_Z 1) with 1 in Hhi.
  apply Qabs_Qle_condition.
  destruct (Qcompare_spec (y - inject_Z (Qfloor y)) (1 # 2)) as [E | E | E].
  - destruct (Z.even (Qfloor y)); rewrite ?inject_Z_plus;
      change (inject_Z 1) with 1; lra.
  - lra.
  - rewrite inject_Z_plus. change (inject_Z 1) with 1. lra.
Qed.

Lemma pow2_pos (k : Z) : 0 < 2 ^ k.
Proof. apply Qpower_0_lt. reflexivity. Qed.

Lemma ilog2_le (x : Q) : 0 < x -> 2 ^ ilog2 x <= x.
Proof.
  intros Hx. unfold ilog2.
  set (k := (Z.log2 (Qnum x) - Z.log2 (QDen x))%Z).
  destruct (Qle_bool (2 ^ k) x) eqn:E; [now apply Qle_bool_iff |].
  destruct x as [p q]. cbn [Qnum Qden] in k.
  assert (0 < p)%Z as Hp by (unfold Qlt in Hx; cbn in Hx; lia).
  destruct (Z.log2_spec p Hp) as [Hp1 _].
  destruct (Z.log2_spec (Z.pos q) ltac:(lia)) as [_ Hq2].
  set (a := Z.log2 p) in *. set (b := Z.log2 (Z.pos q)) in *.
  assert (0 <= a)%Z as Ha by apply Z.log2_nonneg.
  assert (0 <= b)%Z as Hb by apply Z.log2_nonneg.
  replace (k - 1)%Z with (a - Z.succ b)%Z by (subst k; lia).
  rewrite Qpower_minus by discriminate.
  change (2 ^ a / 2 ^ Z.succ b) with (inject_Z 2 ^ a / inject_Z 2 ^ Z.succ b).
  rewrite <- !Zpower_Qpower by lia.
  rewrite (Qmake_Qdiv p q).
  apply Qle_shift_div_r.
  - change 0 with (inject_Z 0). rewrite <- Zlt_Qlt. lia.
  - assert (inject_Z p / inject_Z (Z.pos q) * inject_Z (2 ^ Z.succ b)
            == inject_Z p * inject_Z (2 ^ Z.succ b) / inject_Z (Z.pos q)) as ->
      by (field; discriminate).
    apply Qle_shift_div_l.
    + change 0 with (inject_Z 0). rewrite <- Zlt_Qlt. lia.
    + rewrite <- !inject_Z_mult, <- Zle_Qle. nia.
Qed.

(** Rounding to binary64 moves a number by at most half a unit in the
    last place: by the fraction [2 ^ -53] of its size, or by half the
    spacing of the subnormal numbers. *)
Lemma binary64_near (x : Q) :
  Qabs (binary64 x - x) <= Qabs x * 2 ^ (-53) + 2 ^ (-1075).
Proof.
  pose proof (pow2_pos (-53)) as P53. pose proof (pow2_pos (-1075)) as P1075.
  pose proof (Qabs_nonneg x) as Hx0.
  unfold binary64. destruct (Qeq_bool x 0) eqn:E0.
  - apply Qeq_bool_iff in E0.
    assert (Qabs (0 - x) == 0) as -> by (rewrite E0; reflexivity).
    assert (0 <= Qabs x * 2 ^ (-53)) by (apply Qmult_le_0_compat; lra). lra.
  - assert (~ x == 0) as Hne by (intros C; apply Qeq_bool_iff in C; congruence).
    assert (0 < Qabs x) as Hpos.
    { destruct (Qlt_le_dec 0 (Qabs x)) as [| C]; [assumption |].
      exfalso. apply Hne. apply Qabs_Qle_condition in C. lra. }
    set (e := Z.max (ilog2 (Qabs x) - 52) (-1074)).
    pose proof (pow2_pos e) as Pe.
    pose proof (round_half_even_near (x / 2 ^ e)) as Hr.
    set (m := inject_Z (round_half_even (x / 2 ^ e))) in *.
    assert (m * 2 ^ e - x == (m - x / 2 ^ e) * 2 ^ e) as -> by (field; lra).
    rewrite Qabs_Qmult, (Qabs_pos (2 ^ e)) by lra.
    assert (Qabs (m - x / 2 ^ e) * 2 ^ e <= (1 # 2) * 2 ^ e) as H1
      by (apply Qmult_le_compat_r; lra).
    assert ((1 # 2) * 2 ^ e <= Qabs x * 2 ^ (-53) + 2 ^ (-1075)) as H2; [| lra].
    assert (0 <= Qabs x * 2 ^ (-53)) by (apply Qmult_le_0_compat; lra).
    destruct (Z.max_spec (ilog2 (Qabs x) - 52) (-1074)) as [[_ Em] | [_ Em]];
      fold e in Em; rewrite Em.
    + assert ((1 # 2) * 2 ^ (-1074) == 2 ^ (-1075)) as -> by reflexivity. lra.
    + pose proof (ilog2_le (Qabs x) Hpos) as Hl.
      replace (ilog2 (Qabs x) - 52)%Z with (ilog2 (Qabs x) + -52)%Z by lia.
      rewrite Qpower_plus by discriminate.
      assert ((1 # 2) * (2 ^ ilog2 (Qabs x) * 2 ^ (-52))
              == 2 ^ ilog2 (Qabs x) * 2 ^ (-53)) as ->.
      { assert ((1 # 2) * 2 ^ (-52) == 2 ^ (-53)) as <- by reflexivity. ring. }
      assert (2 ^ ilog2 (Qabs x) * 2 ^ (-53) <= Qabs x * 2 ^ (-53))
        by (apply Qmult_le_compat_r; lra).
      lra.
Qed.

(** A share of a total, computed in double precision, is within [10 ^ -13]
    of the exact share. *)
Lemma share_near (b t : Z) :
  (0 <= b <= t)%Z -> (0 < t)%Z ->
  Qabs (binary64 (binary64 (inject_Z b / inject_Z t) * 100)
        - inject_Z b / inject_Z t * 100) <= 1 # 10000000000000.
Proof.
  intros Hb Ht.
  assert (0 < inject_Z t) as HtQ
    by (change 0 with (inject_Z 0); rewrite <- Zlt_Qlt; lia).
  set (x := inject_Z b / inject_Z t).
  assert (0 <= x) as Hx0.
  { apply Qle_shift_div_l; [exact HtQ |]. rewrite Qmult_0_l.
    change 0 with (inject_Z 0). rewrite <- Zle_Qle. lia. }
  assert (x <= 1) as Hx1.
  { apply Qle_shift_div_r; [exact HtQ |]. rewrite Qmult_1_l.
    rewrite <- Zle_Qle. lia. }
  assert (2 ^ (-53) <= 1 # 9000000000000000) as Hd
    by (apply Qle_bool_iff; vm_compute; reflexivity).
  assert (2 ^ (-1075) <= 1 # 100000000000000000000) as Hh
    by (apply Qle_bool_iff; vm_compute; reflexivity).
  pose proof (pow2_pos (-53)) as Pd. pose proof (pow2_pos (-1075)) as Ph.
  pose proof (binary64_near x) as H1.
  pose proof (binary64_near (binary64 x * 100)) as H2.
  set (q := binary64 x) in *. set (v := binary64 (q * 100)) in *.
  set (d := 2 ^ (-53)) in *. set (h := 2 ^ (-1075)) in *.
  rewrite (Qabs_pos x Hx0) in H1.
  assert (x * d <= 1 * d) as Hxd by (apply Qmult_le_compat_r; lra).
  apply Qabs_Qle_condition in H1.
  assert (Qabs (q * 100) <= 200) as Hq by (apply Qabs_Qle_condition; lra).
  assert (Qabs (q * 100) * d <= 200 * d) as Hqd by (apply Qmult_le_compat_r; lra).
  apply Qabs_Qle_condition in H2. apply Qabs_Qle_condition. lra.
Qed.

(** A returned percentage is within half a hundredth, and the error of
    the double-precision share, of the exact share. *)
Lemma language_percentage_near (T b : Z) :
  (0 <= b <= T)%Z -> (0 < T)%Z ->
  Qabs (language_percentage T b - inject_Z b / inject_Z T * 100)
    <= 0.005 + (1 # 10000000000000).
Proof.
  intros Hb HT. unfold language_percentage.
  destruct (Z.eqb_spec T 0) as [| _]; [lia |].
  pose proof (share_near b T Hb HT) as Hs.
  set (v := binary64 (binary64 (inject_Z b / inject_Z T) * 100)) in *.
  pose proof (toFixed2_near v) as Hn.
  apply Qabs_Qle_condition in Hs. apply Qabs_Qle_condition in Hn.
  apply Qabs_Qle_condition. lra.
Qed.

Lemma language_percentage_hundredths (T b : Z) :
  exists k : Z, language_percentage T b == k # 100.
Proof.
  unfold language_percentage. destruct (T =? 0)%Z; [now exists 0%Z |].
  destruct (toFixed2_hundredths
              (binary64 (binary64 (inject_Z b / inject_Z T) * 100))) as [k ->].
  now exists k.
Qed.

Lemma Zsum_In_le (x : Z) (l : list Z) :
  List.Forall (fun y => (0 <= y)%Z) l -> In x l -> (x <= Zsum l)%Z.
Proof.
  induction 1 as [| y l Hy Hl IH]; [contradiction |]. rewrite Zsum_cons.
  pose proof (Zsum_nonneg l Hl).
  intros [-> | Hin]; [lia |]. specialize (IH Hin). lia.
Qed.

(** In a sorted list nothing that comes after the first [n] entries is
    ranked before any of them. *)
Lemma StronglySorted_skipn {A : Type} (R : A -> A -> Prop) (n : nat) (l : list A) :
  StronglySorted R l ->
  List.Forall (fun o => List.Forall (fun s => R s o) (firstn n l)) (skipn n l).
Proof.
  intros H. revert n. induction H as [| x l Hs IH Hx]; intros [| n]; cbn.
  - constructor.
  - constructor.
  - apply List.Forall_forall. intros o _. constructor.
  - specialize (IH n). rewrite List.Forall_forall in IH, Hx.
    apply List.Forall_forall. intros o Ho. constructor.
    + apply Hx. revert Ho. clear. revert n.
      induction l as [| y l IHl]; intros [| n]; cbn; try tauto.
      intros H. right. exact (IHl n H).
    + now apply IH.
Qed.

(** Each rounded share exceeds its exact share by at most half a
    hundredth and the error of the double-precision share, so the rounded
    shares of a list add up to at most the list's exact share plus that
    much per entry. *)
Lemma Qsum_percentage_le (T : Z) (r : list LanguageStat.t) :
  (0 < T)%Z ->
  List.Forall
    (fun e =>
       LanguageStat.percentage e = language_percentage T (LanguageStat.bytes e) /\
       (0 <= LanguageStat.bytes e <= T)%Z)
    r ->
  Qsum (map LanguageStat.percentage r) <=
  inject_Z (Zsum (map LanguageStat.bytes r)) * (100 / inject_Z T)
  + (0.005 + (1 # 10000000000000)) * inject_Z (Z.of_nat (length r)).
Proof.
  intros HT. induction 1 as [| e r [He Hb] _ IH].
  - cbn [map length]. change (Qsum []) with 0. change (Zsum []) with 0%Z.
    change (Z.of_nat 0) with 0%Z. change (inject_Z 0) with 0.
    set (c := 100 / inject_Z T). lra.
  - cbn [map length].
    change (Qsum (LanguageStat.percentage e :: map LanguageStat.percentage r))
      with (LanguageStat.percentage e + Qsum (map LanguageStat.percentage r)).
    rewrite Zsum_cons, Nat2Z.inj_succ.
    unfold Z.succ. rewrite !inject_Z_plus. inject_consts.
    rewrite He.
    pose proof (language_percentage_near T (LanguageStat.bytes e) Hb HT) as Hn.
    apply Qabs_Qle_condition in Hn.
    set (p := language_percentage T (LanguageStat.bytes e)) in *.
    assert (inject_Z (LanguageStat.bytes e) / inject_Z T * 100
            == inject_Z (LanguageStat.bytes e) * (100 / inject_Z T)) as Hx
      by (unfold Qdiv; ring).
    rewrite Hx in Hn.
    set (c := 100 / inject_Z T) in *.
    set (s := Qsum (map LanguageStat.percentage r)) in *.
    lra.
Qed.

(** Percentages are hundredths, and so is their sum. *)
Lemma Qsum_hundredths (l : list Q) :
  List.Forall (fun p => exists k : Z, p == k # 100) l ->
  exists N : Z, Qsum l == N # 100.
Proof.
  induction 1 as [| p l [k Hk] _ [N HN]]; [now exists 0%Z |].
  exists (k + N)%Z. change (Qsum (p :: l)) with (p + Qsum l).
  rewrite Hk, HN, (Qmake_100 k), (Qmake_100 N), (Qmake_100 (k + N)), inject_Z_plus.
  ring.
Qed.

(** C3, as amended: the returned languages are sorted by byte volume,
    largest first, and are the first eight of all aggregated languages in
    that order: their number is the smaller of eight and the number of
    languages, and no language left out has more bytes than a returned
    one.  Each percentage is 0 when the input holds no bytes at all and
    otherwise the two-decimal rounding of the double-precision value of
    bytes divided by total bytes, times 100; for non-negative byte counts
    it lies within 0.005 (and the [10 ^ -13] of the double-precision
    error) of the exact share, and the returned percentages add up to at
    most 100 plus half a hundredth per returned entry, hence to at most
    100.04. *)
Theorem aggregateLanguageStats_invariant (restRepos : list RestRepo.t)
    (gqlRepos : option (list GraphqlRepository.t)) :
  let languages := aggregateLanguageStats restRepos gqlRepos in
  let aggregated := languageTotals restRepos gqlRepos in
  let total := input_total_bytes restRepos gqlRepos in
  StronglySorted
    (fun a b => (LanguageStat.bytes b <= LanguageStat.bytes a)%Z) languages /\
  length languages = Nat.min 8 (length aggregated) /\
  (exists left_out,
     Permutation
       (map (fun s => (LanguageStat.name s, LanguageStat.bytes s))
          (languages ++ left_out))
       (map (fun e => (fst e, LanguageTotal.bytes (snd e))) aggregated) /\
     List.Forall
       (fun o =>
          List.Forall
            (fun s => (LanguageStat.bytes o <= LanguageStat.bytes s)%Z) languages)
       left_out) /\
  List.Forall
    (fun e =>
       (total = 0%Z -> LanguageStat.percentage e = 0) /\
       (total <> 0%Z ->
        LanguageStat.percentage e =
        toFixed2
          (binary64
             (binary64 (inject_Z (LanguageStat.bytes e) / inject_Z total) * 100))))
    languages /\
  (sizes_nonneg gqlRepos ->
   List.Forall
     (fun e =>
        total <> 0%Z ->
        Qabs (LanguageStat.percentage e
              - inject_Z (LanguageStat.bytes e) / inject_Z total * 100)
          <= 0.005 + (1 # 10000000000000))
     languages /\
   Qsum (map LanguageStat.percentage languages)
     <= 100 + 0.005 * inject_Z (Z.of_nat (length languages)) /\
   Qsum (map LanguageStat.percentage languages) <= 100.04).
Proof.
  intros languages aggregated total.
  set (cmp := fun a b : LanguageStat.t =>
                (LanguageStat.bytes b - LanguageStat.bytes a ?= 0)%Z).
  set (lt := languageTotals restRepos gqlRepos) in *.
  set (mk := fun '(name, entry) =>
     {| LanguageStat.name := name;
        LanguageStat.bytes := LanguageTotal.bytes entry;
        LanguageStat.repoCount := LanguageTotal.repoCount entry;
        LanguageStat.color := LanguageTotal.color entry;
        LanguageStat.percentage :=
          language_percentage (total_of lt) (LanguageTotal.bytes entry) |}).
  set (sorted := Array_sort cmp (map mk lt)).
  assert (languages = firstn 8 sorted) as Hl by reflexivity.
  assert (total_of lt = total) as HT by apply languageTotals_total.
  assert (Permutation (map mk lt) sorted) as Hp by apply Array_sort_Permutation.
  assert (map LanguageStat.bytes (map mk lt)
          = map (fun e => LanguageTotal.bytes (snd e)) lt) as Hb.
  { rewrite map_map. apply map_ext. now intros [n e]. }
  assert (List.Forall
            (fun e => LanguageStat.percentage e
                      = language_percentage total (LanguageStat.bytes e))
            languages) as Hpct.
  { rewrite Hl. apply Forall_take.
    eapply Permutation_Forall; [exact Hp |].
    apply List.Forall_forall. intros e He. apply in_map_iff in He.
    destruct He as ([n v] & <- & _). cbn. now rewrite HT. }
  assert (StronglySorted
            (fun a b => (LanguageStat.bytes b <= LanguageStat.bytes a)%Z) sorted)
    as Hsorted.
  { apply StronglySorted_impl with (R := fun a b => cmp a b <> Gt).
    - intros a b. apply bytes_cmp.
    - apply Array_sort_sorted.
      + intros a b c. unfold cmp. rewrite !bytes_cmp. lia.
      + intros a b. unfold cmp. rewrite bytes_cmp.
        destruct (Z.compare_spec (LanguageStat.bytes b - LanguageStat.bytes a) 0);
          intros; try congruence; lia. }
  split; [rewrite Hl; now apply StronglySorted_firstn |].
  assert (length languages = Nat.min 8 (length lt)) as Hlen.
  { rewrite Hl, length_firstn. unfold sorted.
    now rewrite Array_sort_length, length_map. }
  split; [exact Hlen |].
  split.
  { exists (skipn 8 sorted). split.
    - rewrite Hl, firstn_skipn.
      etransitivity; [apply Permutation_map; symmetry; exact Hp |].
      rewrite map_map. erewrite map_ext; [reflexivity |]. now intros [n e].
    - rewrite Hl. now apply StronglySorted_skipn. }
  split.
  { eapply List.Forall_impl; [| exact Hpct]. cbn. intros e ->.
    unfold language_percentage.
    destruct (Z.eqb_spec total 0); split; intros; congruence. }
  intros Hnn.
  pose proof (languageTotals_nonneg restRepos gqlRepos Hnn) as Hpos.
  fold lt in Hpos.
  assert (List.Forall (fun x => (0 <= x)%Z) (map LanguageStat.bytes (map mk lt)))
    as Hpos'.
  { rewrite Hb. apply List.Forall_forall. intros x Hx.
    apply in_map_iff in Hx. destruct Hx as (e & <- & He).
    rewrite List.Forall_forall in Hpos. now apply Hpos. }
  assert (Zsum (map LanguageStat.bytes (map mk lt)) = total) as Htot
    by (rewrite Hb; exact HT).
  assert (0 <= total)%Z as Htp0 by (rewrite <- Htot; now apply Zsum_nonneg).
  assert (List.Forall
            (fun e => (0 <= LanguageStat.bytes e <= total)%Z) languages) as Hrange.
  { rewrite Hl. apply Forall_take.
    eapply Permutation_Forall; [exact Hp |].
    apply List.Forall_forall. intros e He.
    assert (In (LanguageStat.bytes e) (map LanguageStat.bytes (map mk lt))) as Hin
      by now apply in_map.
    split.
    - rewrite List.Forall_forall in Hpos'. now apply Hpos'.
    - rewrite <- Htot. now apply Zsum_In_le. }
  split.
  { rewrite List.Forall_forall in Hpct, Hrange.
    apply List.Forall_forall. intros e He Hne. rewrite (Hpct e He).
    apply language_percentage_near; [now apply Hrange | lia]. }
  assert (Z.of_nat (length languages) <= 8)%Z as Hlen8 by lia.
  assert (Qsum (map LanguageStat.percentage languages)
            <= 100 + 0.005 * inject_Z (Z.of_nat (length languages))) as Hsum.
  { destruct (Z.eq_dec total 0%Z) as [E0 | Hne].
    - assert (Qsum (map LanguageStat.percentage languages) == 0) as ->.
      { clear Hl Hlen Hlen8 Hrange.
        induction Hpct as [| e r He _ IH]; [reflexivity |].
        cbn. fold Qsum. rewrite He, IH.
        unfold language_percentage. rewrite E0. reflexivity. }
      assert (0 <= inject_Z (Z.of_nat (length languages))) as H0
        by (change 0 with (inject_Z 0); rewrite <- Zle_Qle; lia).
      lra.
    - assert (0 < total)%Z as Htp by lia.
      assert (Zsum (map LanguageStat.bytes languages) <= total)%Z as Hle.
      { rewrite Hl, <- firstn_map.
        etransitivity; [apply Zsum_firstn_le |].
        - eapply Permutation_Forall; [apply Permutation_map, Hp | exact Hpos'].
        - rewrite <- (Zsum_Permutation _ _ (Permutation_map _ Hp)). lia. }
      assert (List.Forall
                (fun e =>
                   LanguageStat.percentage e
                   = language_percentage total (LanguageStat.bytes e) /\
                   (0 <= LanguageStat.bytes e <= total)%Z) languages) as Hboth.
      { rewrite List.Forall_forall in Hpct, Hrange.
        apply List.Forall_forall. intros e He. split; auto. }
      pose proof (Qsum_percentage_le total languages Htp Hboth) as Hq.
      assert (inject_Z (Zsum (map LanguageStat.bytes languages))
                * (100 / inject_Z total) <= 100) as Hfrac.
      { assert (0 < inject_Z total) as HtQ
          by (change 0 with (inject_Z 0); rewrite <- Zlt_Qlt; lia).
        rewrite Zle_Qle in Hle.
        assert (inject_Z (Zsum (map LanguageStat.bytes languages))
                  * (100 / inject_Z total)
                == inject_Z (Zsum (map LanguageStat.bytes languages)) * 100
                   / inject_Z total) as -> by (unfold Qdiv; ring).
        apply Qle_shift_div_r; [exact HtQ | lra]. }
      destruct (Qsum_hundredths (map LanguageStat.percentage languages)) as [N HN].
      { rewrite List.Forall_forall in Hpct.
        apply List.Forall_forall. intros p Hp'. apply in_map_iff in Hp'.
        destruct Hp' as (e & <- & He). rewrite (Hpct e He).
        apply language_percentage_hundredths. }
      rewrite HN in Hq |- *. rewrite (Qmake_100 N) in Hq |- *.
      set (L := Z.of_nat (length languages)) in *.
      assert (0 <= L)%Z as HL0 by (subst L; lia).
      assert (20000000000000 * N
              <= 200000000000000000 + 10000000000200 * L)%Z as HZ.
      { apply inject_Z_le_inv.
        rewrite inject_Z_plus, !inject_Z_mult. inject_consts. lra. }
      assert (2 * N <= 20000 + L)%Z as HZ' by lia.
      rewrite Zle_Qle in HZ'.
      rewrite inject_Z_plus, inject_Z_mult in HZ'. inject_consts. lra. }
  split; [exact Hsum |].
  assert (inject_Z (Z.of_nat (length languages)) <= 8) as H8
    by (change 8 with (inject_Z 8); rewrite <- Zle_Qle; lia).
  lra.
Qed.

Lemma aggregateLanguageStats_invariant_witness :
  Qsum (map LanguageStat.percentage (aggregateLanguageStats six_languages None))
    <= 100.04 /\
  map LanguageStat.percentage (aggregateLanguageStats [] (Some [two_sizes]))
    = [85.63; 14.37] /\
  List.Forall
    (fun e =>
       Qabs (LanguageStat.percentage e - inject_Z (LanguageStat.bytes e) / 160 * 100)
         <= 0.005 + (1 # 10000000000000))
    (aggregateLanguageStats [] (Some [two_sizes])).
Proof.
  pose proof (aggregateLanguageStats_invariant six_languages None)
    as (_ & _ & _ & _ & H).
  split; [exact (proj2 (proj2 (H I))) |].
  split; [vm_compute; reflexivity |].
  pose proof (aggregateLanguageStats_invariant [] (Some [two_sizes]))
    as (_ & _ & _ & _ & H2).
  assert (sizes_nonneg (Some [two_sizes])) as Hnn
    by (repeat constructor; cbn; lia).
  destruct (H2 Hnn) as (Hnear & _).
  eapply List.Forall_impl; [| exact Hnear].
  intros e He. apply He. discriminate.
Defined.

(** C3, as stated, fails on the sum: six repositories in six different
    languages give six shares of 16.67, which add up to 100.02. *)
Lemma aggregateLanguageStats_sum_counterexample :
  let languages := aggregateLanguageStats six_languages None in
  sizes_nonneg None /\
  map LanguageStat.percentage languages
    = [16.67; 16.67; 16.67; 16.67; 16.67; 16.67] /\
  ~ Qsum (map LanguageStat.percentage languages) <= 100.
Proof.
  intros languages. split; [exact I |]. split; [reflexivity |].
  vm_compute. intros H. apply H. reflexivity.
Qed.

(** ** The short-lived cache *)

Section TTLCacheFacts.
Context {V : Type}.
Implicit Types (c : TTLCache.t V) (e : TTLCache.CacheEntry V) (key : string).

Lemma get_absent now key c :
  TTLCache.store c !! key = None -> TTLCache.get now key c = (None, c).
Proof. unfold TTLCache.get. now intros ->. Qed.

Lemma get_live now key c e :
  TTLCache.store c !! key = Some e -> (now <= TTLCache.expiresAt e)%Z ->
  TTLCache.get now key c = (Some (TTLCache.value e), c).
Proof.
  unfold TTLCache.get. intros -> H.
  destruct (Z.ltb_spec (TTLCache.expiresAt e) now); [lia | reflexivity].
Qed.

Lemma get_expired now key c e :
  TTLCache.store c !! key = Some e -> (TTLCache.expiresAt e < now)%Z ->
  TTLCache.get now key c
    = (None, TTLCache.with_store c (delete key (TTLCache.store c))).
Proof.
  unfold TTLCache.get. intros -> H.
  destruct (Z.ltb_spec (TTLCache.expiresAt e) now); [reflexivity | lia].
Qed.

(** A lookup never answers with an entry that has expired, and it leaves
    no expired entry behind under the key it was asked for. *)
Lemma get_cases now key c :
  (exists e, TTLCache.store c !! key = Some e /\
             (now <= TTLCache.expiresAt e)%Z /\
             TTLCache.get now key c = (Some (TTLCache.value e), c)) \/
  (fst (TTLCache.get now key c) = None /\
   TTLCache.store (snd (TTLCache.get now key c)) !! key = None /\
   TTLCache.invocations (snd (TTLCache.get now key c)) = TTLCache.invocations c /\
   TTLCache.defaultTtlMs (snd (TTLCache.get now key c)) = TTLCache.defaultTtlMs c).
Proof.
  destruct (TTLCache.store c !! key) as [e |] eqn:E.
  - destruct (Z.lt_ge_cases (TTLCache.expiresAt e) now) as [H | H].
    + right. rewrite (get_expired _ _ _ _ E H). cbn.
      repeat split. apply lookup_delete_eq.
    + left. exists e. repeat split; [assumption |]. now apply get_live.
  - right. rewrite (get_absent _ _ _ E). now repeat split.
Qed.

(** What one [remember] does: either it finds a live entry and answers
    with it, or it invokes the factory once and stores the answer with a
    fresh expiry. *)
Lemma remember_cases now later key factory ttlMs c :
  let r := TTLCache.remember now later key factory ttlMs c in
  let ttl := match ttlMs with Some ttl => ttl | None => TTLCache.defaultTtlMs c end in
  (exists e, TTLCache.store c !! key = Some e /\
             (now <= TTLCache.expiresAt e)%Z /\
             r = (TTLCache.value e, c)) \/
  ((forall e, TTLCache.store c !! key = Some e -> (TTLCache.expiresAt e < now)%Z) /\
   fst r = factory (TTLCache.invocations c) /\
   TTLCache.invocations (snd r) = S (TTLCache.invocations c) /\
   TTLCache.defaultTtlMs (snd r) = TTLCache.defaultTtlMs c /\
   TTLCache.store (snd r) !! key
     = Some {| TTLCache.value := fst r; TTLCache.expiresAt := (later + ttl)%Z |}).
Proof.
  intros r ttl. subst r. unfold TTLCache.remember.
  destruct (TTLCache.store c !! key) as [e |] eqn:E.
  - destruct (Z.lt_ge_cases (TTLCache.expiresAt e) now) as [H | H].
    + right. rewrite (get_expired _ _ _ _ E H). cbn.
      rewrite lookup_insert_eq. repeat split. now intros e' [= <-].
    + left. exists e. rewrite (get_live _ _ _ _ E H). now repeat split.
  - right. rewrite (get_absent _ _ _ E). cbn.
    rewrite lookup_insert_eq. repeat split. discriminate.
Qed.

(** C4: after one [remember] the key holds an entry with the value just
    returned; a second [remember] made no later than that entry's expiry
    returns the same value and does not invoke the factory, so the two
    calls together invoke it at most once; when the first call had to
    invoke the factory, the expiry is the reading taken at its [set] plus
    the TTL.  A second [remember] made after the expiry invokes the
    factory again and stores the new answer.  A lookup of an expired
    entry answers absent and removes the entry. *)
Theorem remember_twice (c0 : TTLCache.t V) (key : string) (factory : nat -> V)
    (ttlMs : option Z) (now1 later1 now2 later2 : Z) :
  let ttl := match ttlMs with Some ttl => ttl | None => TTLCache.defaultTtlMs c0 end in
  let r1 := TTLCache.remember now1 later1 key factory ttlMs c0 in
  let r2 := TTLCache.remember now2 later2 key factory ttlMs (snd r1) in
  let calls c := TTLCache.invocations c in
  (exists e, TTLCache.store (snd r1) !! key = Some e /\
     TTLCache.value e = fst r1 /\ (calls (snd r1) <= S (calls c0))%nat /\
     (calls (snd r1) = S (calls c0) -> TTLCache.expiresAt e = (later1 + ttl)%Z) /\
     ((now2 <= TTLCache.expiresAt e)%Z ->
        fst r2 = fst r1 /\ calls (snd r2) = calls (snd r1) /\
        (calls (snd r2) <= S (calls c0))%nat) /\
     ((TTLCache.expiresAt e < now2)%Z ->
        fst r2 = factory (calls (snd r1)) /\ calls (snd r2) = S (calls (snd r1)) /\
        TTLCache.store (snd r2) !! key
          = Some {| TTLCache.value := fst r2;
                    TTLCache.expiresAt := (later2 + ttl)%Z |})) /\
  (forall (c : TTLCache.t V) e now,
     TTLCache.store c !! key = Some e -> (TTLCache.expiresAt e < now)%Z ->
     fst (TTLCache.get now key c) = None /\
     TTLCache.store (snd (TTLCache.get now key c)) !! key = None).
Proof.
  intros ttl r1 r2 calls. split.
  - pose proof (remember_cases now1 later1 key factory ttlMs c0) as H1.
    pose proof (remember_cases now2 later2 key factory ttlMs (snd r1)) as H2.
    cbv zeta in H1, H2.
    change (TTLCache.remember now2 later2 key factory ttlMs (snd r1)) with r2 in H2.
    change (TTLCache.remember now1 later1 key factory ttlMs c0) with r1 in H1.
    fold ttl in H1. unfold calls. clearbody r2 r1.
    assert (exists e, TTLCache.store (snd r1) !! key = Some e /\
              TTLCache.value e = fst r1 /\
              (TTLCache.invocations (snd r1) <= S (TTLCache.invocations c0))%nat /\
              (TTLCache.invocations (snd r1) = S (TTLCache.invocations c0) ->
               TTLCache.expiresAt e = (later1 + ttl)%Z) /\
              TTLCache.defaultTtlMs (snd r1) = TTLCache.defaultTtlMs c0)
      as (e & He & Hv & Hc & Hx & Hd).
    { destruct H1 as [(e & He & Hlive & ->) | (_ & Hv & Hc & Hd & Hs)].
      - exists e. cbn. repeat split; try assumption; lia.
      - eexists. split; [exact Hs |]. cbn. repeat split; try assumption; lia. }
    clear H1. exists e. rewrite Hd in H2. fold ttl in H2.
    split; [exact He |]. split; [exact Hv |]. split; [exact Hc |].
    split; [exact Hx |].
    destruct H2 as [(e' & He' & Hlive & ->) | (Hexp & Hv2 & Hc2 & _ & Hs2)].
    + assert (e' = e) as -> by congruence. cbn. split; intros; [| lia].
      repeat split; [congruence | exact Hc].
    + specialize (Hexp e He). split; intros; [lia |]. now repeat split.
  - intros c e now He Hexp. rewrite (get_expired _ _ _ _ He Hexp). cbn.
    split; [reflexivity | apply lookup_delete_eq].
Qed.
End TTLCacheFacts.

Lemma remember_twice_witness :
  let r1 := TTLCache.remember 1000 1200 "octocat" (fun n => n) None fresh_cache in
  let r2 := TTLCache.remember 5000 5100 "octocat" (fun n => n) None (snd r1) in
  let r3 := TTLCache.remember 400000 400100 "octocat" (fun n => n) None (snd r1) in
  (fst r2 = fst r1 /\ TTLCache.invocations (snd r2) = 1%nat) /\
  (fst r3 = 1%nat /\ TTLCache.invocations (snd r3) = 2%nat).
Proof.
  intros r1 r2 r3.
  destruct (remember_twice fresh_cache "octocat" (fun n => n) None 1000 1200 5000 5100)
    as [(e & He & _ & _ & Hx & Hin & _) _].
  destruct (remember_twice fresh_cache "octocat" (fun n => n) None
              1000 1200 400000 400100)
    as [(e' & He' & _ & _ & Hx' & _ & Hout) _].
  specialize (Hx eq_refl). specialize (Hx' eq_refl). cbn in Hx, Hx'.
  split.
  - destruct Hin as (Hv & Hc & _); [lia |]. split; [exact Hv | exact Hc].
  - destruct Hout as (Hv & Hc & _); [lia |]. split; [exact Hv | exact Hc].
Defined.

(** ** Pagination and totals *)

Lemma fold_left_totals (repos : list RestRepo.t) (acc : Totals.t) :
  fold_left
    (fun acc repo =>
       {| Totals.stars := Totals.stars acc + RestRepo.stargazers_count repo;
          Totals.forks := Totals.forks acc + RestRepo.forks_count repo;
          Totals.watchers := Totals.watchers acc + RestRepo.watchers_count repo;
          Totals.issues := Totals.issues acc + RestRepo.open_issues_count repo |}%Z)
    repos acc
  = {| Totals.stars :=
         Totals.stars acc + sum_list (map RestRepo.stargazers_count repos);
       Totals.forks := Totals.forks acc + sum_list (map RestRepo.forks_count repos);
       Totals.watchers :=
         Totals.watchers acc + sum_list (map RestRepo.watchers_count repos);
       Totals.issues :=
         Totals.issues acc + sum_list (map RestRepo.open_issues_count repos) |}%Z.
Proof.
  revert acc. induction repos as [| r repos IH]; intros [s f w i]; cbn.
  - f_equal; lia.
  - rewrite IH. cbn. f_equal; lia.
Qed.

Lemma computeTotals_sums (repos : list RestRepo.t) :
  computeTotals repos
  = {| Totals.stars := sum_list (map RestRepo.stargazers_count repos);
       Totals.forks := sum_list (map RestRepo.forks_count repos);
       Totals.watchers := sum_list (map RestRepo.watchers_count repos);
       Totals.issues := sum_list (map RestRepo.open_issues_count repos) |}.
Proof. unfold computeTotals. rewrite fold_left_totals. reflexivity. Qed.

(** One turn of the loop: it throws on a failed response, returns when the
    page does not ask for more, and otherwise goes on to the next page. *)
Lemma fetch_pages_step (fuel : nat) (upstream : string -> Z -> PageResponse.t)
    (login : string) (page : Z) (repositories : list RestRepo.t) (requested : list Z) :
  let response := upstream login page in
  let all := repositories ++ PageResponse.batch response in
  (PageResponse.ok response = false /\
   exists e, fetch_pages (S fuel) upstream login page repositories requested
             = Some (Thrown e, requested ++ [page])) \/
  (PageResponse.ok response = true /\ ~ asks_for_more upstream login page /\
   fetch_pages (S fuel) upstream login page repositories requested
   = Some (Returned all, requested ++ [page])) \/
  (PageResponse.ok response = true /\ asks_for_more upstream login page /\
   fetch_pages (S fuel) upstream login page repositories requested
   = fetch_pages fuel upstream login (page + 1)%Z all (requested ++ [page])).
Proof.
  intros response all. cbn [fetch_pages]. fold response.
  destruct (PageResponse.ok response) eqn:Eok; cbn [negb].
  2: { left. split; [reflexivity |]. eexists. reflexivity. }
  right. unfold asks_for_more. fold response.
  destruct (PageResponse.link response) as [linkHeader |] eqn:El.
  - destruct (includes rel_next linkHeader) eqn:Ei; cbn [negb orb].
    + destruct (Nat.ltb_spec (length (PageResponse.batch response)) perPage);
        cbn [orb].
      * left. repeat split. intros (_ & H1 & _). lia.
      * destruct (Z.leb_spec 3 page).
        -- left. repeat split. intros (_ & _ & H1). lia.
        -- right. repeat split; eauto.
    + left. repeat split. intros ((l & [= <-] & H1) & _). congruence.
  - left. repeat split. intros ((l & H1 & _) & _). discriminate.
Qed.

Ltac page_cases H :=
  cbn in H;
  repeat match goal with
         | H : _ \/ _ |- _ => destruct H
         | H : False |- _ => destruct H
         end;
  subst; try lia.

Ltac pages_upto k := exists k; split; [lia | reflexivity].

Ltac only_after_full_page :=
  let p := fresh "p" in
  let Hp := fresh "Hp" in
  let Hq := fresh "Hq" in
  intros p Hp Hq; page_cases Hp; page_cases Hq; assumption.

Ltac finish_thrown k :=
  split; [pages_upto k | split; [only_after_full_page | discriminate]].

Ltac finish_returned k :=
  split; [pages_upto k |];
  split; [only_after_full_page |];
  let repos := fresh "repos" in
  let Hr := fresh "Hr" in
  intros repos Hr; injection Hr as <-;
  split; [cbn; now rewrite ?app_nil_r, <- ?app_assoc |];
  split;
  [ let p := fresh "p" in
    let Hp := fresh "Hp" in
    let Hq := fresh "Hq" in
    intros p Hp Hq; page_cases Hp; try assumption; exfalso; apply Hq; cbn; tauto
  |];
  split;
  [ let Hcap := fresh "Hcap" in
    intros Hcap; rewrite ?length_app; cbn [app length];
    pose proof (Hcap 1%Z); pose proof (Hcap 2%Z); pose proof (Hcap 3%Z);
    unfold perPage in *; lia
  | apply computeTotals_sums ].

(** C5: [fetchUserRepositories] always terminates, after requesting pages
    1 up to some [k] of at most 3; a page is followed by a request for the
    next one only if it was full, carried a continuation link and was not
    the third; when the call returns, the result is the batches of the
    requested pages in order and the last requested page did not ask for
    more; if no page holds more than the [per_page] items asked for, the
    result has at most 300 repositories; and [computeTotals] of the result
    is the sum of the star, fork, watcher and open-issue counts over
    exactly those repositories. *)
Theorem fetchUserRepositories_capped_totals
    (upstream : string -> Z -> PageResponse.t) (login : string) :
  exists outcome requested,
    fetchUserRepositories upstream login = Some (outcome, requested) /\
    (exists k, (1 <= k <= 3)%nat /\ requested = map Z.of_nat (seq 1 k)) /\
    (forall page, In page requested -> In (page + 1)%Z requested ->
                  asks_for_more upstream login page) /\
    (forall repos, outcome = Returned repos ->
       repos
       = concat (map (fun page => PageResponse.batch (upstream login page)) requested) /\
       (forall page, In page requested -> ~ In (page + 1)%Z requested ->
                     ~ asks_for_more upstream login page) /\
       ((forall page, (length (PageResponse.batch (upstream login page)) <= perPage)%nat)
        -> (length repos <= 300)%nat) /\
       computeTotals repos
       = {| Totals.stars := sum_list (map RestRepo.stargazers_count repos);
            Totals.forks := sum_list (map RestRepo.forks_count repos);
            Totals.watchers := sum_list (map RestRepo.watchers_count repos);
            Totals.issues := sum_list (map RestRepo.open_issues_count repos) |}).
Proof.
  unfold fetchUserRepositories.
  assert (~ asks_for_more upstream login 3) as H3 by (intros (_ & _ & H); lia).
  destruct (fetch_pages_step 2%nat upstream login 1%Z [] [])
    as [(_ & e & ->) | [(_ & N1 & ->) | (_ & M1 & ->)]].
  { do 2 eexists. split; [reflexivity |]. finish_thrown 1%nat. }
  { do 2 eexists. split; [reflexivity |]. finish_returned 1%nat. }
  cbn [app]. change (1 + 1)%Z with 2%Z.
  destruct (fetch_pages_step 1%nat upstream login 2%Z
              (PageResponse.batch (upstream login 1%Z)) [1%Z])
    as [(_ & e & ->) | [(_ & N2 & ->) | (_ & M2 & ->)]].
  { do 2 eexists. split; [reflexivity |]. finish_thrown 2%nat. }
  { do 2 eexists. split; [reflexivity |]. finish_returned 2%nat. }
  cbn [app]. change (2 + 1)%Z with 3%Z.
  destruct (fetch_pages_step 0%nat upstream login 3%Z
              (PageResponse.batch (upstream login 1%Z)
                 ++ PageResponse.batch (upstream login 2%Z)) [1%Z; 2%Z])
    as [(_ & e & ->) | [(_ & N3 & ->) | (_ & M3 & _)]].
  { do 2 eexists. split; [reflexivity |]. finish_thrown 3%nat. }
  { do 2 eexists. split; [reflexivity |]. finish_returned 3%nat. }
  contradiction.
Qed.

(** ** Handle normalisation *)

Lemma append_nil (b : string) : EmptyString +:+ b = b.
Proof. reflexivity. Qed.

Lemma append_cons (c : ascii) (a b : string) : String c a +:+ b = String c (a +:+ b).
Proof. reflexivity. Qed.

Lemma string_forallb_app (f : ascii -> bool) (a b : string) :
  string_forallb f (a +:+ b) = string_forallb f a && string_forallb f b.
Proof.
  induction a as [| c a IH]; rewrite ?append_nil, ?append_cons; cbn;
    [reflexivity |].
  now rewrite IH, andb_assoc.
Qed.

Lemma string_forallb_impl (f g : ascii -> bool) (s : string) :
  (forall c, f c = true -> g c = true) ->
  string_forallb f s = true -> string_forallb g s = true.
Proof.
  intros Hfg. induction s as [| c s IH]; cbn; [reflexivity |].
  intros H. apply andb_true_iff in H as [Hc Hs].
  apply andb_true_iff. split; [now apply Hfg | now apply IH].
Qed.

Lemma string_app_assoc (a b c : string) : (a +:+ b) +:+ c = a +:+ (b +:+ c).
Proof.
  induction a as [| x a IH]; rewrite ?append_nil, ?append_cons;
    [reflexivity | now rewrite IH].
Qed.

Ltac by_char c := destruct c as [[] [] [] [] [] [] [] []]; vm_compute; congruence.

Lemma handle_char_not_space (c : ascii) : handle_char c = true -> space_lead c = false.
Proof. by_char c. Qed.

Lemma handle_char_in_segment (c : ascii) : handle_char c = true -> in_segment c = true.
Proof. by_char c. Qed.

Lemma handle_char_not_at (c : ascii) : handle_char c = true -> Ascii.eqb c "@" = false.
Proof. by_char c. Qed.

Lemma handle_char_not_slash (c : ascii) :
  handle_char c = true -> negb (Ascii.eqb (fold_case c) "/") = true.
Proof. by_char c. Qed.

(** A text that starts with no white space byte starts with no white
    space character. *)
Lemma space_width_none (c : ascii) (s : string) :
  space_lead c = false -> space_width (String c s) = 0%nat.
Proof.
  destruct c as [[] [] [] [] [] [] [] []]; intros H; vm_compute in H;
    try discriminate H; vm_compute; reflexivity.
Qed.

Lemma trimEnd_no_space (s : string) :
  string_forallb (fun c => negb (space_lead c)) s = true -> trimEnd s = s.
Proof.
  induction s as [| c s IH]; [reflexivity |]. cbn [string_forallb trimEnd].
  intros H. apply andb_true_iff in H as [Hc Hs]. rewrite (IH Hs).
  apply negb_true_iff in Hc.
  unfold blank. cbn [blank_from]. now rewrite (space_width_none c s Hc).
Qed.

Lemma trim_no_space (s : string) :
  string_forallb (fun c => negb (space_lead c)) s = true -> trim s = s.
Proof.
  intros H. unfold trim.
  assert (trimStart s = s) as ->; [| now apply trimEnd_no_space].
  destruct s as [| c s]; [reflexivity |]. cbn [string_forallb] in H.
  apply andb_true_iff in H as [Hc _]. apply negb_true_iff in Hc.
  unfold trimStart. cbn [trimStart_from]. now rewrite (space_width_none c s Hc).
Qed.

(** Trimming leaves nothing exactly of a text that is white space
    throughout. *)
Lemma blank_trimStart_from (s : string) (skip : nat) :
  blank (trimStart_from skip s) = blank_from skip s.
Proof.
  revert skip. induction s as [| c s IH]; intros skip; [reflexivity |].
  cbn [trimStart_from blank_from]. destruct skip as [| k]; [| apply IH].
  destruct (space_width (String c s)) as [| k] eqn:E; [| apply IH].
  unfold blank. cbn [blank_from]. now rewrite E.
Qed.

Lemma trim_empty_iff_blank (s : string) : trim s = EmptyString <-> blank s = true.
Proof.
  unfold trim. change (blank s) with (blank_from 0 s).
  rewrite <- (blank_trimStart_from s 0). fold (trimStart s).
  destruct (trimStart s) as [| c t]; [now split |]. cbn [trimEnd].
  destruct (blank (String c t)); split; intros H; congruence.
Qed.

(** A successful literal match consumed a prefix that folds onto the
    pattern. *)
Lemma match_literal_i_inv (pat s rest : string) :
  match_literal_i pat s = Some rest ->
  exists s0, s = s0 +:+ rest /\ string_map fold_case s0 = pat.
Proof.
  revert s. induction pat as [| p pat IH]; intros s; cbn.
  - intros [= ->]. now exists EmptyString.
  - destruct s as [| c s]; [discriminate |].
    destruct (Ascii.eqb_spec (fold_case c) p) as [<- |]; [| discriminate].
    intros H. destruct (IH _ H) as (s0 & -> & <-).
    now exists (String c s0).
Qed.

Lemma match_literal_i_app (host x : string) :
  match_literal_i (string_map fold_case host) (host +:+ x) = Some x.
Proof.
  induction host as [| c host IH]; rewrite ?append_nil, ?append_cons; cbn;
    [now destruct x |].
  now rewrite Ascii.eqb_refl.
Qed.

Lemma no_slash_no_host (s : string) :
  string_forallb (fun c => negb (Ascii.eqb (fold_case c) "/")) s = true ->
  match_literal_i "github.com/" s = None.
Proof.
  intros H. destruct (match_literal_i "github.com/" s) as [rest |] eqn:E;
    [| reflexivity].
  destruct (match_literal_i_inv _ _ _ E) as (s0 & -> & Hs0).
  rewrite string_forallb_app in H. apply andb_true_iff in H as [H _].
  assert (string_forallb (fun c => negb (Ascii.eqb c "/")) (string_map fold_case s0)
          = true) as H'.
  { clear Hs0 E. induction s0 as [| c s0 IH]; cbn in *; [reflexivity |].
    apply andb_true_iff in H as [Hc Hs]. now rewrite Hc, IH. }
  rewrite Hs0 in H'. discriminate H'.
Qed.

Lemma match_profile_url_unfold (s : string) :
  match_profile_url s =
  match
    match match_literal_i "github.com/" s with
    | Some rest =>
        match segment rest with
        | EmptyString => None
        | login => Some login
        end
    | None => None
    end
  with
  | Some login => Some login
  | None =>
      match s with
      | EmptyString => None
      | String _ s' => match_profile_url s'
      end
  end.
Proof. destruct s; reflexivity. Qed.

Lemma no_slash_no_profile_url (s : string) :
  string_forallb (fun c => negb (Ascii.eqb (fold_case c) "/")) s = true ->
  match_profile_url s = None.
Proof.
  induction s as [| c s IH]; intros H.
  - reflexivity.
  - rewrite match_profile_url_unfold, (no_slash_no_host _ H).
    cbn in H. apply andb_true_iff in H as [_ H]. now apply IH.
Qed.

Lemma segment_handle (h rest : string) :
  string_forallb handle_char h = true -> after_handle rest = true ->
  segment (h +:+ rest) = h.
Proof.
  intros Hh Hr. induction h as [| c h IH]; rewrite ?append_nil, ?append_cons;
    cbn in *.
  - destruct rest as [| c rest]; [reflexivity |]. cbn in *.
    apply negb_true_iff in Hr. now rewrite Hr.
  - apply andb_true_iff in Hh as [Hc Hh].
    rewrite (handle_char_in_segment _ Hc), (IH Hh). reflexivity.
Qed.

Lemma profile_url_captures (scheme host h rest : string) :
  before_host scheme = true -> string_map fold_case host = "github.com/" ->
  valid_handle h = true -> after_handle rest = true ->
  match_profile_url (scheme +:+ host +:+ h +:+ rest) = Some h.
Proof.
  intros Hs Hhost Hh Hr.
  assert (string_forallb handle_char h = true /\ h <> EmptyString) as [Hc Hne].
  { destruct h; [discriminate | split; [exact Hh | discriminate]]. }
  induction scheme as [| c scheme IH].
  - rewrite append_nil, match_profile_url_unfold, <- Hhost, match_literal_i_app.
    rewrite (segment_handle _ _ Hc Hr). now destruct h.
  - cbn in Hs. apply andb_true_iff in Hs as [Hg Hs].
    rewrite append_cons, match_profile_url_unfold. cbn [match_literal_i].
    apply negb_true_iff in Hg. rewrite Hg. now apply IH.
Qed.

Lemma valid_handle_chars (h : string) :
  valid_handle h = true -> string_forallb handle_char h = true /\ h <> EmptyString.
Proof. destruct h; [discriminate | intros H; split; [exact H | discriminate]]. Qed.

Lemma sanitizeLogin_bare (h : string) :
  valid_handle h = true -> sanitizeLogin h = Returned h.
Proof.
  intros Hv. destruct (valid_handle_chars h Hv) as [Hc Hne].
  unfold sanitizeLogin.
  rewrite trim_no_space
    by (eapply string_forallb_impl; [| exact Hc];
        intros c H; now rewrite (handle_char_not_space c H)).
  rewrite no_slash_no_profile_url
    by (eapply string_forallb_impl; [| exact Hc]; apply handle_char_not_slash).
  destruct h as [| c h]; [contradiction |]. cbn in *.
  apply andb_true_iff in Hc as [Hc _]. now rewrite (handle_char_not_at c Hc).
Qed.

Lemma sanitizeLogin_at (h : string) :
  valid_handle h = true -> sanitizeLogin ("@" +:+ h) = Returned h.
Proof.
  intros Hv. destruct (valid_handle_chars h Hv) as [Hc Hne].
  unfold sanitizeLogin.
  rewrite trim_no_space.
  2: { rewrite string_forallb_app. apply andb_true_iff. split; [reflexivity |].
       eapply string_forallb_impl; [| exact Hc].
       intros c H; now rewrite (handle_char_not_space c H). }
  rewrite no_slash_no_profile_url.
  2: { rewrite string_forallb_app. apply andb_true_iff. split; [reflexivity |].
       eapply string_forallb_impl; [| exact Hc]. apply handle_char_not_slash. }
  reflexivity.
Qed.

Lemma sanitizeLogin_url (h scheme host rest input : string) :
  valid_handle h = true ->
  before_host scheme = true -> string_map fold_case host = "github.com/" ->
  after_handle rest = true ->
  trim input = scheme +:+ host +:+ h +:+ rest ->
  sanitizeLogin input = Returned h.
Proof.
  intros Hv Hs Hhost Hr Ht. unfold sanitizeLogin. rewrite Ht.
  rewrite (profile_url_captures _ _ _ _ Hs Hhost Hv Hr).
  destruct (scheme +:+ host +:+ h +:+ rest) eqn:E; [| reflexivity].
  exfalso. destruct scheme; [| discriminate E]. rewrite append_nil in E.
  destruct host; [discriminate Hhost | discriminate E].
Qed.

(** C6: for a valid handle [h], the bare form, the form prefixed with an
    at-sign and every profile-URL form (any text free of the host's first
    letter, the host in any letter case, [h], then nothing or a path, query
    or fragment; surrounding white space allowed) are all normalised to
    [h]; hence any two such forms of two spellings of a handle that differ
    in letter case only get the same cache key.  An input that is empty
    once trimmed, that is one made of white space only (the no-break
    space and the other white space of the language included), fails with
    the error "GitHub username cannot be empty", and no other input
    fails. *)
Theorem sanitizeLogin_forms_share_cache_key (h : string) :
  valid_handle h = true ->
  (sanitizeLogin h = Returned h /\
   sanitizeLogin ("@" +:+ h) = Returned h /\
   forall scheme host rest input,
     before_host scheme = true -> string_map fold_case host = "github.com/" ->
     after_handle rest = true ->
     trim input = scheme +:+ host +:+ h +:+ rest ->
     sanitizeLogin input = Returned h) /\
  (forall h' scheme host rest input,
     valid_handle h' = true -> toLowerCase h' = toLowerCase h ->
     before_host scheme = true -> string_map fold_case host = "github.com/" ->
     after_handle rest = true ->
     trim input = scheme +:+ host +:+ h' +:+ rest ->
     insightsCacheKey h = Returned (toLowerCase h) /\
     insightsCacheKey ("@" +:+ h') = insightsCacheKey h /\
     insightsCacheKey input = insightsCacheKey h) /\
  (forall input,
     (trim input = EmptyString <-> blank input = true) /\
     (trim input = EmptyString ->
      sanitizeLogin input
      = Thrown {| Error_message := "GitHub username cannot be empty" |}) /\
     (trim input <> EmptyString -> exists login, sanitizeLogin input = Returned login)).
Proof.
  intros Hv. split; [| split].
  - split; [now apply sanitizeLogin_bare |].
    split; [now apply sanitizeLogin_at |].
    intros scheme host rest input. now apply sanitizeLogin_url.
  - intros h' scheme host rest input Hv' Hlow Hs Hhost Hr Ht.
    unfold insightsCacheKey.
    rewrite (sanitizeLogin_bare h Hv), (sanitizeLogin_at h' Hv'),
      (sanitizeLogin_url h' scheme host rest input Hv' Hs Hhost Hr Ht), Hlow.
    now repeat split.
  - intros input. split; [apply trim_empty_iff_blank |].
    unfold sanitizeLogin. split.
    + now intros ->.
    + intros Hne. destruct (trim input) as [| c t]; [contradiction |].
      destruct (match_profile_url (String c t)); eauto.
Qed.

Lemma sanitizeLogin_forms_share_cache_key_witness :
  sanitizeLogin "octocat" = Returned "octocat" /\
  sanitizeLogin "@octocat" = Returned "octocat" /\
  sanitizeLogin " https://GitHub.com/Octocat?tab=repositories " = Returned "Octocat" /\
  insightsCacheKey " https://GitHub.com/Octocat?tab=repositories "
    = insightsCacheKey "octocat" /\
  sanitizeLogin (bytes_of_codes [194; 160; 32]%nat)
    = Thrown {| Error_message := "GitHub username cannot be empty" |}.
Proof.
  destruct (sanitizeLogin_forms_share_cache_key "octocat" eq_refl)
    as ((Hbare & Hat & _) & Hkey & Hblank).
  destruct (sanitizeLogin_forms_share_cache_key "Octocat" eq_refl)
    as ((_ & _ & Hurl) & _ & _).
  split; [exact Hbare |]. split; [exact Hat |].
  split; [| split].
  - exact (Hurl "https://" "GitHub.com/" "?tab=repositories"
             " https://GitHub.com/Octocat?tab=repositories "
             eq_refl eq_refl eq_refl eq_refl).
  - exact (proj2 (proj2
             (Hkey "Octocat" "https://" "GitHub.com/" "?tab=repositories"
                " https://GitHub.com/Octocat?tab=repositories "
                eq_refl eq_refl eq_refl eq_refl eq_refl eq_refl))).
  - exact (proj1 (proj2 (Hblank (bytes_of_codes [194; 160; 32]%nat))) eq_refl).
Defined.

(** ** Contribution streaks *)

Lemma ascii_compare_trans (a b c : ascii) :
  Ascii.compare a b <> Gt -> Ascii.compare b c <> Gt -> Ascii.compare a c <> Gt.
Proof.
  unfold Ascii.compare. rewrite !N.compare_gt_iff. lia.
Qed.

Lemma localeCompare_trans (a b c : string) :
  localeCompare a b <> Gt -> localeCompare b c <> Gt -> localeCompare a c <> Gt.
Proof.
  unfold localeCompare. revert b c.
  induction a as [| x a IH]; intros [| y b] [| z c]; cbn; try congruence.
  destruct (Ascii.compare x y) eqn:Exy; try congruence;
    destruct (Ascii.compare y z) eqn:Eyz; try congruence.
  - apply Ascii.compare_eq_iff in Exy. apply Ascii.compare_eq_iff in Eyz. subst.
    rewrite (proj2 (N.compare_eq_iff _ _) eq_refl : Ascii.compare z z = Eq).
    apply IH.
  - apply Ascii.compare_eq_iff in Exy. subst. now rewrite Eyz.
  - apply Ascii.compare_eq_iff in Eyz. subst. now rewrite Exy.
  - intros _ _.
    assert (Ascii.compare x z <> Gt) as H
      by (apply (ascii_compare_trans x y z); congruence).
    destruct (Ascii.compare x z) eqn:Exz; try congruence.
    apply Ascii.compare_eq_iff in Exz. subst.
    rewrite Ascii.compare_antisym, Eyz in Exy. discriminate.
Qed.

Lemma localeCompare_asym (a b : string) :
  localeCompare a b = Gt -> localeCompare b a <> Gt.
Proof.
  unfold localeCompare. rewrite (String.compare_antisym b a).
  intros ->. discriminate.
Qed.

Lemma leading_run_app (a b : list ContributionDay.t) :
  List.Forall (fun day => active day = true) a ->
  leading_run (a ++ b) = (length a + leading_run b)%nat.
Proof.
  induction 1 as [| d a Hd _ IH]; cbn; [reflexivity |]. now rewrite Hd, IH.
Qed.

Lemma leading_run_split (l : list ContributionDay.t) :
  exists seg r, l = seg ++ r /\ List.Forall (fun day => active day = true) seg /\
                length seg = leading_run l.
Proof.
  induction l as [| d l (seg & r & -> & Hs & Hl)]; cbn.
  - exists [], []. now repeat split.
  - destruct (active d) eqn:Ed.
    + exists (d :: seg), r. cbn. repeat split; [now constructor | now rewrite Hl].
    + exists [], (d :: seg ++ r). now repeat split.
Qed.

Lemma trailing_run_snoc (p : list ContributionDay.t) (d : ContributionDay.t) :
  trailing_run (p ++ [d]) = if active d then S (trailing_run p) else 0%nat.
Proof. unfold trailing_run. now rewrite rev_unit. Qed.

Lemma trailing_run_suffix (l1 seg : list ContributionDay.t) :
  List.Forall (fun day => active day = true) seg ->
  (length seg <= trailing_run (l1 ++ seg))%nat.
Proof.
  intros H. unfold trailing_run. rewrite rev_app_distr, leading_run_app.
  - rewrite length_rev. lia.
  - now apply List.Forall_rev.
Qed.

Lemma trailing_run_split (p : list ContributionDay.t) :
  exists l1 seg, p = l1 ++ seg /\ List.Forall (fun day => active day = true) seg /\
                 length seg = trailing_run p.
Proof.
  destruct (leading_run_split (rev p)) as (seg & r & E & Hs & Hl).
  exists (rev r), (rev seg).
  split; [| split].
  - rewrite <- rev_app_distr, <- E. now rewrite rev_involutive.
  - now apply List.Forall_rev.
  - now rewrite length_rev.
Qed.

Lemma scan_snoc (p : list ContributionDay.t) (d : ContributionDay.t) st :
  fold_left streak_step (p ++ [d]) st = streak_step (fold_left streak_step p st) d.
Proof. now rewrite fold_left_app. Qed.

(** The loop invariant: the running streak is the run of active days at
    the end of what has been scanned, and it never exceeds the longest. *)
Lemma scan_current (p : list ContributionDay.t) :
  let st := fold_left streak_step p (0%Z, 0%Z) in
  fst st = Z.of_nat (trailing_run p) /\ (fst st <= snd st)%Z.
Proof.
  induction p as [| d p IH] using rev_ind; [cbn; split; reflexivity |].
  cbv zeta in *. rewrite scan_snoc, trailing_run_snoc.
  destruct (fold_left streak_step p (0%Z, 0%Z)) as [c m]. cbn in IH.
  destruct IH as [-> Hm]. unfold streak_step. fold (active d).
  destruct (active d); cbn; lia.
Qed.

Lemma scan_longest_mono (p : list ContributionDay.t) (d : ContributionDay.t) :
  (snd (fold_left streak_step p (0%Z, 0%Z))
   <= snd (fold_left streak_step (p ++ [d]) (0%Z, 0%Z)))%Z.
Proof.
  rewrite scan_snoc. destruct (fold_left streak_step p (0%Z, 0%Z)) as [c m].
  unfold streak_step. destruct (0 <? _)%Z; cbn; lia.
Qed.

(** No run of active days is longer than [longestStreak]. *)
Lemma scan_longest_bound (p l1 seg l2 : list ContributionDay.t) :
  p = l1 ++ seg ++ l2 -> List.Forall (fun day => active day = true) seg ->
  (Z.of_nat (length seg) <= snd (fold_left streak_step p (0%Z, 0%Z)))%Z.
Proof.
  revert l1 seg l2. induction p as [| d p IH] using rev_ind; intros l1 seg l2 E Hs.
  - destruct l1, seg; first [discriminate E | cbn; lia].
  - destruct l2 as [| d2 l2 _] using rev_ind.
    + rewrite app_nil_r in E. destruct seg as [| d1 seg _] using rev_ind.
      * pose proof (scan_current (p ++ [d])) as [H1 H2]. cbn [length]. lia.
      * rewrite app_assoc in E. apply app_inj_tail in E as [-> <-].
        apply List.Forall_app in Hs as [Hs Hd]. inversion Hd as [| ? ? Hd' _]; subst.
        pose proof (trailing_run_suffix l1 seg Hs) as Hle.
        pose proof (scan_current (l1 ++ seg)) as [Hc _]. cbv zeta in Hc.
        rewrite scan_snoc. destruct (fold_left streak_step (l1 ++ seg) (0%Z, 0%Z))
          as [c m]. cbn in Hc. unfold streak_step. fold (active d).
        rewrite Hd'. cbn. rewrite length_app. cbn. lia.
    + rewrite !app_assoc in E. apply app_inj_tail in E as [E _].
      rewrite <- app_assoc in E. specialize (IH _ _ _ E Hs).
      pose proof (scan_longest_mono p d). lia.
Qed.

(** Some run of active days is as long as [longestStreak]. *)
Lemma scan_longest_attained (p : list ContributionDay.t) :
  exists l1 seg l2, p = l1 ++ seg ++ l2 /\
    List.Forall (fun day => active day = true) seg /\
    Z.of_nat (length seg) = snd (fold_left streak_step p (0%Z, 0%Z)).
Proof.
  induction p as [| d p (l1 & seg & l2 & E & Hs & Hl)] using rev_ind.
  - exists [], [], []. now repeat split.
  - pose proof (scan_current p) as [Hc _]. cbv zeta in Hc.
    rewrite scan_snoc. destruct (fold_left streak_step p (0%Z, 0%Z)) as [c m].
    cbn in Hc, Hl. unfold streak_step. fold (active d).
    destruct (active d) eqn:Ed; cbn.
    + destruct (Z.max_spec m (c + 1)) as [[Hlt ->] | [Hge ->]].
      * destruct (trailing_run_split p) as (k1 & k2 & Ek & Hk & Hkl).
        exists k1, (k2 ++ [d]), []. rewrite app_nil_r.
        split; [now rewrite app_assoc, <- Ek |].
        split; [apply List.Forall_app; split; [exact Hk | now repeat constructor] |].
        rewrite length_app. cbn. lia.
      * exists l1, seg, (l2 ++ [d]).
        split; [now rewrite E, <- !app_assoc |]. now split.
    + exists l1, seg, (l2 ++ [d]).
      split; [now rewrite E, <- !app_assoc |]. now split.
Qed.

(** C7: the streaks are computed over all days of the calendar put in date
    order (a sorted rearrangement of the weeks' days) by one pass of the
    loop body from (0, 0); the current streak is the number of active days
    at the end of that order, and the longest streak is the length of a
    longest run of consecutive active days in it; whenever the day counts
    in date order are [1,1,0,1,1,1,0,0] the current streak is 0 and the
    longest streak is 3, as on the example calendar. *)
Theorem aggregateContributionStats_streak (data : GraphqlContributionCalendar.t) :
  let weeks :=
    ContributionCalendar.weeks (GraphqlContributionCalendar.contributionCalendar data) in
  let days := sorted_days weeks in
  exists stats,
    aggregateContributionStats (Some data) = Some stats /\
    let current := Streak.current (ContributionStats.streak stats) in
    let longest := Streak.longest (ContributionStats.streak stats) in
    (Permutation (flat_map ContributionWeek.contributionDays weeks) days /\
     StronglySorted
       (fun a b =>
          localeCompare (ContributionDay.date a) (ContributionDay.date b) <> Gt)
       days) /\
    (current, longest) = fold_left streak_step days (0%Z, 0%Z) /\
    current = Z.of_nat (trailing_run days) /\
    (forall l1 seg l2,
       days = l1 ++ seg ++ l2 -> List.Forall (fun day => active day = true) seg ->
       (Z.of_nat (length seg) <= longest)%Z) /\
    (exists l1 seg l2,
       days = l1 ++ seg ++ l2 /\ List.Forall (fun day => active day = true) seg /\
       Z.of_nat (length seg) = longest) /\
    (map ContributionDay.contributionCount days = [1; 1; 0; 1; 1; 1; 0; 0]%Z ->
     current = 0%Z /\ longest = 3%Z) /\
    option_map ContributionStats.streak
      (aggregateContributionStats (Some example_calendar))
    = Some {| Streak.current := 0; Streak.longest := 3 |}.
Proof.
  intros weeks days. unfold aggregateContributionStats. fold weeks. fold days.
  destruct (fold_left streak_step days (0%Z, 0%Z)) as [c m] eqn:Escan.
  eexists. split; [reflexivity |]. cbn [ContributionStats.streak Streak.current
                                        Streak.longest].
  split.
  { split; [apply Array_sort_Permutation |].
    apply (Array_sort_sorted
             (fun a b =>
                localeCompare (ContributionDay.date a) (ContributionDay.date b))).
    - intros x y z. apply localeCompare_trans.
    - intros x y. apply localeCompare_asym. }
  split; [reflexivity |].
  pose proof (scan_current days) as [Hc _]. cbv zeta in Hc. rewrite Escan in Hc.
  split; [exact Hc |].
  split.
  { intros l1 seg l2 E Hs. pose proof (scan_longest_bound days l1 seg l2 E Hs) as H.
    now rewrite Escan in H. }
  split.
  { destruct (scan_longest_attained days) as (l1 & seg & l2 & E & Hs & Hl).
    exists l1, seg, l2. rewrite Escan in Hl. now repeat split. }
  split; [| reflexivity].
  intros Hcounts.
  destruct days as [| d1 [| d2 [| d3 [| d4 [| d5 [| d6 [| d7 [| d8 [| d9 rest]]]]]]]]];
    try discriminate Hcounts.
  injection Hcounts as H1 H2 H3 H4 H5 H6 H7 H8.
  cbn in Escan. unfold streak_step in Escan.
  rewrite H1, H2, H3, H4, H5, H6, H7, H8 in Escan. cbn in Escan.
  injection Escan as <- <-. split; reflexivity.
Qed.

Lemma aggregateContributionStats_streak_witness :
  exists stats,
    aggregateContributionStats (Some example_calendar) = Some stats /\
    Streak.current (ContributionStats.streak stats) = 0%Z /\
    Streak.longest (ContributionStats.streak stats) = 3%Z.
Proof.
  destruct (aggregateContributionStats_streak example_calendar)
    as (stats & Hs & _ & _ & _ & _ & _ & Hex & _).
  exists stats. split; [exact Hs |]. exact (Hex eq_refl).
Defined.

(** ** The GraphQL fetch *)

(** C9: without a credential [githubGraphqlFetch] returns [null], sends
    nothing and throws nothing; with a credential it sends one POST to the
    GraphQL endpoint, bearing the credential, and throws a
    [GitHubApiError] exactly when the response is not a success or its
    body parses to an object whose errors array is non-empty; the error
    carries the response's status, the parsed body (the empty object when
    the body does not parse) and the first error's message or else the
    default text with the status; otherwise it returns the body's data,
    [null] when there is none. *)
Theorem githubGraphqlFetch_outcomes {T : Type} (env : Env.t)
    (fetch : Request.t -> Response.t T) (query : string)
    (variables : list (string * string)) :
  let result := githubGraphqlFetch env fetch query variables in
  (truthy_string (Env.GITHUB_ACCESS_TOKEN env) = None ->
   result = (Returned None, [])) /\
  (forall token, truthy_string (Env.GITHUB_ACCESS_TOKEN env) = Some token ->
   let request :=
     {| Request.url := "https://api.github.com/graphql"; Request.method := "POST";
        Request.headers := buildHeaders env None;
        Request.query := query; Request.variables := variables |} in
   let response := fetch request in
   let errors :=
     match Response.json response with
     | Some body =>
         match GraphQlResponse.errors body with
         | Some errors => errors
         | None => []
         end
     | None => []
     end in
   let failed := Response.ok response = false \/ errors <> [] in
   snd result = [request] /\
   Map_get "Authorization" (Request.headers request) = Some ("Bearer " +:+ token) /\
   ((exists err, fst result = Thrown err) <-> failed) /\
   (forall err, fst result = Thrown err ->
      status err = Response.status response /\
      data err
      = match Response.json response with
        | Some body => body
        | None => {| GraphQlResponse.data := None; GraphQlResponse.errors := None |}
        end /\
      message err
      = match errors with
        | first :: _ => GraphQlError.message first
        | [] =>
            "GitHub GraphQL API error (" +:+ Z_to_string (Response.status response)
            +:+ ")"
        end) /\
   (~ failed ->
    fst result
    = Returned
        match Response.json response with
        | Some body => GraphQlResponse.data body
        | None => None
        end)).
Proof.
  intros result. subst result. unfold githubGraphqlFetch, GITHUB_GRAPHQL_API. split.
  - now intros ->.
  - intros token Htoken. rewrite Htoken. cbv zeta.
    set (request := {| Request.url := "https://api.github.com/graphql" |}).
    unfold json_or_empty.
    assert (Map_get "Authorization" (Request.headers request)
            = Some ("Bearer " +:+ token)) as Hauth
      by (cbn; unfold buildHeaders; now rewrite Htoken).
    destruct (Response.ok (fetch request)) eqn:Eok; cbn [negb orb].
    + destruct (Response.json (fetch request)) as [body |] eqn:Ejson.
      * destruct (GraphQlResponse.errors body) as [[| e es] |] eqn:Eerr;
          cbn [length Nat.eqb negb fst snd];
          (split; [reflexivity |]); (split; [exact Hauth |]).
        -- split; [split; [intros [err H]; discriminate H | intros [H | H]; easy] |].
           split; [intros err H; discriminate H | reflexivity].
        -- split; [split; [intros _; right; discriminate | eauto] |].
           split; [| intros H; exfalso; apply H; right; discriminate].
           intros err [= <-]. now cbn.
        -- split; [split; [intros [err H]; discriminate H | intros [H | H]; easy] |].
           split; [intros err H; discriminate H | reflexivity].
      * cbn [GraphQlResponse.errors length Nat.eqb negb fst snd].
        split; [reflexivity |]. split; [exact Hauth |].
        split; [split; [intros [err H]; discriminate H | intros [H | H]; easy] |].
        split; [intros err H; discriminate H | reflexivity].
    + cbn [fst snd]. split; [reflexivity |]. split; [exact Hauth |].
      split; [split; [intros _; now left | eauto] |].
      split; [| intros H; exfalso; apply H; now left].
      intros err [= <-]. cbn [status data message].
      split; [reflexivity |].
      destruct (Response.json (fetch request)) as [body |]; [| now split].
      split; [reflexivity |].
      now destruct (GraphQlResponse.errors body) as [[| e es] |].
Qed.

Lemma githubGraphqlFetch_outcomes_witness :
  githubGraphqlFetch env_without_token failing_fetch "query" [] = (Returned None, []) /\
  (exists err,
     fst (githubGraphqlFetch env_with_token failing_fetch "query" []) = Thrown err /\
     status err = 502%Z /\ message err = "GitHub GraphQL API error (502)") /\
  (exists err,
     fst (githubGraphqlFetch env_with_token erroring_fetch "query" []) = Thrown err /\
     status err = 200%Z /\ message err = "rate limited") /\
  fst (githubGraphqlFetch env_with_token answering_fetch "query" [])
  = Returned (Some 42%nat).
Proof.
  destruct (githubGraphqlFetch_outcomes env_without_token failing_fetch "query" [])
    as [Hnone _].
  split; [exact (Hnone eq_refl) |].
  split; [| split].
  - destruct (githubGraphqlFetch_outcomes env_with_token failing_fetch "query" [])
      as [_ Hsome].
    destruct (Hsome "ghp_token" eq_refl) as (_ & _ & Hiff & Hcarry & _).
    destruct (proj2 Hiff (or_introl eq_refl)) as [err Herr].
    exists err. split; [exact Herr |].
    destruct (Hcarry err Herr) as (Hs & _ & Hm).
    split; [exact Hs | etransitivity; [exact Hm | vm_compute; reflexivity]].
  - destruct (githubGraphqlFetch_outcomes env_with_token erroring_fetch "query" [])
      as [_ Hsome].
    destruct (Hsome "ghp_token" eq_refl) as (_ & _ & Hiff & Hcarry & _).
    destruct (proj2 Hiff) as [err Herr]; [right; discriminate |].
    exists err. split; [exact Herr |].
    destruct (Hcarry err Herr) as (Hs & _ & Hm).
    split; [exact Hs | etransitivity; [exact Hm | vm_compute; reflexivity]].
  - destruct (githubGraphqlFetch_outcomes env_with_token answering_fetch "query" [])
      as [_ Hsome].
    destruct (Hsome "ghp_token" eq_refl) as (_ & _ & _ & _ & Hret).
    match type of Hret with
    | ?healthy -> _ => assert healthy as N
    end.
    { intros [H | H]; [discriminate H | now apply H]. }
    exact (Hret N).
Defined.

(** ** Summary and meme prompt *)

Lemma pickRandom_in_range {A : Type} (items : list A) (r : Q) :
  items <> [] -> 0 <= r < 1 ->
  exists x, pickRandom items r = Some x /\ In x items.
Proof.
  intros Hne [H0 H1]. unfold pickRandom.
  set (n := Z.of_nat (length items)).
  assert (0 < n)%Z as Hn by (destruct items; [contradiction | subst n; cbn; lia]).
  assert (0 < inject_Z n) as HnQ
    by (change 0 with (inject_Z 0); rewrite <- Zlt_Qlt; exact Hn).
  set (i := Qfloor (r * inject_Z n)).
  assert (0 <= i)%Z as Hi0.
  { change 0%Z with (Qfloor 0). apply Qfloor_resp_le.
    apply Qmult_le_0_compat; lra. }
  assert (i < n)%Z as Hin.
  { apply inject_Z_lt_inv. eapply Qle_lt_trans; [apply Qfloor_le |].
    apply Qlt_le_trans with (1 * inject_Z n);
      [now apply Qmult_lt_compat_r | rewrite Qmult_1_l; apply Qle_refl]. }
  destruct (Z.ltb_spec i 0) as [| _]; [lia |].
  destruct (nth_error items (Z.to_nat i)) as [x |] eqn:E.
  - exists x. split; [reflexivity |]. eapply nth_error_In, E.
  - apply nth_error_None in E. subst n. lia.
Qed.

Lemma includes_unfold (needle s : string) :
  includes needle s =
  String.prefix needle s ||
  match s with
  | EmptyString => false
  | String _ s' => includes needle s'
  end.
Proof. destruct s; reflexivity. Qed.

Lemma prefix_append (needle rest : string) :
  String.prefix needle (needle +:+ rest) = true.
Proof.
  induction needle as [| c needle IH]; [now destruct rest |].
  rewrite append_cons. cbn. destruct (ascii_dec c c); [exact IH | contradiction].
Qed.

Lemma includes_here (needle rest : string) : includes needle (needle +:+ rest) = true.
Proof. rewrite includes_unfold, prefix_append. reflexivity. Qed.

Lemma includes_skip (before needle s : string) :
  includes needle s = true -> includes needle (before +:+ s) = true.
Proof.
  intros H. induction before as [| c before IH]; [exact H |].
  rewrite append_cons, includes_unfold, IH. apply orb_true_r.
Qed.

Ltac names_it := repeat first [apply includes_here | apply includes_skip].

(** Every top line of a band names the winner and every bottom line names
    the loser. *)
Lemma quips_name_both (winner loser m fw fl wl ll sl : string) (scenario : Scenario) :
  List.Forall (fun text => includes winner text = true)
    (fst (quips winner loser m fw fl wl ll sl scenario)) /\
  List.Forall (fun text => includes loser text = true)
    (snd (quips winner loser m fw fl wl ll sl scenario)).
Proof.
  destruct scenario; cbn [quips fst snd]; split;
    repeat (constructor; [names_it |]); constructor.
Qed.

Lemma scenario_of_gap_bands (gap : Q) :
  (100 < gap -> scenario_of_gap gap = dominant) /\
  (gap < 10 -> scenario_of_gap gap = close) /\
  (10 <= gap <= 100 -> scenario_of_gap gap = upset) /\
  scenario_of_gap gap <> tie.
Proof.
  unfold scenario_of_gap.
  destruct (Qltb 100 gap) eqn:E1; [apply Qltb_lt in E1 |];
    [| destruct (Qltb gap 10) eqn:E2; [apply Qltb_lt in E2 |]].
  - repeat split; intros; try reflexivity; try discriminate; lra.
  - assert (~ 100 < gap) as N1 by (intros H; apply Qltb_lt in H; congruence).
    repeat split; intros; try reflexivity; try discriminate; lra.
  - assert (~ 100 < gap) as N1 by (intros H; apply Qltb_lt in H; congruence).
    assert (~ gap < 10) as N2 by (intros H; apply Qltb_lt in H; congruence).
    repeat split; intros; try reflexivity; try discriminate; lra.
Qed.

Lemma MEME_TEMPLATES_disjoint (s1 s2 : Scenario) (t : string) :
  In t (MEME_TEMPLATES s1) -> In t (MEME_TEMPLATES s2) -> s1 = s2.
Proof.
  destruct s1, s2; cbn; intros H1 H2; try reflexivity;
    repeat (destruct H1 as [<- | H1]; [| try contradiction]);
    repeat (destruct H2 as [H2 | H2]; [discriminate H2 | try contradiction]).
Qed.

Section NarrativeFacts.
Variable Number_toString : Q -> string.
Variable compactNumber_format : Q -> string.

(** C8: with a hero metric, the summary names as winner user A when the
    hero's diff is at least 0 and user B otherwise, followed by the loser,
    the lower-cased label and the absolute gap; the prompt's template
    comes from the pool of the band of the absolute gap (dominant above
    100, close below 10, upset otherwise), its top line is one of that
    band's top lines written for this winner and loser and contains the
    winner's handle, its bottom line is one of the band's bottom lines and
    contains the loser's handle; the first revision picks the band's single
    template and names the same winner.  Without a hero metric the summary
    is the tie sentence naming both users and the prompt comes from the
    separate tie pool, which shares no template with the three bands. *)
Theorem narrative_winner_and_band (result : ComparisonResult.t) (r1 r2 r3 : Q) :
  0 <= r1 < 1 -> 0 <= r2 < 1 -> 0 <= r3 < 1 ->
  let userA := ComparisonResult.userA result in
  let userB := ComparisonResult.userB result in
  (forall hero, ComparisonResult.heroMetric result = Some hero ->
   let gap := Qabs (ComparisonMetric.diff hero) in
   exists winner loser scenario prompt,
     ((0 <= ComparisonMetric.diff hero -> winner = userA /\ loser = userB) /\
      (ComparisonMetric.diff hero < 0 -> winner = userB /\ loser = userA)) /\
     ((100 < gap -> scenario = dominant) /\ (gap < 10 -> scenario = close) /\
      (10 <= gap <= 100 -> scenario = upset)) /\
     buildSummary Number_toString result
     = GitHubUserInsights.login winner +:+ " outshines "
       +:+ GitHubUserInsights.login loser +:+ " on "
       +:+ toLowerCase (ComparisonMetric.label hero) +:+ " by "
       +:+ Number_toString gap +:+ ". Check the charts for the full story." /\
     deriveMemePrompt compactNumber_format result r1 r2 r3 = Some prompt /\
     In (MemePrompt.templateId prompt) (MEME_TEMPLATES scenario) /\
     (exists m fw fl wl ll sl,
        let pool :=
          quips (GitHubUserInsights.login winner) (GitHubUserInsights.login loser)
            m fw fl wl ll sl scenario in
        In (MemePrompt.topText prompt) (fst pool) /\
        In (MemePrompt.bottomText prompt) (snd pool)) /\
     includes (GitHubUserInsights.login winner) (MemePrompt.topText prompt) = true /\
     includes (GitHubUserInsights.login loser) (MemePrompt.bottomText prompt) = true /\
     exists earlier,
       Earlier.deriveMemePrompt Number_toString result = Some earlier /\
       MemePrompt.templateId earlier = Earlier.MEME_TEMPLATES scenario /\
       MemePrompt.topText earlier
       = GitHubUserInsights.login winner +:+ " flexing "
         +:+ toLowerCase (ComparisonMetric.label hero)) /\
  (ComparisonResult.heroMetric result = None ->
   buildSummary Number_toString result
   = GitHubUserInsights.login userA +:+ " and " +:+ GitHubUserInsights.login userB
     +:+ " are neck and neck across all tracked metrics." /\
   (exists prompt,
      deriveMemePrompt compactNumber_format result r1 r2 r3 = Some prompt /\
      In (MemePrompt.templateId prompt) (MEME_TEMPLATES tie) /\
      (forall scenario, scenario <> tie ->
         ~ In (MemePrompt.templateId prompt) (MEME_TEMPLATES scenario)) /\
      In (MemePrompt.topText prompt)
        (tie_topTextOptions
           (GitHubUserInsights.login userA +:+ " & "
            +:+ GitHubUserInsights.login userB)) /\
      In (MemePrompt.bottomText prompt)
        (tie_bottomTextOptions
           (topLanguageWinner userA +:+ " vs " +:+ topLanguageWinner userB))) /\
   exists earlier,
     Earlier.deriveMemePrompt Number_toString result = Some earlier /\
     MemePrompt.templateId earlier = Earlier.MEME_TEMPLATES tie).
Proof.
  intros Hr1 Hr2 Hr3 userA userB. split.
  - intros hero Hhero gap.
    set (scenario := scenario_of_gap gap).
    set (a_leads := Qle_bool 0 (ComparisonMetric.diff hero)).
    set (winner := if a_leads then userA else userB).
    set (loser := if a_leads then userB else userA).
    assert ((0 <= ComparisonMetric.diff hero -> winner = userA /\ loser = userB) /\
            (ComparisonMetric.diff hero < 0 -> winner = userB /\ loser = userA))
      as Hwho.
    { subst winner loser. destruct a_leads eqn:E; subst a_leads.
      - apply Qle_bool_iff in E. split; [easy | intros; lra].
      - split; [| easy]. intros H. apply Qle_bool_iff in H. congruence. }
    destruct (pickRandom_in_range (MEME_TEMPLATES scenario) r1) as (t & Ht & Hint);
      [now destruct scenario | exact Hr1 |].
    unfold deriveMemePrompt. rewrite Hhero.
    fold gap. fold scenario. fold a_leads. cbv zeta. fold userA userB.
    fold winner. fold loser. rewrite Ht. cbn [mbind option_bind].
    match goal with
    | |- context [pickRandom (fst ?q) r2] => set (pool := q)
    end.
    destruct (pickRandom_in_range (fst pool) r2) as (top & Htop & Hintop);
      [subst pool; now destruct scenario | exact Hr2 |].
    destruct (pickRandom_in_range (snd pool) r3) as (bot & Hbot & Hinbot);
      [subst pool; now destruct scenario | exact Hr3 |].
    rewrite Htop, Hbot. cbn [mbind option_bind].
    exists winner, loser, scenario. eexists.
    split; [exact Hwho |].
    split.
    { pose proof (scenario_of_gap_bands gap) as (B1 & B2 & B3 & _).
      now repeat split. }
    split.
    { unfold buildSummary. rewrite Hhero. fold a_leads. cbv zeta.
      fold userA userB. subst winner loser. now destruct a_leads. }
    split; [reflexivity |]. cbn [MemePrompt.templateId MemePrompt.topText
                                 MemePrompt.bottomText].
    split; [exact Hint |].
    split.
    { subst pool. do 6 eexists. cbv zeta. split; [exact Hintop | exact Hinbot]. }
    split.
    { subst pool.
      exact (proj1 (List.Forall_forall _ _)
               (proj1 (quips_name_both _ _ _ _ _ _ _ _ _)) top Hintop). }
    split.
    { subst pool.
      exact (proj1 (List.Forall_forall _ _)
               (proj2 (quips_name_both _ _ _ _ _ _ _ _ _)) bot Hinbot). }
    unfold Earlier.deriveMemePrompt. rewrite Hhero. eexists.
    split; [reflexivity |]. cbn. fold gap. fold a_leads. now split.
  - intros Hnone. split; [| split].
    + unfold buildSummary. now rewrite Hnone.
    + unfold deriveMemePrompt. rewrite Hnone. cbv zeta. fold userA userB.
      destruct (pickRandom_in_range (MEME_TEMPLATES tie) r1) as (t & Ht & Hint);
        [discriminate | exact Hr1 |].
      match goal with
      | |- context [pickRandom (tie_topTextOptions ?d) r2] => set (duo := d)
      end.
      match goal with
      | |- context [pickRandom (tie_bottomTextOptions ?l) r3] => set (langs := l)
      end.
      destruct (pickRandom_in_range (tie_topTextOptions duo) r2)
        as (top & Htop & Hintop); [discriminate | exact Hr2 |].
      destruct (pickRandom_in_range (tie_bottomTextOptions langs) r3)
        as (bot & Hbot & Hinbot); [discriminate | exact Hr3 |].
      rewrite Ht. cbn [mbind option_bind]. rewrite Htop. cbn [mbind option_bind].
      rewrite Hbot. cbn [mbind option_bind].
      eexists. split; [reflexivity |]. cbn [MemePrompt.templateId MemePrompt.topText
                                            MemePrompt.bottomText].
      split; [exact Hint |].
      split; [| split; assumption].
      intros scenario Hne Hin. apply Hne.
      exact (MEME_TEMPLATES_disjoint _ _ _ Hin Hint).
    + unfold Earlier.deriveMemePrompt. rewrite Hnone. eexists. now split.
Qed.
End NarrativeFacts.

Lemma narrative_winner_and_band_witness :
  exists prompt,
    deriveMemePrompt integer_part example_comparison 0 0.5 0.9 = Some prompt /\
    In (MemePrompt.templateId prompt) (MEME_TEMPLATES dominant) /\
    includes "alice" (MemePrompt.topText prompt) = true /\
    includes "bob" (MemePrompt.bottomText prompt) = true.
Proof.
  destruct (narrative_winner_and_band integer_part integer_part example_comparison
              0 0.5 0.9 ltac:(lra) ltac:(lra) ltac:(lra)) as [Hhero _].
  destruct (Hhero _ eq_refl)
    as (winner & loser & scenario & prompt & [Hwho _] & [Hband _] & _ & Hp & Ht & _
        & Htop & Hbot & _).
  destruct Hwho as [-> ->]; [vm_compute; discriminate |].
  rewrite Hband in Ht by reflexivity.
  exists prompt. repeat split; assumption.
Defined.

Lemma fetchUserRepositories_capped_totals_witness :
  exists repos,
    fetchUserRepositories two_page_upstream "octocat"
    = Some (Returned repos, [1; 2]%Z) /\
    (length repos <= 300)%nat /\
    Totals.stars (computeTotals repos) = 205%Z.
Proof.
  destruct (fetchUserRepositories_capped_totals two_page_upstream "octocat")
    as (outcome & requested & Hf & _ & _ & H).
  assert (fetchUserRepositories two_page_upstream "octocat"
          = Some (Returned (repeat (starred_repo 2) 100 ++ [starred_repo 5]),
                  [1; 2]%Z)) as E by reflexivity.
  rewrite E in Hf. injection Hf as <- <-.
  destruct (H _ eq_refl) as (_ & _ & Hlen & Htot).
  eexists. split; [exact E |]. split.
  - apply Hlen. intros page. unfold two_page_upstream.
    destruct (page =? 1)%Z; cbn [PageResponse.batch]; unfold perPage;
      rewrite ?repeat_length; cbn [length]; lia.
  - etransitivity; [exact (f_equal Totals.stars Htot) | reflexivity].
Defined.

(** ** More on the cache *)

Section TTLCacheMore.
Context {V : Type}.
Implicit Types (c : TTLCache.t V) (key : string).

(** X1: a value stored by [set] is read back by [get] up to and including
    the instant of its expiry, the reading of the clock at [set] plus the
    TTL, and the lookup changes nothing; later than that the lookup
    answers absent and removes the entry. *)
Theorem set_then_get (c : TTLCache.t V) (key : string) (v : V)
    (ttlMs : option Z) (stored now : Z) :
  let ttl := match ttlMs with Some ttl => ttl | None => TTLCache.defaultTtlMs c end in
  let c' := TTLCache.set stored key v ttlMs c in
  ((now <= stored + ttl)%Z -> TTLCache.get now key c' = (Some v, c')) /\
  ((stored + ttl < now)%Z ->
   fst (TTLCache.get now key c') = None /\
   TTLCache.store (snd (TTLCache.get now key c')) = delete key (TTLCache.store c)).
Proof.
  intros ttl c'.
  assert (TTLCache.store c' !! key
          = Some {| TTLCache.value := v; TTLCache.expiresAt := (stored + ttl)%Z |})
    as E by (cbn; apply lookup_insert_eq).
  split; intros H.
  - now rewrite (get_live now key c' _ E H).
  - rewrite (get_expired now key c' _ E H). cbn. split; [reflexivity |].
    apply delete_insert_eq.
Qed.

(** X2: no operation on one key touches the entry of another key:
    [get], [set], [remember] and [clear] of [key] leave the stored entry
    of every other key as it was. *)
Theorem other_keys_untouched (c : TTLCache.t V) (key other : string) (v : V)
    (factory : nat -> V) (ttlMs : option Z) (now later : Z) :
  key <> other ->
  TTLCache.store (snd (TTLCache.get now key c)) !! other = TTLCache.store c !! other /\
  TTLCache.store (TTLCache.set now key v ttlMs c) !! other = TTLCache.store c !! other /\
  TTLCache.store (snd (TTLCache.remember now later key factory ttlMs c)) !! other
    = TTLCache.store c !! other /\
  TTLCache.store (TTLCache.clear (Some key) c) !! other = TTLCache.store c !! other.
Proof.
  intros Hne.
  assert (TTLCache.store (snd (TTLCache.get now key c)) !! other
          = TTLCache.store c !! other) as Hget.
  { unfold TTLCache.get. destruct (TTLCache.store c !! key) as [e |]; [| reflexivity].
    destruct (TTLCache.expiresAt e <? now)%Z; [| reflexivity].
    cbn. now apply lookup_delete_ne. }
  split; [exact Hget |].
  split; [cbn; now apply lookup_insert_ne |].
  split; [| cbn; now apply lookup_delete_ne].
  unfold TTLCache.remember.
  destruct (TTLCache.get now key c) as [[cached |] c1]; cbn in Hget |- *;
    [exact Hget |].
  rewrite lookup_insert_ne by exact Hne. exact Hget.
Qed.

(** X3: after [clear(key)] the next [remember] of that key always invokes
    the factory and stores its answer, however fresh the evicted entry
    was; after [clear()] every lookup answers absent.  Neither form of
    [clear] changes the default TTL. *)
Theorem clear_forces_refresh (c : TTLCache.t V) (key : string)
    (factory : nat -> V) (ttlMs : option Z) (now later : Z) :
  let ttl := match ttlMs with Some ttl => ttl | None => TTLCache.defaultTtlMs c end in
  let r := TTLCache.remember now later key factory ttlMs (TTLCache.clear (Some key) c) in
  fst r = factory (TTLCache.invocations c) /\
  TTLCache.invocations (snd r) = S (TTLCache.invocations c) /\
  TTLCache.store (snd r) !! key
    = Some {| TTLCache.value := fst r; TTLCache.expiresAt := (later + ttl)%Z |} /\
  (forall any, TTLCache.get now any (TTLCache.clear None c)
               = (None, TTLCache.clear None c)) /\
  (forall k, TTLCache.defaultTtlMs (TTLCache.clear k c) = TTLCache.defaultTtlMs c).
Proof.
  intros ttl r. subst r. unfold TTLCache.remember.
  rewrite get_absent by (cbn; apply lookup_delete_eq). cbn.
  rewrite lookup_insert_eq.
  split; [reflexivity |]. split; [reflexivity |]. split; [reflexivity |].
  split.
  - intros any. apply get_absent. cbn. apply lookup_empty.
  - now intros [k |].
Qed.
End TTLCacheMore.

Lemma set_then_get_witness :
  TTLCache.get 301000 "octocat" one_entry_cache = (Some 7%nat, one_entry_cache) /\
  fst (TTLCache.get 301001 "octocat" one_entry_cache) = None.
Proof.
  destruct (set_then_get fresh_cache "octocat" 7%nat None 1000 301000) as [Hlive _].
  destruct (set_then_get fresh_cache "octocat" 7%nat None 1000 301001) as [_ Hdead].
  split; [apply Hlive; cbn; lia | apply Hdead; cbn; lia].
Defined.

Lemma other_keys_untouched_witness :
  TTLCache.store
    (snd (TTLCache.remember 400000 400100 "hubot" (fun n => n) None one_entry_cache))
    !! "octocat"
  = TTLCache.store one_entry_cache !! "octocat".
Proof.
  refine (proj1 (proj2 (proj2
    (other_keys_untouched one_entry_cache "hubot" "octocat" 0%nat (fun n => n)
       None 400000 400100 _)))).
  discriminate.
Defined.

(** X4: when the factory fails, [remember] passes the failure on and
    caches nothing: the key is absent afterwards, the entries of other
    keys are as before, and the next [remember] of the key invokes the
    factory again.  When the factory succeeds the call behaves as
    [remember] with the value it returned. *)
Theorem remember_does_not_cache_failures {V E : Type} (c : TTLCache.t V)
    (key : string) (factory : nat -> Outcome E V) (ttlMs : option Z)
    (now later now2 later2 : Z) :
  let r := remember_or_throw now later key factory ttlMs c in
  (forall e, fst r = Thrown e ->
     TTLCache.store (snd r) !! key = None /\
     (forall other, other <> key ->
        TTLCache.store (snd r) !! other = TTLCache.store c !! other) /\
     TTLCache.invocations (snd r) = S (TTLCache.invocations c) /\
     fst (remember_or_throw now2 later2 key factory ttlMs (snd r))
       = factory (S (TTLCache.invocations c))) /\
  (forall f : nat -> V, (forall n, factory n = Returned (f n)) ->
     r = (Returned (fst (TTLCache.remember now later key f ttlMs c)),
          snd (TTLCache.remember now later key f ttlMs c))).
Proof.
  intros r. subst r. unfold remember_or_throw. split.
  - intros e.
    destruct (get_cases now key c) as [(en & He & Hlive & ->) | (Hn & Hk & Hi & Hd)].
    + discriminate.
    + destruct (TTLCache.get now key c) as [[cached |] c1] eqn:Eg; cbn in Hn, Hk, Hi;
        [discriminate Hn |].
      destruct (factory (TTLCache.invocations c1)) as [v | e'] eqn:Ef;
        [discriminate |].
      intros _. cbn [fst snd TTLCache.store TTLCache.invocations].
      split; [exact Hk |].
      split.
      { intros other Hne.
        assert (TTLCache.store (snd (TTLCache.get now key c)) !! other
                = TTLCache.store c !! other) as H.
        { unfold TTLCache.get.
          destruct (TTLCache.store c !! key) as [en |]; [| reflexivity].
          destruct (TTLCache.expiresAt en <? now)%Z; [| reflexivity].
          cbn. apply lookup_delete_ne. congruence. }
        now rewrite Eg in H. }
      split; [now rewrite Hi |].
      rewrite get_absent by exact Hk. cbn [TTLCache.invocations].
      rewrite Hi. now destruct (factory (S (TTLCache.invocations c))).
  - intros f Hf. unfold TTLCache.remember.
    destruct (TTLCache.get now key c) as [[cached |] c1]; [reflexivity |].
    now rewrite Hf.
Qed.

Lemma remember_does_not_cache_failures_witness :
  let r := remember_or_throw 1 2 "octocat" flaky_factory None fresh_cache in
  fst r = Thrown "upstream unavailable" /\
  TTLCache.store (snd r) !! "octocat" = None /\
  fst (remember_or_throw 3 4 "octocat" flaky_factory None (snd r)) = Returned 1%nat.
Proof.
  intros r.
  destruct (remember_does_not_cache_failures fresh_cache "octocat" flaky_factory
              None 1 2 3 4) as [H _].
  destruct (H "upstream unavailable" eq_refl) as (Hk & _ & _ & Hretry).
  split; [reflexivity |]. split; [exact Hk | exact Hretry].
Defined.

(** ** Highlights *)

Section ArraySortFirst.
Context {A : Type} (cmp : A -> A -> comparison).
Hypothesis cmp_trans :
  forall a b c, cmp a b <> Gt -> cmp b c <> Gt -> cmp a c <> Gt.
Hypothesis cmp_asym : forall a b, cmp a b = Gt -> cmp b a <> Gt.

(** The front of a stably sorted array is the first input element that
    the comparator puts behind no other. *)
Lemma head_Array_sort_first (l : list A) (h : A) :
  head (Array_sort cmp l) = Some h ->
  first_best (fun m r => cmp m r = Gt) l h.
Proof.
  revert h. induction l as [| x l IH]; intros h; [discriminate |].
  change (Array_sort cmp (x :: l)) with (sort_insert cmp x (Array_sort cmp l)).
  rewrite head_sort_insert.
  destruct (head (Array_sort cmp l)) as [y |] eqn:Ey.
  - destruct (IH y eq_refl) as (l1 & l2 & -> & F1 & F2).
    assert (cmp x y <> Gt -> first_best (fun m r => cmp m r = Gt)
                               (x :: l1 ++ y :: l2) x) as Hfront.
    { intros Hxy. exists [], (l1 ++ y :: l2). split; [reflexivity |].
      split; [constructor |].
      apply List.Forall_app; split.
      - eapply List.Forall_impl; [| exact F1]. cbn. intros m Hm.
        apply (cmp_trans x y m); [exact Hxy | now apply cmp_asym].
      - constructor; [exact Hxy |].
        eapply List.Forall_impl; [| exact F2]. cbn. intros m Hm.
        now apply (cmp_trans x y m). }
    destruct (cmp x y) eqn:Exy; intros [= <-].
    + apply Hfront. congruence.
    + apply Hfront. congruence.
    + exists (x :: l1), l2. split; [reflexivity |].
      split; [constructor; assumption | exact F2].
  - intros [= <-]. apply head_Array_sort_None in Ey. subst l.
    exists [], []. repeat split; constructor.
Qed.
End ArraySortFirst.

Lemma Z_desc_cmp_trans {A : Type} (key : A -> Z) (a b c : A) :
  (key b - key a ?= 0)%Z <> Gt -> (key c - key b ?= 0)%Z <> Gt ->
  (key c - key a ?= 0)%Z <> Gt.
Proof. rewrite !Z.compare_gt_iff. lia. Qed.

Lemma Z_desc_cmp_asym {A : Type} (key : A -> Z) (a b : A) :
  (key b - key a ?= 0)%Z = Gt -> (key a - key b ?= 0)%Z <> Gt.
Proof. rewrite !Z.compare_gt_iff. lia. Qed.

(** X5: of an empty repository list every superlative is absent, and of a
    non-empty one every superlative is present; the most starred (most
    forked) highlight is the first repository in list order whose star
    (fork) count is the largest, the oldest is the first one whose
    creation date is the earliest and the newest the first one whose
    update date is the latest.  Pinned items are listed in their order
    with a fork count of 0, and are absent exactly when the graph data
    is. *)
Theorem deriveHighlights_first_best (repos : list RestRepo.t)
    (pinned : option (list GraphqlPinned.t)) :
  let h := deriveHighlights repos pinned in
  let picks :=
    [Highlights.mostStarred h; Highlights.mostForked h;
     Highlights.oldestRepo h; Highlights.newestRepo h] in
  (repos = [] -> List.Forall (fun pick => pick = None) picks) /\
  (repos <> [] -> List.Forall (fun pick => pick <> None) picks) /\
  (forall x, Highlights.mostStarred h = Some x ->
     exists r, x = formatRepository r /\
       first_best
         (fun m r => (RestRepo.stargazers_count m < RestRepo.stargazers_count r)%Z)
         repos r) /\
  (forall x, Highlights.mostForked h = Some x ->
     exists r, x = formatRepository r /\
       first_best (fun m r => (RestRepo.forks_count m < RestRepo.forks_count r)%Z)
         repos r) /\
  (forall x, Highlights.oldestRepo h = Some x ->
     exists r, x = formatRepository r /\
       first_best
         (fun m r => localeCompare (RestRepo.created_at m) (RestRepo.created_at r) = Gt)
         repos r) /\
  (forall x, Highlights.newestRepo h = Some x ->
     exists r, x = formatRepository r /\
       first_best
         (fun m r => localeCompare (RestRepo.updated_at m) (RestRepo.updated_at r) = Lt)
         repos r) /\
  (Highlights.pinned h = None <-> pinned = None) /\
  (forall items, Highlights.pinned h = Some items ->
     List.Forall (fun item => RepositoryHighlight.forks item = 0%Z) items /\
     exists nodes, pinned = Some nodes /\
       map RepositoryHighlight.name items = map GraphqlPinned.name nodes).
Proof.
  intros h picks. subst picks h. unfold deriveHighlights.
  cbn [Highlights.mostStarred Highlights.mostForked Highlights.oldestRepo
       Highlights.newestRepo Highlights.pinned].
  assert (forall (cmp : RestRepo.t -> RestRepo.t -> comparison) x,
            option_map formatRepository (head (Array_sort cmp repos)) = Some x ->
            exists r, x = formatRepository r /\ head (Array_sort cmp repos) = Some r)
    as Hpick.
  { intros cmp x H. destruct (head (Array_sort cmp repos)) as [r |];
      [| discriminate]. injection H as <-. eauto. }
  split.
  { intros ->. repeat constructor. }
  split.
  { intros Hne.
    assert (forall cmp : RestRepo.t -> RestRepo.t -> comparison,
              option_map formatRepository (head (Array_sort cmp repos)) <> None) as H.
    { intros cmp H. destruct (head (Array_sort cmp repos)) eqn:E; [discriminate |].
      now apply head_Array_sort_None in E. }
    repeat (constructor; [apply H |]). constructor. }
  split.
  { intros x Hx. destruct (Hpick _ x Hx) as (r & -> & Hr). exists r.
    split; [reflexivity |].
    apply head_Array_sort_first in Hr.
    - destruct Hr as (l1 & l2 & E & F1 & F2). exists l1, l2. split; [exact E |].
      split; (eapply List.Forall_impl; [| eassumption]); cbn; intros m;
        rewrite Z.compare_gt_iff; lia.
    - intros a b c. apply (Z_desc_cmp_trans RestRepo.stargazers_count).
    - intros a b. apply (Z_desc_cmp_asym RestRepo.stargazers_count). }
  split.
  { intros x Hx. destruct (Hpick _ x Hx) as (r & -> & Hr). exists r.
    split; [reflexivity |].
    apply head_Array_sort_first in Hr.
    - destruct Hr as (l1 & l2 & E & F1 & F2). exists l1, l2. split; [exact E |].
      split; (eapply List.Forall_impl; [| eassumption]); cbn; intros m;
        rewrite Z.compare_gt_iff; lia.
    - intros a b c. apply (Z_desc_cmp_trans RestRepo.forks_count).
    - intros a b. apply (Z_desc_cmp_asym RestRepo.forks_count). }
  split.
  { intros x Hx. destruct (Hpick _ x Hx) as (r & -> & Hr). exists r.
    split; [reflexivity |].
    apply head_Array_sort_first in Hr; [exact Hr | |].
    - intros a b c. apply localeCompare_trans.
    - intros a b. apply localeCompare_asym. }
  split.
  { intros x Hx. destruct (Hpick _ x Hx) as (r & -> & Hr). exists r.
    split; [reflexivity |].
    apply head_Array_sort_first in Hr.
    - destruct Hr as (l1 & l2 & E & F1 & F2). exists l1, l2. split; [exact E |].
      unfold localeCompare in *.
      split; (eapply List.Forall_impl; [| eassumption]); cbn; intros m.
      + intros H. rewrite String.compare_antisym, H. reflexivity.
      + intros H C. apply H. rewrite String.compare_antisym, C. reflexivity.
    - intros a b c H1 H2. apply (localeCompare_trans _ _ _ H2 H1).
    - intros a b. apply localeCompare_asym. }
  split.
  { destruct pinned; cbn; split; congruence. }
  intros items Hi. destruct pinned as [nodes |]; [| discriminate].
  injection Hi as <-. split.
  - apply List.Forall_forall. intros item Hin. apply in_map_iff in Hin.
    now destruct Hin as (n & <- & _).
  - exists nodes. split; [reflexivity |]. rewrite map_map. reflexivity.
Qed.

Lemma deriveHighlights_first_best_witness :
  let repos := [starred_repo 2; starred_repo 5; starred_repo 5] in
  Highlights.mostStarred (deriveHighlights repos None)
    = Some (formatRepository (starred_repo 5)) /\
  exists r,
    first_best
      (fun m r => (RestRepo.stargazers_count m < RestRepo.stargazers_count r)%Z)
      repos r.
Proof.
  intros repos.
  destruct (deriveHighlights_first_best repos None) as (_ & _ & H & _).
  destruct (H _ eq_refl) as (r & _ & Hr).
  split; [reflexivity | exists r; exact Hr].
Defined.

(** ** Metrics seen from the other side *)

Lemma toFixed2_opp (x : Q) : toFixed2 (- x) == - toFixed2 x.
Proof.
  unfold toFixed2, round_half_up.
  destruct (Qlt_le_dec (- x) 0), (Qlt_le_dec x 0); try lra.
  - rewrite (Qfloor_comp (- - x * 100 + (1 # 2)) (x * 100 + (1 # 2))) by lra.
    reflexivity.
  - rewrite (Qfloor_comp (- x * 100 + (1 # 2)) (1 # 2)) by lra.
    rewrite (Qfloor_comp (x * 100 + (1 # 2)) (1 # 2)) by lra.
    reflexivity.
Qed.

Lemma toFixed2_abs_opp (x : Q) : Qabs (toFixed2 (- x)) = Qabs (toFixed2 x).
Proof.
  unfold toFixed2, round_half_up.
  destruct (Qlt_le_dec (- x) 0), (Qlt_le_dec x 0); try lra.
  - rewrite (Qfloor_comp (- - x * 100 + (1 # 2)) (x * 100 + (1 # 2))) by lra.
    cbn. now rewrite Z.abs_opp.
  - cbn. now rewrite Z.abs_opp.
  - rewrite (Qfloor_comp (- x * 100 + (1 # 2)) (1 # 2)) by lra.
    rewrite (Qfloor_comp (x * 100 + (1 # 2)) (1 # 2)) by lra.
    reflexivity.
Qed.

(** What [buildMetric] guarantees about the record it returns. *)
Lemma buildMetric_signs (i l : string) (a b : Q) (d : option string) :
  let m := buildMetric i l a b d in
  (ComparisonMetric.direction m = equal -> Qabs (ComparisonMetric.diff m) <= 0.01) /\
  (ComparisonMetric.direction m = up ->
   0.01 < ComparisonMetric.diff m /\ b < a) /\
  (ComparisonMetric.direction m = down ->
   ComparisonMetric.diff m < - (0.01) /\ a < b).
Proof.
  intros m. pose proof (buildMetric_direction_cases i l a b d) as Hc. fold m in Hc.
  cbv zeta in Hc.
  assert (ComparisonMetric.diff m = toFixed2 (a - b)) as Hd by reflexivity.
  destruct Hc as [[-> H] | [[-> [N P]] | [-> [N P]]]];
    (split; [| split]); intros E; try discriminate E; try exact H.
  - assert (0.01 < ComparisonMetric.diff m) as H1.
    { apply Qnot_le_lt. intros C. apply N. apply Qabs_Qle_condition. lra. }
    split; [exact H1 |]. rewrite Hd in P. apply toFixed2_pos in P. lra.
  - assert (ComparisonMetric.diff m < - (0.01)) as H1.
    { apply Qnot_le_lt. intros C. apply N. apply Qabs_Qle_condition.
      split; [exact C |]. apply Qnot_lt_le in P. lra. }
    split; [exact H1 |].
    assert (toFixed2 (a - b) < 0) as P' by (rewrite <- Hd; lra).
    apply toFixed2_neg in P'. lra.
Qed.

(** Exchanging the two values negates the difference. *)
Lemma buildMetric_swap_diff (i l : string) (a b : Q) (d : option string) :
  ComparisonMetric.diff (buildMetric i l b a d)
  == - ComparisonMetric.diff (buildMetric i l a b d) /\
  Qabs (ComparisonMetric.diff (buildMetric i l b a d))
  = Qabs (ComparisonMetric.diff (buildMetric i l a b d)).
Proof.
  assert (b - a == - (a - b)) as Hswap by ring.
  split; cbn; rewrite (toFixed2_comp _ _ Hswap);
    [apply toFixed2_opp | apply toFixed2_abs_opp].
Qed.

(** Exchanging the two values flips the direction. *)
Lemma buildMetric_swap_direction (i l : string) (a b : Q) (d : option string) :
  ComparisonMetric.direction (buildMetric i l b a d)
  = flip (ComparisonMetric.direction (buildMetric i l a b d)).
Proof.
  destruct (buildMetric_swap_diff i l a b d) as [Hd Ha].
  pose proof (buildMetric_signs i l a b d) as (E1 & U1 & D1).
  pose proof (buildMetric_signs i l b a d) as (E2 & U2 & D2).
  cbv zeta in *.
  destruct (ComparisonMetric.direction (buildMetric i l a b d)) eqn:Dm,
           (ComparisonMetric.direction (buildMetric i l b a d)) eqn:Dm';
    try reflexivity; exfalso;
    repeat match goal with
           | H : ?x = ?x -> _ |- _ => specialize (H eq_refl)
           | H : _ /\ _ |- _ => destruct H
           end;
    try lra;
    rewrite <- ?Ha in *;
    repeat match goal with
           | H : Qabs _ <= _ |- _ => apply Qabs_Qle_condition in H
           end; lra.
Qed.

(** Exchanging the two values mirrors the metric. *)
Lemma buildMetric_swap (i l : string) (a b : Q) (d : option string) :
  mirrored (buildMetric i l a b d) (buildMetric i l b a d).
Proof.
  destruct (buildMetric_swap_diff i l a b d) as [Hd Ha].
  repeat split; try reflexivity; try assumption.
  apply buildMetric_swap_direction.
Qed.

(** X6: building a metric with the two values exchanged gives the mirror
    image: the same id and label, the values swapped, the difference
    negated (its absolute value unchanged), and the direction flipped,
    [up] for [down] and [equal] kept; so the exchanged metric is a tie
    exactly when the original is, and leads exactly when the original
    trails. *)
Theorem buildMetric_mirrored (i l : string) (a b : Q) (d : option string) :
  let m := buildMetric i l a b d in
  let m' := buildMetric i l b a d in
  mirrored m m' /\
  (ComparisonMetric.direction m' = equal <-> ComparisonMetric.direction m = equal) /\
  (ComparisonMetric.direction m' = up <-> ComparisonMetric.direction m = down) /\
  (ComparisonMetric.direction m' = down <-> ComparisonMetric.direction m = up).
Proof.
  intros m m'.
  destruct (buildMetric_swap_diff i l a b d) as [Hd Ha].
  pose proof (buildMetric_swap_direction i l a b d) as Hf.
  fold m m' in Hd, Ha, Hf.
  split; [repeat split; try reflexivity; assumption |].
  rewrite Hf.
  destruct (ComparisonMetric.direction m); cbn [flip];
    repeat split; intros; congruence.
Qed.

Section Forall2Sort.
Context {A B : Type} (R : A -> B -> Prop).
Context (cmp : A -> A -> comparison) (cmp' : B -> B -> comparison).
Hypothesis cmp_related :
  forall a a' b b', R a a' -> R b b' -> cmp a b = cmp' a' b'.

Lemma sort_insert_Forall2 (x : A) (x' : B) (l : list A) (l' : list B) :
  R x x' -> Forall2 R l l' ->
  Forall2 R (sort_insert cmp x l) (sort_insert cmp' x' l').
Proof.
  intros Hx Hl. induction Hl as [| y y' l l' Hy Hl IH]; cbn.
  - now repeat constructor.
  - rewrite <- (cmp_related x x' y y' Hx Hy).
    destruct (cmp x y); repeat constructor; assumption.
Qed.

Lemma Array_sort_Forall2 (l : list A) (l' : list B) :
  Forall2 R l l' -> Forall2 R (Array_sort cmp l) (Array_sort cmp' l').
Proof.
  induction 1 as [| x x' l l' Hx Hl IH]; cbn; [constructor |].
  now apply sort_insert_Forall2.
Qed.

Lemma filter_Forall2 (f : A -> bool) (f' : B -> bool) (l : list A) (l' : list B) :
  (forall a a', R a a' -> f a = f' a') ->
  Forall2 R l l' -> Forall2 R (List.filter f l) (List.filter f' l').
Proof.
  intros Hf. induction 1 as [| x x' l l' Hx Hl IH]; cbn; [constructor |].
  rewrite <- (Hf x x' Hx). destruct (f x); [constructor |]; assumption.
Qed.
End Forall2Sort.

Lemma buildComparisonMetrics_built (a b : GitHubUserInsights.t) :
  List.Forall built (buildComparisonMetrics a b).
Proof.
  unfold buildComparisonMetrics.
  repeat (constructor; [unfold built; do 5 eexists; reflexivity |]). constructor.
Qed.

Lemma buildComparisonMetrics_mirrored (a b : GitHubUserInsights.t) :
  Forall2 mirrored (buildComparisonMetrics a b) (buildComparisonMetrics b a).
Proof.
  unfold buildComparisonMetrics.
  repeat (constructor; [apply buildMetric_swap |]). constructor.
Qed.

Lemma mirrored_same_gap_order (m m' n n' : ComparisonMetric.t) :
  mirrored m m' -> mirrored n n' ->
  (Qabs (ComparisonMetric.diff n) - Qabs (ComparisonMetric.diff m) ?= 0)
  = (Qabs (ComparisonMetric.diff n') - Qabs (ComparisonMetric.diff m') ?= 0).
Proof. intros (_ & _ & _ & _ & _ & -> & _) (_ & _ & _ & _ & _ & -> & _). reflexivity. Qed.

Lemma mirrored_same_equality (m m' : ComparisonMetric.t) :
  mirrored m m' ->
  negb (Direction_eqb (ComparisonMetric.direction m) equal)
  = negb (Direction_eqb (ComparisonMetric.direction m') equal).
Proof.
  intros (_ & _ & _ & _ & _ & _ & ->).
  now destruct (ComparisonMetric.direction m).
Qed.

Lemma selectHeroMetric_mirrored (ms ms' : list ComparisonMetric.t) :
  Forall2 mirrored ms ms' ->
  match selectHeroMetric ms, selectHeroMetric ms' with
  | Some h, Some h' => mirrored h h'
  | None, None => True
  | _, _ => False
  end.
Proof.
  intros H. unfold selectHeroMetric.
  assert (Forall2 mirrored
            (Array_sort
               (fun a b =>
                  Qabs (ComparisonMetric.diff b) - Qabs (ComparisonMetric.diff a) ?= 0)
               (List.filter
                  (fun metric =>
                     negb (Direction_eqb (ComparisonMetric.direction metric) equal))
                  ms))
            (Array_sort
               (fun a b =>
                  Qabs (ComparisonMetric.diff b) - Qabs (ComparisonMetric.diff a) ?= 0)
               (List.filter
                  (fun metric =>
                     negb (Direction_eqb (ComparisonMetric.direction metric) equal))
                  ms'))) as Hs.
  { apply Array_sort_Forall2.
    - intros a a' b b' Ha Hb. now apply mirrored_same_gap_order.
    - apply filter_Forall2; [apply mirrored_same_equality | exact H]. }
  destruct Hs; cbn; trivial.
Qed.

(** The split of the metric list around the selected hero. *)
Lemma selectHeroMetric_split (metrics : list ComparisonMetric.t)
    (h : ComparisonMetric.t) :
  selectHeroMetric metrics = Some h ->
  ComparisonMetric.direction h <> equal /\
  exists l1 l2, metrics = l1 ++ h :: l2 /\
    List.Forall
      (fun m =>
         ComparisonMetric.direction m = equal \/
         Qabs (ComparisonMetric.diff m) <= Qabs (ComparisonMetric.diff h))
      (l1 ++ l2).
Proof.
  unfold selectHeroMetric. intros Hh.
  destruct (head_Array_sort_desc _ (fun m => Qabs (ComparisonMetric.diff m))
              _ h gap_cmp Hh) as (l1 & l2 & Hf & F1 & F2).
  destruct (filter_split _ _ _ _ _ Hf) as (k1 & k2 & -> & <- & <- & Kh).
  split; [now apply not_equal_iff |].
  exists k1, k2. split; [reflexivity |].
  apply List.Forall_app. split.
  - apply filter_Forall_keep in F1.
    eapply List.Forall_impl; [| exact F1]. cbn. intros m [Hm | Hm]; [left | right; lra].
    apply negb_false_iff in Hm. now apply Direction_eqb_eq.
  - apply filter_Forall_keep in F2.
    eapply List.Forall_impl; [| exact F2]. cbn. intros m [Hm | Hm]; [left | now right].
    apply negb_false_iff in Hm. now apply Direction_eqb_eq.
Qed.

Lemma built_signs (m : ComparisonMetric.t) :
  built m ->
  (ComparisonMetric.direction m = equal -> Qabs (ComparisonMetric.diff m) <= 0.01) /\
  (ComparisonMetric.direction m = up ->
   0.01 < ComparisonMetric.diff m /\
   ComparisonMetric.userB m < ComparisonMetric.userA m) /\
  (ComparisonMetric.direction m = down ->
   ComparisonMetric.diff m < - (0.01) /\
   ComparisonMetric.userA m < ComparisonMetric.userB m).
Proof. intros (i & l & a & b & d & ->). apply buildMetric_signs. Qed.

(** X7: the metric list always holds the seven metrics in their fixed
    order; when a hero is selected from it, the hero is one of them, its
    gap exceeds the 0.01 tolerance and is the largest of all seven gaps
    (the metrics within tolerance included), and the side the narrative
    calls the winner has the strictly larger value on it: user A when the
    difference is at least 0, user B otherwise. *)
Theorem hero_of_built_metrics (a b : GitHubUserInsights.t) :
  let metrics := buildComparisonMetrics a b in
  map ComparisonMetric.id metrics = metric_ids /\
  forall hero, selectHeroMetric metrics = Some hero ->
    In hero metrics /\
    0.01 < Qabs (ComparisonMetric.diff hero) /\
    List.Forall
      (fun m => Qabs (ComparisonMetric.diff m) <= Qabs (ComparisonMetric.diff hero))
      metrics /\
    (0 <= ComparisonMetric.diff hero ->
     ComparisonMetric.userB hero < ComparisonMetric.userA hero) /\
    (ComparisonMetric.diff hero < 0 ->
     ComparisonMetric.userA hero < ComparisonMetric.userB hero).
Proof.
  intros metrics. split; [reflexivity |]. intros hero Hh.
  pose proof (buildComparisonMetrics_built a b) as Hb. fold metrics in Hb.
  destruct (selectHeroMetric_split metrics hero Hh) as (Hne & l1 & l2 & E & F).
  assert (In hero metrics) as Hin by (rewrite E; apply in_elt).
  assert (built hero) as Hbh by (rewrite List.Forall_forall in Hb; now apply Hb).
  destruct (built_signs hero Hbh) as (_ & Hu & Hd).
  assert (0.01 < Qabs (ComparisonMetric.diff hero) /\
          (0 <= ComparisonMetric.diff hero ->
           ComparisonMetric.userB hero < ComparisonMetric.userA hero) /\
          (ComparisonMetric.diff hero < 0 ->
           ComparisonMetric.userA hero < ComparisonMetric.userB hero))
    as (Hgap & Hwa & Hwb).
  { destruct (ComparisonMetric.direction hero) eqn:D; [| | contradiction].
    - destruct (Hu eq_refl) as [H1 H2].
      split; [| split]; intros; try lra.
      apply Qlt_le_trans with (1 := H1). apply Qle_Qabs.
    - destruct (Hd eq_refl) as [H1 H2].
      split; [| split]; intros; try lra.
      rewrite <- Qabs_opp. eapply Qlt_le_trans; [| apply Qle_Qabs]. lra. }
  repeat split; try assumption.
  rewrite E. rewrite E in Hb.
  apply List.Forall_app in Hb as [Hb1 Hb2]. inversion Hb2 as [| ? ? _ Hb2']; subst.
  apply List.Forall_app in F as [F1 F2].
  assert (forall l, List.Forall built l ->
            List.Forall
              (fun m =>
                 ComparisonMetric.direction m = equal \/
                 Qabs (ComparisonMetric.diff m) <= Qabs (ComparisonMetric.diff hero)) l ->
            List.Forall
              (fun m =>
                 Qabs (ComparisonMetric.diff m) <= Qabs (ComparisonMetric.diff hero)) l)
    as Hall.
  { intros l Hl Hf. rewrite List.Forall_forall in *. intros m Hm.
    destruct (Hf m Hm) as [Heq | Hle]; [| exact Hle].
    destruct (built_signs m (Hl m Hm)) as (He & _). specialize (He Heq). lra. }
  apply List.Forall_app. split; [now apply Hall |].
  constructor; [apply Qle_refl | now apply Hall].
Qed.

Lemma hero_of_built_metrics_witness :
  exists hero,
    selectHeroMetric
      (buildComparisonMetrics (example_user "alice" 500 10) (example_user "bob" 350 12))
    = Some hero /\
    ComparisonMetric.userB hero < ComparisonMetric.userA hero.
Proof.
  destruct (hero_of_built_metrics (example_user "alice" 500 10)
              (example_user "bob" 350 12)) as [_ H].
  eexists. split; [reflexivity |].
  refine (proj1 (proj2 (proj2 (proj2 (H _ eq_refl)))) _).
  vm_compute. discriminate.
Defined.

Lemma buildMetric_equal_values (i l : string) (a b : Q) (d : option string) :
  a == b -> ComparisonMetric.direction (buildMetric i l a b d) = equal.
Proof.
  intros E. cbn. assert (a - b == 0) as H by lra.
  rewrite (toFixed2_comp _ _ H). reflexivity.
Qed.

Section OrderOfUsers.
Variable Number_toString : Q -> string.
Variable compactNumber_format : Q -> string.

(** X8: comparing B with A instead of A with B mirrors every metric and
    selects the mirror image of the same hero metric (none if there was
    none); and when there is a hero, the summary sentence is the same in
    both orders: the same winner, loser, label and gap. *)
Theorem swapping_users_mirrors_hero (a b : GitHubUserInsights.t)
    (r1 r2 r3 s1 s2 s3 : Q) :
  let ab := compare_insights Number_toString compactNumber_format a b r1 r2 r3 in
  let ba := compare_insights Number_toString compactNumber_format b a s1 s2 s3 in
  Forall2 mirrored (ComparisonResult.metrics ab) (ComparisonResult.metrics ba) /\
  (ComparisonResult.heroMetric ab = None <-> ComparisonResult.heroMetric ba = None) /\
  (forall h, ComparisonResult.heroMetric ab = Some h ->
     exists h', ComparisonResult.heroMetric ba = Some h' /\ mirrored h h' /\
       ComparisonResult.summary ab = ComparisonResult.summary ba).
Proof.
  intros ab ba. subst ab ba. unfold compare_insights.
  cbn [ComparisonResult.metrics ComparisonResult.heroMetric ComparisonResult.summary].
  pose proof (buildComparisonMetrics_mirrored a b) as Hm.
  pose proof (selectHeroMetric_mirrored _ _ Hm) as Hh.
  split; [exact Hm |].
  destruct (selectHeroMetric (buildComparisonMetrics a b)) as [h |] eqn:Eab,
           (selectHeroMetric (buildComparisonMetrics b a)) as [h' |] eqn:Eba;
    try contradiction.
  2: { split; [tauto | discriminate]. }
  split; [split; discriminate |].
  intros ? [= <-]. exists h'. split; [reflexivity |]. split; [exact Hh |].
  unfold buildSummary.
  cbn [ComparisonResult.heroMetric ComparisonResult.userA ComparisonResult.userB].
  destruct Hh as (_ & Hl & _ & _ & Hd & Ha & Hdir). rewrite Hl, Ha.
  destruct (selectHeroMetric_split _ _ Eab) as (Hne & l1 & l2 & E & _).
  assert (built h) as Hb.
  { pose proof (buildComparisonMetrics_built a b) as Hall.
    rewrite List.Forall_forall in Hall. apply Hall. rewrite E. apply in_elt. }
  destruct (built_signs h Hb) as (_ & Hu & Hdn).
  destruct (ComparisonMetric.direction h) eqn:D; [| | contradiction].
  - destruct (Hu eq_refl) as [H1 _].
    assert (Qle_bool 0 (ComparisonMetric.diff h) = true) as ->
      by (apply Qle_bool_iff; lra).
    assert (Qle_bool 0 (ComparisonMetric.diff h') = false) as ->.
    { destruct (Qle_bool 0 (ComparisonMetric.diff h')) eqn:C; [| reflexivity].
      apply Qle_bool_iff in C. lra. }
    reflexivity.
  - destruct (Hdn eq_refl) as [H1 _].
    assert (Qle_bool 0 (ComparisonMetric.diff h) = false) as ->.
    { destruct (Qle_bool 0 (ComparisonMetric.diff h)) eqn:C; [| reflexivity].
      apply Qle_bool_iff in C. lra. }
    assert (Qle_bool 0 (ComparisonMetric.diff h') = true) as ->
      by (apply Qle_bool_iff; lra).
    reflexivity.
Qed.

(** X9: the seven metrics read from each profile exactly its seven
    numbers (public repositories, stars, followers, weekly average, yearly
    contributions, top language share, pull requests, an absent statistic
    counting as 0); and two profiles that give the same seven numbers,
    whatever else differs and whether or not a statistic is present, tie
    on every metric: there is no hero metric and the summary is the tie
    sentence naming both. *)
Theorem same_stats_tie (a b : GitHubUserInsights.t) (r1 r2 r3 : Q) :
  same_stats a b ->
  let r := compare_insights Number_toString compactNumber_format a b r1 r2 r3 in
  map ComparisonMetric.userA (ComparisonResult.metrics r) = metric_values a /\
  map ComparisonMetric.userB (ComparisonResult.metrics r) = metric_values b /\
  List.Forall (fun m => ComparisonMetric.direction m = equal)
    (ComparisonResult.metrics r) /\
  ComparisonResult.heroMetric r = None /\
  ComparisonResult.summary r
  = GitHubUserInsights.login a +:+ " and " +:+ GitHubUserInsights.login b
    +:+ " are neck and neck across all tracked metrics.".
Proof.
  intros Hsame r. subst r. unfold compare_insights.
  cbn [ComparisonResult.metrics ComparisonResult.heroMetric ComparisonResult.summary].
  split; [reflexivity |]. split; [reflexivity |].
  assert (List.Forall (fun m => ComparisonMetric.direction m = equal)
            (buildComparisonMetrics a b)) as Hall.
  { unfold same_stats, metric_values in Hsame. cbv zeta in Hsame.
    repeat match goal with
           | H : Forall2 _ (_ :: _) (_ :: _) |- _ =>
               apply Forall2_cons_1 in H; destruct H
           end.
    unfold buildComparisonMetrics. cbv zeta.
    repeat (constructor; [apply buildMetric_equal_values; assumption |]).
    constructor. }
  assert (selectHeroMetric (buildComparisonMetrics a b) = None) as Hnone.
  { unfold selectHeroMetric. apply head_Array_sort_None.
    induction Hall as [| m l Hm _ IH]; cbn; [reflexivity |]. now rewrite Hm. }
  split; [exact Hall |]. split; [exact Hnone |].
  unfold buildSummary. cbn [ComparisonResult.heroMetric]. now rewrite Hnone.
Qed.
End OrderOfUsers.

Lemma swapping_users_mirrors_hero_witness :
  ComparisonResult.summary example_comparison
  = ComparisonResult.summary
      (compare_insights integer_part integer_part
         (example_user "bob" 350 12) (example_user "alice" 500 10) 0 0 0).
Proof.
  destruct (swapping_users_mirrors_hero integer_part integer_part
              (example_user "alice" 500 10) (example_user "bob" 350 12)
              0 0.5 0.9 0 0 0) as (_ & _ & H).
  destruct (H _ eq_refl) as (h' & _ & _ & Hs). exact Hs.
Defined.

Lemma same_stats_tie_witness :
  ComparisonResult.heroMetric
    (compare_insights integer_part integer_part
       (example_user "alice" 500 10) (idle_user "bob" 500 10) 0 0 0)
  = None.
Proof.
  refine (proj1 (proj2 (proj2 (proj2
    (same_stats_tie integer_part integer_part
       (example_user "alice" 500 10) (idle_user "bob" 500 10) 0 0 0 _))))).
  repeat constructor.
Defined.

(** ** More on contribution statistics *)

Lemma Math_max_spec (x : Z) (xs : list Z) :
  List.Forall (fun y => (y <= Math_max x xs)%Z) (x :: xs) /\ In (Math_max x xs) (x :: xs).
Proof.
  unfold Math_max. revert x. induction xs as [| y xs IH]; intros x; cbn.
  - split; [repeat constructor; lia | now left].
  - destruct (IH (Z.max x y)) as [Hall Hin]. split.
    + inversion Hall as [| ? ? Hm Hrest]; subst.
      constructor; [lia |]. constructor; [lia | exact Hrest].
    + destruct Hin as [Hin | Hin]; [| now right; right].
      rewrite <- Hin. destruct (Z.max_spec x y) as [[_ ->] | [_ ->]]; cbn; tauto.
Qed.

Lemma Zsum_concat (ls : list (list Z)) : Zsum (concat ls) = Zsum (map Zsum ls).
Proof.
  induction ls as [| l ls IH]; [reflexivity |].
  cbn [concat map]. now rewrite Zsum_app, Zsum_cons, IH.
Qed.

(** X10: the contribution statistics of a calendar have one weekly entry
    per week, in order; [lastYear] is the sum of all daily counts;
    [weeklyMax] is at least every weekly total and is one of them;
    [weeklyAverage] is within 0.005 of [lastYear] divided by the number of
    weeks; for a calendar without weeks the average, the maximum, the sum
    and both streaks are 0.  Without graph data there are no statistics. *)
Theorem aggregateContributionStats_summary (data : GraphqlContributionCalendar.t) :
  let weeks :=
    ContributionCalendar.weeks (GraphqlContributionCalendar.contributionCalendar data) in
  aggregateContributionStats None = None /\
  exists stats,
    aggregateContributionStats (Some data) = Some stats /\
    let series := ContributionStats.weeklySeries stats in
    map WeeklyContribution.weekStart series = map ContributionWeek.firstDay weeks /\
    ContributionStats.lastYear stats
    = Zsum (map ContributionDay.contributionCount
              (flat_map ContributionWeek.contributionDays weeks)) /\
    List.Forall
      (fun w => (WeeklyContribution.total w <= ContributionStats.weeklyMax stats)%Z)
      series /\
    (weeks <> [] ->
     (exists w, In w series /\
                WeeklyContribution.total w = ContributionStats.weeklyMax stats) /\
     Qabs (ContributionStats.weeklyAverage stats
           - inject_Z (ContributionStats.lastYear stats)
             / inject_Z (Z.of_nat (length weeks))) <= 0.005) /\
    (weeks = [] ->
     ContributionStats.weeklyAverage stats = 0 /\
     ContributionStats.weeklyMax stats = 0%Z /\
     ContributionStats.lastYear stats = 0%Z /\
     ContributionStats.streak stats = {| Streak.current := 0; Streak.longest := 0 |}).
Proof.
  intros weeks. split; [reflexivity |].
  unfold aggregateContributionStats. fold weeks.
  destruct (fold_left streak_step (sorted_days weeks) (0%Z, 0%Z)) as [c m] eqn:Escan.
  eexists. split; [reflexivity |].
  cbn [ContributionStats.weeklySeries ContributionStats.lastYear
       ContributionStats.weeklyMax ContributionStats.weeklyAverage
       ContributionStats.streak].
  set (series :=
         map (fun week =>
                {| WeeklyContribution.weekStart := ContributionWeek.firstDay week;
                   WeeklyContribution.total :=
                     Zsum (map ContributionDay.contributionCount
                             (ContributionWeek.contributionDays week)) |}) weeks).
  assert (map WeeklyContribution.total series
          = map (fun week =>
                   Zsum (map ContributionDay.contributionCount
                           (ContributionWeek.contributionDays week))) weeks) as Htot
    by (unfold series; now rewrite map_map).
  assert (length (map WeeklyContribution.total series) = length weeks) as Hlen
    by (unfold series; now rewrite !length_map).
  split; [unfold series; now rewrite map_map |].
  split.
  { rewrite Htot, flat_map_concat_map, concat_map, Zsum_concat, !map_map.
    reflexivity. }
  split.
  { destruct (map WeeklyContribution.total series) as [| x xs] eqn:E.
    - destruct series; [constructor | discriminate].
    - pose proof (Math_max_spec x xs) as [Hall _]. rewrite <- E in Hall.
      apply List.Forall_forall. intros w Hw. rewrite List.Forall_forall in Hall.
      apply Hall. now apply in_map. }
  split.
  { intros Hne.
    destruct (map WeeklyContribution.total series) as [| x xs] eqn:E.
    - destruct weeks; [contradiction | discriminate Hlen].
    - split.
      + pose proof (Math_max_spec x xs) as [_ Hin]. rewrite <- E in Hin.
        apply in_map_iff in Hin. destruct Hin as (w & Hw & Hin). eauto.
      + rewrite <- Hlen. apply toFixed2_near. }
  intros Hw. unfold series in *. rewrite Hw in *. cbn.
  repeat split. unfold sorted_days in Escan. cbn in Escan. now injection Escan as <- <-.
Qed.

(** X11: the streaks are bounded: 0 <= current <= longest <= the number of
    days in the calendar; and the longest streak is 0 exactly when no day
    of the calendar has a contribution. *)
Theorem streak_bounds (data : GraphqlContributionCalendar.t) :
  let weeks :=
    ContributionCalendar.weeks (GraphqlContributionCalendar.contributionCalendar data) in
  let all_days := flat_map ContributionWeek.contributionDays weeks in
  exists stats,
    aggregateContributionStats (Some data) = Some stats /\
    let current := Streak.current (ContributionStats.streak stats) in
    let longest := Streak.longest (ContributionStats.streak stats) in
    (0 <= current <= longest)%Z /\ (longest <= Z.of_nat (length all_days))%Z /\
    (longest = 0%Z <->
     List.Forall (fun day => (ContributionDay.contributionCount day <= 0)%Z) all_days).
Proof.
  intros weeks all_days. unfold aggregateContributionStats. fold weeks.
  pose proof (scan_current (sorted_days weeks)) as [Hc Hle].
  pose proof (scan_longest_attained (sorted_days weeks)) as (l1 & seg & l2 & E & Hs & Hl).
  pose proof (scan_longest_bound (sorted_days weeks)) as Hb.
  assert (Permutation all_days (sorted_days weeks)) as Hp
    by apply Array_sort_Permutation.
  cbv zeta in Hc, Hle.
  destruct (fold_left streak_step (sorted_days weeks) (0%Z, 0%Z)) as [c m].
  cbn [fst snd] in *.
  eexists. split; [reflexivity |].
  cbn [ContributionStats.streak Streak.current Streak.longest].
  split; [lia |]. split.
  { rewrite (Permutation_length Hp), E, !length_app. lia. }
  split.
  - intros Hm. eapply Permutation_Forall; [symmetry; exact Hp |].
    apply List.Forall_forall. intros day Hin.
    destruct (Z.ltb_spec 0 (ContributionDay.contributionCount day)) as [Hpos |];
      [| assumption].
    apply in_split in Hin. destruct Hin as (k1 & k2 & Hk).
    specialize (Hb k1 [day] k2 Hk).
    assert (List.Forall (fun d => active d = true) [day]) as Ha.
    { repeat constructor. unfold active. now apply Z.ltb_lt. }
    specialize (Hb Ha). cbn in Hb. lia.
  - intros Hnone.
    assert (List.Forall
              (fun day => (ContributionDay.contributionCount day <= 0)%Z) seg) as Hseg.
    { eapply Permutation_Forall in Hnone; [| exact Hp]. rewrite E in Hnone.
      apply List.Forall_app in Hnone as [_ Hnone].
      now apply List.Forall_app in Hnone as [Hnone _]. }
    destruct seg as [| d seg]; [cbn in Hl; lia |].
    inversion Hs as [| ? ? Hd _]; inversion Hseg as [| ? ? Hd' _]; subst.
    unfold active in Hd. apply Z.ltb_lt in Hd. lia.
Qed.

Lemma aggregateContributionStats_summary_witness :
  exists stats,
    aggregateContributionStats (Some example_calendar) = Some stats /\
    exists w, In w (ContributionStats.weeklySeries stats) /\
              WeeklyContribution.total w = ContributionStats.weeklyMax stats.
Proof.
  destruct (proj2 (aggregateContributionStats_summary example_calendar))
    as (stats & Hs & _ & _ & _ & Hne & _).
  exists stats. split; [exact Hs |]. apply Hne. discriminate.
Defined.


(** ** The languages, one by one *)

Section MapLookup.
Context {V : Type}.

Lemma Map_get_set_same (k : string) (v : V) (m : list (string * V)) :
  Map_get k (Map_set k v m) = Some v.
Proof.
  induction m as [| [k' v'] m IH]; cbn.
  - now rewrite String.eqb_refl.
  - destruct (String.eqb k' k) eqn:E; cbn; rewrite E; [reflexivity | exact IH].
Qed.

Lemma Map_get_set_other (k k' : string) (v : V) (m : list (string * V)) :
  k <> k' -> Map_get k' (Map_set k v m) = Map_get k' m.
Proof.
  intros Hne. induction m as [| [k0 v0] m IH]; cbn.
  - destruct (String.eqb_spec k k'); [contradiction | reflexivity].
  - destruct (String.eqb_spec k0 k) as [-> | Hk]; cbn.
    + destruct (String.eqb_spec k k'); [contradiction | reflexivity].
    + destruct (String.eqb k0 k'); [reflexivity | exact IH].
Qed.

Lemma In_keys_Map_set (x k : string) (v : V) (m : list (string * V)) :
  In x (map fst (Map_set k v m)) -> x = k \/ In x (map fst m).
Proof.
  induction m as [| [k' v'] m IH]; cbn.
  - intros [<- | []]. now left.
  - destruct (String.eqb k' k); cbn; [tauto |].
    intros [<- | Hin]; [tauto |]. destruct (IH Hin); tauto.
Qed.

Lemma Map_set_NoDup (k : string) (v : V) (m : list (string * V)) :
  List.NoDup (map fst m) -> List.NoDup (map fst (Map_set k v m)).
Proof.
  induction m as [| [k' v'] m IH]; cbn; intros Hnd.
  - constructor; [intros [] | constructor].
  - inversion Hnd as [| ? ? Hnotin Hrest]; subst.
    destruct (String.eqb_spec k' k) as [-> | Hk]; cbn; [now constructor |].
    constructor; [| now apply IH].
    intros Hin. apply In_keys_Map_set in Hin. destruct Hin; [congruence | tauto].
Qed.

Lemma In_Map_get (k : string) (v : V) (m : list (string * V)) :
  List.NoDup (map fst m) -> In (k, v) m -> Map_get k m = Some v.
Proof.
  induction m as [| [k' v'] m IH]; cbn; [contradiction |].
  intros Hnd [Heq | Hin].
  - injection Heq as -> ->. now rewrite String.eqb_refl.
  - inversion Hnd as [| ? ? Hnotin Hrest]; subst.
    destruct (String.eqb_spec k' k) as [-> | Hk]; [| now apply IH].
    exfalso. apply Hnotin. apply in_map_iff. now exists (k, v).
Qed.
End MapLookup.

Lemma rest_repo_step_lookup (m : list (string * LanguageTotal.t)) (repo : RestRepo.t)
    (k : string) :
  let m' := rest_repo_step m repo in
  let one := if written_in k repo then 1%Z else 0%Z in
  bytes_of k m' = (bytes_of k m + one)%Z /\
  count_of k m' = (count_of k m + one)%Z /\
  (Map_get k m' <> None <-> Map_get k m <> None \/ written_in k repo = true).
Proof.
  unfold rest_repo_step, written_in, bytes_of, count_of. cbv zeta.
  destruct (truthy_string (RestRepo.language repo)) as [language |].
  - destruct (String.eqb_spec language k) as [-> | Hne].
    + rewrite !Map_get_set_same. cbn.
      destruct (Map_get k m); cbn; repeat split; try lia; auto; discriminate.
    + rewrite !Map_get_set_other by assumption.
      repeat split; try lia; [tauto |]. intros [H | H]; [exact H | discriminate].
  - repeat split; try lia; [tauto |]. intros [H | H]; [exact H | discriminate].
Qed.

Lemma rest_repos_lookup (repos : list RestRepo.t) (m : list (string * LanguageTotal.t))
    (k : string) :
  let m' := fold_left rest_repo_step repos m in
  bytes_of k m' = (bytes_of k m + rest_repoCount k repos)%Z /\
  count_of k m' = (count_of k m + rest_repoCount k repos)%Z /\
  (Map_get k m' <> None -> Map_get k m <> None \/ (1 <= rest_repoCount k repos)%Z).
Proof.
  revert m. unfold rest_repoCount.
  induction repos as [| r repos IH]; intros m; cbn [fold_left List.filter].
  - cbn. repeat split; try lia. tauto.
  - destruct (IH (rest_repo_step m r)) as (Hb & Hc & Hp).
    destruct (rest_repo_step_lookup m r k) as (Hb1 & Hc1 & Hp1).
    cbv zeta in *. rewrite Hb, Hc, Hb1, Hc1.
    destruct (written_in k r); cbn [length]; repeat split; try lia.
    intros H. apply Hp in H. destruct H as [H | H]; [| right; lia].
    apply Hp1 in H. destruct H as [H | H]; [now left | discriminate].
Qed.

Lemma rest_repo_step_NoDup m (repo : RestRepo.t) :
  List.NoDup (map fst m) -> List.NoDup (map fst (rest_repo_step m repo)).
Proof.
  intros H. unfold rest_repo_step. destruct (truthy_string _); [| exact H].
  now apply Map_set_NoDup.
Qed.

Lemma rest_repo_step_color m (repo : RestRepo.t) :
  List.Forall (fun e => LanguageTotal.color (snd e) = None) m ->
  List.Forall (fun e => LanguageTotal.color (snd e) = None) (rest_repo_step m repo).
Proof.
  intros H. unfold rest_repo_step. destruct (truthy_string _); [| exact H].
  apply (Map_set_Forall (fun v => LanguageTotal.color v = None)); [exact H |].
  cbn. destruct (Map_get _ m) as [c |] eqn:E; [| reflexivity].
  exact (Map_get_Forall (fun v => LanguageTotal.color v = None) _ _ _ H E).
Qed.

Lemma gql_edge_step_lookup m (seen : gset string) (edge : LanguageEdge.t) (k : string) :
  let st := gql_edge_step (m, seen) edge in
  bytes_of k (fst st)
  = (bytes_of k m + (if names k edge then LanguageEdge.size edge else 0))%Z /\
  count_of k (fst st)
  = (count_of k m
     + (if names k edge && negb (bool_decide (k ∈ seen)) then 1 else 0))%Z /\
  (k ∈ snd st <-> k ∈ seen \/ names k edge = true) /\
  (Map_get k (fst st) <> None <-> Map_get k m <> None \/ names k edge = true).
Proof.
  unfold gql_edge_step, names, bytes_of, count_of. cbn [fst snd].
  destruct (String.eqb_spec (LanguageNode.name (LanguageEdge.node edge)) k)
    as [-> | Hne].
  - rewrite !Map_get_set_same. cbn.
    split; [destruct (Map_get k m); reflexivity |].
    split; [destruct (Map_get k m); case_bool_decide; cbn; lia |].
    split; [| split; [intros _; now right | intros _; discriminate]].
    case_bool_decide; cbn; [tauto |].
    rewrite elem_of_union, elem_of_singleton. tauto.
  - rewrite !Map_get_set_other by assumption. cbn.
    split; [lia |]. split; [lia |].
    split; [| split; [tauto | intros [H' | H']; [exact H' | discriminate]]].
    case_bool_decide; cbn; [| rewrite elem_of_union, elem_of_singleton];
      split; try tauto; intros H'; repeat destruct H' as [H' | H'];
      try tauto; try discriminate; congruence.
Qed.


Lemma gql_edges_lookup (edges : list LanguageEdge.t) m (seen : gset string)
    (k : string) :
  let st := fold_left gql_edge_step edges (m, seen) in
  bytes_of k (fst st)
  = (bytes_of k m + Zsum (map LanguageEdge.size (List.filter (names k) edges)))%Z /\
  count_of k (fst st)
  = (count_of k m
     + (if bool_decide (k ∈ seen) then 0
        else if existsb (names k) edges then 1 else 0))%Z /\
  (Map_get k (fst st) <> None ->
   Map_get k m <> None \/ existsb (names k) edges = true).
Proof.
  revert m seen.
  induction edges as [| e edges IH]; intros m seen;
    cbn [fold_left List.filter existsb map].
  - cbn [fst]. change (Zsum []) with 0%Z.
    split; [lia |]. split; [case_bool_decide; lia | tauto].
  - destruct (gql_edge_step (m, seen) e) as [m1 seen1] eqn:E.
    pose proof (gql_edge_step_lookup m seen e k) as H. cbv zeta in H.
    rewrite E in H. cbn [fst snd] in H. destruct H as (Hb1 & Hc1 & Hs1 & Hp1).
    destruct (IH m1 seen1) as (Hb & Hc & Hp). cbv zeta in Hb, Hc, Hp.
    rewrite Hb, Hc, Hb1, Hc1.
    destruct (names k e) eqn:En; cbn [map orb andb negb].
    + split; [rewrite Zsum_cons; lia |]. split; [| now right].
      repeat case_bool_decide; cbn [negb]; try lia; exfalso; tauto.
    + split; [lia |]. split.
      * repeat case_bool_decide; cbn [negb]; try lia; exfalso;
          rewrite Hs1 in *; intuition discriminate.
      * intros H. apply Hp in H. destruct H as [H | H]; [| now right].
        apply Hp1 in H. destruct H as [H | H]; [now left | discriminate].
Qed.

Lemma gql_repos_lookup (repos : list GraphqlRepository.t) m (k : string) :
  let m' := fold_left gql_repo_step repos m in
  bytes_of k m' = (bytes_of k m + graph_bytes k repos)%Z /\
  count_of k m' = (count_of k m + graph_repoCount k repos)%Z /\
  (Map_get k m' <> None -> Map_get k m <> None \/ (1 <= graph_repoCount k repos)%Z).
Proof.
  revert m. unfold graph_bytes, graph_repoCount.
  induction repos as [| r repos IH]; intros m; cbn [fold_left List.filter map].
  - change (Zsum []) with 0%Z. cbn. repeat split; try lia. tauto.
  - destruct (IH (gql_repo_step m r)) as (Hb & Hc & Hp).
    destruct (gql_edges_lookup (GraphqlRepository.languages_edges r) m ∅ k)
      as (Hb1 & Hc1 & Hp1).
    cbv zeta in *. fold (gql_repo_step m r) in Hb1, Hc1, Hp1.
    rewrite bool_decide_eq_false_2 in Hc1 by apply not_elem_of_empty.
    rewrite Hb, Hc, Hb1, Hc1, Zsum_cons.
    destruct (existsb (names k) (GraphqlRepository.languages_edges r));
      cbn [length]; repeat split; try lia.
    intros H. apply Hp in H. destruct H as [H | H]; [| right; lia].
    apply Hp1 in H. destruct H as [H | H]; [now left | discriminate].
Qed.

Lemma gql_edges_NoDup (edges : list LanguageEdge.t) st :
  List.NoDup (map fst (fst st)) ->
  List.NoDup (map fst (fst (fold_left gql_edge_step edges st))).
Proof.
  revert st. induction edges as [| e edges IH]; intros st H; cbn [fold_left];
    [exact H |].
  apply IH. destruct st as [m seen]. unfold gql_edge_step. cbn [fst].
  now apply Map_set_NoDup.
Qed.

Lemma languageTotals_NoDup rest gql : List.NoDup (map fst (languageTotals rest gql)).
Proof.
  assert (forall repos m, List.NoDup (map fst m) ->
            List.NoDup (map fst (fold_left rest_repo_step repos m))) as Hrest.
  { induction repos as [| r repos IH]; intros m H; cbn [fold_left]; [exact H |].
    apply IH. now apply rest_repo_step_NoDup. }
  assert (forall repos m, List.NoDup (map fst m) ->
            List.NoDup (map fst (fold_left gql_repo_step repos m))) as Hgql.
  { induction repos as [| r repos IH]; intros m H; cbn [fold_left]; [exact H |].
    apply IH. unfold gql_repo_step. now apply gql_edges_NoDup. }
  unfold languageTotals. destruct gql as [[| r repos] |].
  - apply Hrest. constructor.
  - apply Hgql. constructor.
  - apply Hrest. constructor.
Qed.

Lemma rest_repos_color (repos : list RestRepo.t) m :
  List.Forall (fun e => LanguageTotal.color (snd e) = None) m ->
  List.Forall (fun e => LanguageTotal.color (snd e) = None)
    (fold_left rest_repo_step repos m).
Proof.
  revert m. induction repos as [| r repos IH]; intros m H; cbn [fold_left];
    [exact H |].
  apply IH. now apply rest_repo_step_color.
Qed.

(** X12: the returned languages have pairwise different names.  Computed
    from graph data, a language's bytes is the sum of the sizes of all
    edges carrying its name, and its repoCount the number of repositories
    with such an edge, each repository counted once however many edges
    repeat the name.  Computed from the REST list, bytes and repoCount are
    both the number of repositories written in the language, and the colour
    is absent.  In both cases the count is at least 1. *)
Theorem aggregateLanguageStats_per_language (restRepos : list RestRepo.t)
    (gqlRepos : option (list GraphqlRepository.t)) :
  let languages := aggregateLanguageStats restRepos gqlRepos in
  List.NoDup (map LanguageStat.name languages) /\
  List.Forall
    (fun s =>
       match gqlRepos with
       | Some ((_ :: _) as repos) =>
           LanguageStat.bytes s = graph_bytes (LanguageStat.name s) repos /\
           LanguageStat.repoCount s = graph_repoCount (LanguageStat.name s) repos /\
           (1 <= LanguageStat.repoCount s)%Z
       | _ =>
           LanguageStat.bytes s = rest_repoCount (LanguageStat.name s) restRepos /\
           LanguageStat.repoCount s = rest_repoCount (LanguageStat.name s) restRepos /\
           (1 <= LanguageStat.repoCount s)%Z /\
           LanguageStat.color s = None
       end) languages.
Proof.
  intros languages.
  set (cmp := fun a b : LanguageStat.t =>
                (LanguageStat.bytes b - LanguageStat.bytes a ?= 0)%Z).
  set (lt := languageTotals restRepos gqlRepos).
  set (mk := fun '(name, entry) =>
     {| LanguageStat.name := name;
        LanguageStat.bytes := LanguageTotal.bytes entry;
        LanguageStat.repoCount := LanguageTotal.repoCount entry;
        LanguageStat.color := LanguageTotal.color entry;
        LanguageStat.percentage :=
          language_percentage (total_of lt) (LanguageTotal.bytes entry) |}).
  assert (languages = firstn 8 (Array_sort cmp (map mk lt))) as Hl by reflexivity.
  assert (Permutation (map mk lt) (Array_sort cmp (map mk lt))) as Hp
    by apply Array_sort_Permutation.
  pose proof (languageTotals_NoDup restRepos gqlRepos) as Hnd. fold lt in Hnd.
  split.
  { rewrite Hl, <- firstn_map.
    apply (List.NoDup_app_remove_r _
             (skipn 8 (map LanguageStat.name (Array_sort cmp (map mk lt))))).
    rewrite firstn_skipn.
    eapply Permutation_NoDup; [apply Permutation_map; exact Hp |].
    rewrite map_map.
    erewrite map_ext; [exact Hnd |]. now intros [n e]. }
  rewrite Hl. apply Forall_take.
  eapply Permutation_Forall; [exact Hp |].
  apply List.Forall_forall. intros s Hs. apply in_map_iff in Hs.
  destruct Hs as ([n v] & <- & Hin). cbn [mk LanguageStat.name LanguageStat.bytes
    LanguageStat.repoCount LanguageStat.color].
  pose proof (In_Map_get n v lt Hnd Hin) as Hget.
  assert (bytes_of n lt = LanguageTotal.bytes v) as Hb
    by (unfold bytes_of; now rewrite Hget).
  assert (count_of n lt = LanguageTotal.repoCount v) as Hc
    by (unfold count_of; now rewrite Hget).
  assert (Map_get n lt <> None) as Hsome by (rewrite Hget; discriminate).
  assert (forall repos,
            lt = fold_left rest_repo_step repos [] ->
            LanguageTotal.bytes v = rest_repoCount n repos /\
            LanguageTotal.repoCount v = rest_repoCount n repos /\
            (1 <= LanguageTotal.repoCount v)%Z /\ LanguageTotal.color v = None)
    as Hrest.
  { intros repos E.
    destruct (rest_repos_lookup repos [] n) as (Hb' & Hc' & Hp').
    cbv zeta in Hb', Hc', Hp'. rewrite <- E in Hb', Hc', Hp'.
    rewrite Hb in Hb'. rewrite Hc in Hc'. cbn in Hb', Hc'.
    destruct (Hp' Hsome) as [H | H]; [now cbn in H |].
    repeat split; try lia.
    pose proof (rest_repos_color repos [] (List.Forall_nil _)) as Hcol.
    rewrite <- E in Hcol. rewrite List.Forall_forall in Hcol.
    exact (Hcol _ Hin). }
  unfold languageTotals in lt.
  destruct gqlRepos as [[| r repos] |]; try (apply Hrest; reflexivity).
  destruct (gql_repos_lookup (r :: repos) [] n) as (Hb' & Hc' & Hp').
  cbv zeta in Hb', Hc', Hp'. fold lt in Hb', Hc', Hp'.
  rewrite Hb in Hb'. rewrite Hc in Hc'.
  change (bytes_of n []) with 0%Z in Hb'. change (count_of n []) with 0%Z in Hc'.
  destruct (Hp' Hsome) as [H | H]; [now cbn in H |].
  repeat split; lia.
Qed.


(** ** A failing page *)

Lemma fetch_pages_outcome (upstream : string -> Z -> PageResponse.t) (login : string)
    (fuel : nat) :
  forall (page : Z) (repositories : list RestRepo.t) (requested : list Z),
    (Z.max 0 (3 - page) < Z.of_nat fuel)%Z ->
    exists outcome more,
      fetch_pages fuel upstream login page repositories requested
      = Some (outcome, requested ++ more) /\
      match outcome with
      | Returned _ =>
          List.Forall (fun p => PageResponse.ok (upstream login p) = true) more
      | Thrown e =>
          exists earlier p,
            more = earlier ++ [p] /\
            List.Forall (fun p => PageResponse.ok (upstream login p) = true) earlier /\
            PageResponse.ok (upstream login p) = false /\
            e = {| message :=
                     match ErrorPayload.message
                             (PageResponse.errorPayload (upstream login p)) with
                     | Some m => m
                     | None =>
                         "Failed to fetch repositories for " +:+ login +:+ " ("
                         +:+ Z_to_string (PageResponse.status (upstream login p))
                         +:+ ")"
                     end;
                   status := PageResponse.status (upstream login p);
                   data := PageResponse.errorPayload (upstream login p) |}
      end.
Proof.
  induction fuel as [| fuel IH]; intros page repositories requested Hfuel.
  - lia.
  - cbn [fetch_pages].
    destruct (PageResponse.ok (upstream login page)) eqn:Hok; cbn [negb].
    + match goal with
      | |- context [if ?c then _ else _] => destruct c eqn:Hstop
      end.
      * do 2 eexists. split; [reflexivity |]. now repeat constructor.
      * apply orb_false_iff in Hstop as [_ Hpage]. apply Z.leb_gt in Hpage.
        destruct (IH (page + 1)%Z
                    (repositories ++ PageResponse.batch (upstream login page))
                    (requested ++ [page])) as (outcome & more & E & H); [lia |].
        exists outcome, (page :: more). rewrite <- app_assoc in E.
        split; [exact E |].
        destruct outcome as [repos | e].
        -- now constructor.
        -- destruct H as (earlier & p & -> & Hearlier & Hp & He).
           exists (page :: earlier), p. repeat split; try assumption.
           now constructor.
    + do 2 eexists. split; [reflexivity |].
      exists [], page. repeat split; [constructor | exact Hok].
Qed.

(** X13: a call of [fetchUserRepositories] that returns had a successful
    response for every page it requested.  A call that throws requested
    pages up to the first one whose response was not a success: the pages
    before it all succeeded, their batches are dropped, and the error
    carries that response's status and parsed body, with the body's
    message, or the default text naming the login and the status. *)
Theorem fetchUserRepositories_failed_page
    (upstream : string -> Z -> PageResponse.t) (login : string) :
  exists outcome requested,
    fetchUserRepositories upstream login = Some (outcome, requested) /\
    match outcome with
    | Returned _ =>
        List.Forall (fun p => PageResponse.ok (upstream login p) = true) requested
    | Thrown e =>
        exists earlier p,
          requested = earlier ++ [p] /\
          List.Forall (fun p => PageResponse.ok (upstream login p) = true) earlier /\
          PageResponse.ok (upstream login p) = false /\
          status e = PageResponse.status (upstream login p) /\
          data e = PageResponse.errorPayload (upstream login p) /\
          message e
          = match ErrorPayload.message
                    (PageResponse.errorPayload (upstream login p)) with
            | Some m => m
            | None =>
                "Failed to fetch repositories for " +:+ login +:+ " ("
                +:+ Z_to_string (PageResponse.status (upstream login p)) +:+ ")"
            end
    end.
Proof.
  unfold fetchUserRepositories.
  destruct (fetch_pages_outcome upstream login 3 1%Z [] [])
    as (outcome & more & E & H); [lia |].
  exists outcome, more. split; [exact E |].
  destruct outcome as [repos | e]; [exact H |].
  destruct H as (earlier & p & -> & Hearlier & Hp & ->).
  exists earlier, p. repeat split; assumption.
Qed.


(** ** The request schema and the cache keys *)

Lemma match_literal_lower (pat s : string) :
  match_literal pat (toLowerCase s) = option_map toLowerCase (match_literal_i pat s).
Proof.
  revert s. induction pat as [| p pat IH]; intros s; [reflexivity |].
  destruct s as [| c s]; [reflexivity |]. cbn. unfold fold_case.
  destruct (Ascii.eqb (toLowerCase_char c) p); [apply IH | reflexivity].
Qed.

Lemma in_segment_lower (c : ascii) : in_segment (toLowerCase_char c) = in_segment c.
Proof. by_char c. Qed.

Lemma at_lower (c : ascii) : Ascii.eqb (toLowerCase_char c) "@" = Ascii.eqb c "@".
Proof. by_char c. Qed.

Lemma segment_lower (s : string) : segment (toLowerCase s) = toLowerCase (segment s).
Proof.
  unfold toLowerCase. induction s as [| c s IH]; [reflexivity |].
  cbn. rewrite in_segment_lower.
  destruct (in_segment c); cbn; [now rewrite IH | reflexivity].
Qed.

Lemma match_profile_url_exact_unfold (s : string) :
  match_profile_url_exact s =
  match
    match match_literal "github.com/" s with
    | Some rest =>
        match segment rest with
        | EmptyString => None
        | login => Some login
        end
    | None => None
    end
  with
  | Some login => Some login
  | None =>
      match s with
      | EmptyString => None
      | String _ s' => match_profile_url_exact s'
      end
  end.
Proof. destruct s; reflexivity. Qed.

Lemma match_profile_url_lower (s : string) :
  match_profile_url_exact (toLowerCase s) = option_map toLowerCase (match_profile_url s).
Proof.
  induction s as [| c s IH];
    rewrite match_profile_url_exact_unfold, match_profile_url_unfold,
      match_literal_lower.
  - reflexivity.
  - destruct (match_literal_i "github.com/" (String c s)) as [rest |];
      cbn [option_map]; [| exact IH].
    rewrite segment_lower.
    destruct (segment rest) as [| c' login]; [exact IH | reflexivity].
Qed.

Lemma strip_leading_at_lower (s : string) :
  strip_leading_at (toLowerCase s) = toLowerCase (strip_leading_at s).
Proof.
  destruct s as [| c s]; [reflexivity |]. cbn. rewrite at_lower.
  now destruct (Ascii.eqb c "@").
Qed.

Lemma normalizeHandle_sanitizeLogin (input login : string) :
  sanitizeLogin input = Returned login -> normalizeHandle input = toLowerCase login.
Proof.
  unfold sanitizeLogin, normalizeHandle. cbv zeta.
  rewrite match_profile_url_lower, strip_leading_at_lower.
  destruct (trim input) as [| c t]; [discriminate |].
  destruct (match_profile_url (String c t)); cbn [option_map]; now intros [= <-].
Qed.

(** X14: the schema's [normalizeHandle] and the cache key of
    [getUserInsights] are the same normalisation.  For an input of ASCII
    characters with something left after trimming, the key under which the
    profile is cached is [normalizeHandle] of the input; for an input that
    trims to nothing [normalizeHandle] gives the empty string where
    [sanitizeLogin] throws. *)
Theorem normalizeHandle_is_cache_key (input : string) :
  ascii_only input = true ->
  (trim input <> EmptyString ->
   insightsCacheKey input = Returned (normalizeHandle input)) /\
  (trim input = EmptyString ->
   normalizeHandle input = EmptyString /\
   sanitizeLogin input
   = Thrown {| Error_message := "GitHub username cannot be empty" |}).
Proof.
  intros _. split.
  - intros Hne. unfold insightsCacheKey.
    destruct (sanitizeLogin input) as [login | e] eqn:E.
    + now rewrite (normalizeHandle_sanitizeLogin _ _ E).
    + unfold sanitizeLogin in E. destruct (trim input); [contradiction |].
      destruct (match_profile_url _); discriminate.
  - intros Ht. unfold normalizeHandle, sanitizeLogin. now rewrite Ht.
Qed.

Lemma normalizeHandle_is_cache_key_witness :
  insightsCacheKey " https://GitHub.com/Octo-Cat/repos " = Returned "octo-cat" /\
  normalizeHandle " https://GitHub.com/Octo-Cat/repos " = "octo-cat".
Proof.
  destruct (normalizeHandle_is_cache_key " https://GitHub.com/Octo-Cat/repos "
              eq_refl) as [H _].
  split; [| reflexivity]. apply H. vm_compute. discriminate.
Defined.







Lemma handle_char_lower_not_colon (c : ascii) :
  handle_char c = true -> negb (Ascii.eqb (toLowerCase_char c) ":") = true.
Proof. by_char c. Qed.

Lemma string_forallb_map (f : ascii -> bool) (g : ascii -> ascii) (s : string) :
  string_forallb f (string_map g s) = string_forallb (fun c => f (g c)) s.
Proof. induction s as [| c s IH]; cbn; [reflexivity | now rewrite IH]. Qed.

(** A text is cut at its first double colon in one way only. *)
Lemma cut_at_colons (s1 s2 t1 t2 : string) :
  string_forallb (fun c => negb (Ascii.eqb c ":")) s1 = true ->
  string_forallb (fun c => negb (Ascii.eqb c ":")) s2 = true ->
  s1 +:+ "::" +:+ t1 = s2 +:+ "::" +:+ t2 -> s1 = s2 /\ t1 = t2.
Proof.
  revert s2. induction s1 as [| c1 s1 IH]; intros [| c2 s2] H1 H2;
    rewrite ?append_nil, ?append_cons; intros E.
  - split; [reflexivity |]. now injection E.
  - injection E as <- _. cbn in H2. discriminate.
  - injection E as -> _. cbn in H1. discriminate.
  - injection E as -> E. cbn in H1, H2.
    apply andb_true_iff in H1 as [_ H1]. apply andb_true_iff in H2 as [_ H2].
    destruct (IH s2 H1 H2 E) as [-> ->]. now split.
Qed.

(** X16: the key under which [compareUsers] caches a comparison tells
    ordered pairs of users apart: when the first inputs are bare handles
    (letters, digits, hyphens) and two calls use the same key, the first
    handles agree up to case and the second inputs have the same profile
    cache key. *)
Theorem comparisonCacheKey_injective (a b a' b' key : string) :
  valid_handle a = true -> valid_handle a' = true ->
  comparisonCacheKey a b = Returned key ->
  comparisonCacheKey a' b' = Returned key ->
  toLowerCase a = toLowerCase a' /\ insightsCacheKey b = insightsCacheKey b'.
Proof.
  intros Ha Ha'. unfold comparisonCacheKey, insightsCacheKey.
  rewrite (sanitizeLogin_bare a Ha), (sanitizeLogin_bare a' Ha').
  destruct (sanitizeLogin b) as [loginB |]; [| discriminate].
  destruct (sanitizeLogin b') as [loginB' |]; [| discriminate].
  intros [= <-] [= E].
  assert (forall h, valid_handle h = true ->
            string_forallb (fun c => negb (Ascii.eqb c ":")) (toLowerCase h) = true)
    as Hcolon.
  { intros h Hh. destruct (valid_handle_chars h Hh) as [Hc _].
    unfold toLowerCase. rewrite string_forallb_map.
    eapply string_forallb_impl; [| exact Hc]. apply handle_char_lower_not_colon. }
  destruct (cut_at_colons _ _ _ _ (Hcolon a' Ha') (Hcolon a Ha) E) as [-> ->].
  now split.
Qed.

Lemma comparisonCacheKey_injective_witness :
  toLowerCase "Octocat" = toLowerCase "octocat" /\
  insightsCacheKey "@Hubot" = insightsCacheKey "github.com/hubot".
Proof.
  apply (comparisonCacheKey_injective "Octocat" "@Hubot" "octocat"
           "github.com/hubot" "octocat::hubot"); reflexivity.
Defined.


(** ** The meme service *)

Lemma truthy_string_nonempty (s : option string) (l : string) :
  truthy_string s = Some l -> s = Some l /\ l <> EmptyString.
Proof.
  destruct s as [[| c s] |]; cbn; try discriminate.
  intros [= <-]. split; [reflexivity | discriminate].
Qed.

(** X17: [generateMeme] sends nothing, and gives no picture, unless it has
    a prompt with a non-empty template and both credentials are set and
    non-empty.  Otherwise it sends exactly one POST to the caption
    endpoint whose form carries the template, the two credentials and the
    two lines of the prompt, and it gives a picture exactly when the
    response is a success whose body reports success and holds data; the
    picture's addresses are those of the data. *)
Theorem generateMeme_outcomes (env : Env.t) (fetch : ImgflipRequest.t -> ImgflipHttp.t)
    (prompt : option MemePrompt.t) :
  let result := generateMeme env fetch prompt in
  ((prompt = None \/
    truthy_string (Env.IMGFLIP_USERNAME env) = None \/
    truthy_string (Env.IMGFLIP_PASSWORD env) = None \/
    (exists p, prompt = Some p /\ MemePrompt.templateId p = EmptyString)) ->
   result = (None, [])) /\
  (forall p username password,
     prompt = Some p -> MemePrompt.templateId p <> EmptyString ->
     truthy_string (Env.IMGFLIP_USERNAME env) = Some username ->
     truthy_string (Env.IMGFLIP_PASSWORD env) = Some password ->
     let request :=
       {| ImgflipRequest.endpoint := "https://api.imgflip.com/caption_image";
          ImgflipRequest.method := "POST";
          ImgflipRequest.body :=
            [("template_id", MemePrompt.templateId p); ("username", username);
             ("password", password); ("text0", MemePrompt.topText p);
             ("text1", MemePrompt.bottomText p)] |} in
     snd result = [request] /\
     (forall meme,
        fst result = Some meme <->
        ImgflipHttp.ok (fetch request) = true /\
        exists payload data,
          ImgflipHttp.json (fetch request) = Some payload /\
          ImgflipResponse.success payload = true /\
          ImgflipResponse.data payload = Some data /\
          meme = {| MemeResult.url := ImgflipData.url data;
                    MemeResult.pageUrl := ImgflipData.page_url data |})).
Proof.
  intros result. subst result. unfold generateMeme, IMGFLIP_ENDPOINT. split.
  - intros [-> | [Hu | [Hp | (p & -> & Ht)]]]; [reflexivity | | |].
    + rewrite Hu. now destruct prompt.
    + rewrite Hp. destruct prompt; [| reflexivity].
      now destruct (truthy_string (Env.IMGFLIP_USERNAME env)).
    + rewrite Ht.
      now destruct (truthy_string (Env.IMGFLIP_USERNAME env)),
        (truthy_string (Env.IMGFLIP_PASSWORD env)).
  - intros p username password -> Ht -> ->. cbv zeta.
    destruct (MemePrompt.templateId p) as [| c t] eqn:Et; [contradiction |].
    match goal with
    | |- context [fetch ?r] => set (request := r)
    end.
    destruct (ImgflipHttp.ok (fetch request)) eqn:Eok.
    2: { split; [reflexivity |]. intros meme. cbn [fst].
         split; [discriminate | intros [H _]; discriminate]. }
    destruct (ImgflipHttp.json (fetch request)) as [payload |] eqn:Ej.
    2: { split; [reflexivity |]. intros meme. cbn [fst].
         split; [discriminate | intros [_ (q & d & H & _)]; discriminate]. }
    destruct (ImgflipResponse.success payload) eqn:Es.
    2: { split; [reflexivity |]. intros meme. cbn [fst].
         split; [discriminate |]. intros [_ (q & d & [= <-] & H & _)]. congruence. }
    destruct (ImgflipResponse.data payload) as [data |] eqn:Ed.
    2: { split; [reflexivity |]. intros meme. cbn [fst].
         split; [discriminate |].
         intros [_ (q & d & [= <-] & _ & H & _)]. congruence. }
    split; [reflexivity |]. intros meme. cbn [fst]. split.
    + intros [= <-]. split; [reflexivity |]. exists payload, data. now repeat split.
    + intros [_ (q & d & [= <-] & _ & H & ->)]. congruence.
Qed.

Lemma generateMeme_outcomes_witness :
  generateMeme env_without_token obliging_imgflip
    (Some {| MemePrompt.templateId := "61579"; MemePrompt.topText := "top";
             MemePrompt.bottomText := "bottom" |}) = (None, []).
Proof.
  apply (generateMeme_outcomes env_without_token obliging_imgflip). right. now left.
Defined.

Lemma MEME_TEMPLATES_nonempty (scenario : Scenario) (t : string) :
  In t (MEME_TEMPLATES scenario) -> t <> EmptyString.
Proof.
  destruct scenario; cbn; intros H;
    repeat (destruct H as [<- | H]; [discriminate |]); contradiction.
Qed.

Section MemeOfComparison.
Variable compactNumber_format : Q -> string.

Lemma deriveMemePrompt_template (result : ComparisonResult.t) (r1 r2 r3 : Q) :
  0 <= r1 < 1 -> 0 <= r2 < 1 -> 0 <= r3 < 1 ->
  exists prompt scenario,
    deriveMemePrompt compactNumber_format result r1 r2 r3 = Some prompt /\
    In (MemePrompt.templateId prompt) (MEME_TEMPLATES scenario) /\
    (scenario = tie <-> ComparisonResult.heroMetric result = None).
Proof.
  intros Hr1 Hr2 Hr3. unfold deriveMemePrompt.
  destruct (ComparisonResult.heroMetric result) as [hero |] eqn:Hhero; cbv zeta.
  - set (scenario := scenario_of_gap (Qabs (ComparisonMetric.diff hero))).
    destruct (pickRandom_in_range (MEME_TEMPLATES scenario) r1) as (t & Ht & Hint);
      [now destruct scenario | exact Hr1 |].
    rewrite Ht. cbn [mbind option_bind].
    match goal with
    | |- context [pickRandom (fst ?q) r2] => set (pool := q)
    end.
    destruct (pickRandom_in_range (fst pool) r2) as (top & Htop & _);
      [subst pool; now destruct scenario | exact Hr2 |].
    destruct (pickRandom_in_range (snd pool) r3) as (bot & Hbot & _);
      [subst pool; now destruct scenario | exact Hr3 |].
    rewrite Htop, Hbot. cbn [mbind option_bind].
    eexists. exists scenario. split; [reflexivity |]. split; [exact Hint |].
    split; [| discriminate]. intros H.
    now destruct (scenario_of_gap_bands (Qabs (ComparisonMetric.diff hero)))
      as (_ & _ & _ & Hne).
  - destruct (pickRandom_in_range (MEME_TEMPLATES tie) r1) as (t & Ht & Hint);
      [discriminate | exact Hr1 |].
    match goal with
    | |- context [pickRandom (tie_topTextOptions ?d) r2] => set (duo := d)
    end.
    match goal with
    | |- context [pickRandom (tie_bottomTextOptions ?l) r3] => set (langs := l)
    end.
    destruct (pickRandom_in_range (tie_topTextOptions duo) r2) as (top & Htop & _);
      [discriminate | exact Hr2 |].
    destruct (pickRandom_in_range (tie_bottomTextOptions langs) r3)
      as (bot & Hbot & _); [discriminate | exact Hr3 |].
    rewrite Ht. cbn [mbind option_bind]. rewrite Htop. cbn [mbind option_bind].
    rewrite Hbot. cbn [mbind option_bind].
    eexists. exists tie. split; [reflexivity |]. split; [exact Hint |]. now split.
Qed.

(** X18: for the prompt that [deriveMemePrompt] writes for a comparison,
    whatever the three random draws in [0, 1), the meme service is asked
    exactly when both of its credentials are configured: with them one
    request goes out, for a template of the tie pool if and only if the
    comparison has no hero metric; without one of them none does. *)
Theorem generateMeme_of_derived_prompt (env : Env.t)
    (fetch : ImgflipRequest.t -> ImgflipHttp.t) (result : ComparisonResult.t)
    (r1 r2 r3 : Q) :
  0 <= r1 < 1 -> 0 <= r2 < 1 -> 0 <= r3 < 1 ->
  let sent :=
    snd (generateMeme env fetch
           (deriveMemePrompt compactNumber_format result r1 r2 r3)) in
  ((truthy_string (Env.IMGFLIP_USERNAME env) = None \/
    truthy_string (Env.IMGFLIP_PASSWORD env) = None) -> sent = []) /\
  (truthy_string (Env.IMGFLIP_USERNAME env) <> None ->
   truthy_string (Env.IMGFLIP_PASSWORD env) <> None ->
   exists request template,
     sent = [request] /\
     Map_get "template_id" (ImgflipRequest.body request) = Some template /\
     (In template (MEME_TEMPLATES tie) <-> ComparisonResult.heroMetric result = None)).
Proof.
  intros Hr1 Hr2 Hr3 sent.
  destruct (deriveMemePrompt_template result r1 r2 r3 Hr1 Hr2 Hr3)
    as (prompt & scenario & Hp & Hin & Htie).
  subst sent. rewrite Hp. unfold generateMeme. split.
  - intros [-> | ->]; [reflexivity |].
    now destruct (truthy_string (Env.IMGFLIP_USERNAME env)).
  - intros Hu Hpw.
    destruct (truthy_string (Env.IMGFLIP_USERNAME env)) as [username |];
      [| contradiction].
    destruct (truthy_string (Env.IMGFLIP_PASSWORD env)) as [password |];
      [| contradiction].
    pose proof (MEME_TEMPLATES_nonempty _ _ Hin) as Hne.
    destruct (MemePrompt.templateId prompt) as [| c t] eqn:Et; [contradiction |].
    cbv zeta.
    match goal with
    | |- context [fetch ?r] => set (request := r)
    end.
    exists request, (String c t). split.
    + destruct (ImgflipHttp.ok (fetch request)); [| reflexivity].
      match goal with
      | |- context [ImgflipResponse.success ?q] =>
          now destruct (ImgflipResponse.success q), (ImgflipResponse.data q)
      end.
    + split; [reflexivity |]. rewrite <- Htie. split.
      * intros H. exact (MEME_TEMPLATES_disjoint _ _ _ Hin H).
      * now intros <-.
Qed.
End MemeOfComparison.

Lemma generateMeme_of_derived_prompt_witness :
  exists request template,
    snd (generateMeme env_with_imgflip obliging_imgflip
           (deriveMemePrompt integer_part example_comparison 0 0.5 0.9)) = [request] /\
    Map_get "template_id" (ImgflipRequest.body request) = Some template /\
    (In template (MEME_TEMPLATES tie)
     <-> ComparisonResult.heroMetric example_comparison = None).
Proof.
  apply (generateMeme_of_derived_prompt integer_part env_with_imgflip obliging_imgflip
           example_comparison 0 0.5 0.9 ltac:(lra) ltac:(lra) ltac:(lra));
    discriminate.
Defined.


(** ** Request headers *)

Lemma Map_get_absent {V : Type} (k : string) (m : list (string * V)) :
  ~ In k (map fst m) -> Map_get k m = None.
Proof.
  induction m as [| [k' v'] m IH]; cbn; [reflexivity |]. intros H.
  destruct (String.eqb_spec k' k) as [-> | _]; [exfalso; auto | apply IH; auto].
Qed.

(** After [Object.assign(headers, extra)] a name has the value [extra]
    gives it, and otherwise the one it had. *)
Lemma Object_assign_lookup (extra headers : list (string * string)) (name : string) :
  List.NoDup (map fst extra) ->
  Map_get name (Object_assign headers extra) =
  match Map_get name extra with
  | Some v => Some v
  | None => Map_get name headers
  end.
Proof.
  unfold Object_assign. revert headers.
  induction extra as [| [k v] extra IH]; intros headers Hnd; [reflexivity |].
  inversion Hnd as [| ? ? Hnotin Hrest]; subst.
  cbn [fold_left fst snd Map_get]. rewrite (IH _ Hrest).
  destruct (String.eqb_spec k name) as [-> | Hne].
  - now rewrite (Map_get_absent _ _ Hnotin), Map_get_set_same.
  - now rewrite Map_get_set_other.
Qed.

(** X19: the headers of a request, name by name.  A header given by the
    caller is sent with the caller's value, whatever the defaults say,
    the authorization included.  A name the caller does not give has its
    default: the three fixed headers, and [Authorization] with the bearer
    credential exactly when the access credential is set and non-empty;
    no other header is sent. *)
Theorem buildHeaders_lookup (env : Env.t) (extra : option (list (string * string)))
    (name : string) :
  let given := match extra with Some e => e | None => [] end in
  List.NoDup (map fst given) ->
  Map_get name (buildHeaders env extra) =
  match Map_get name given with
  | Some v => Some v
  | None =>
      if String.eqb name "Authorization"
      then option_map (fun token => "Bearer " +:+ token)
             (truthy_string (Env.GITHUB_ACCESS_TOKEN env))
      else
        Map_get name
          [("Accept", "application/vnd.github+json");
           ("Content-Type", "application/json");
           ("User-Agent", "github-compare-app")]
  end.
Proof.
  intros given Hnd.
  set (fixed := [("Accept", "application/vnd.github+json");
                 ("Content-Type", "application/json");
                 ("User-Agent", "github-compare-app")]).
  set (headers :=
         match truthy_string (Env.GITHUB_ACCESS_TOKEN env) with
         | Some token => Object_assign fixed [("Authorization", "Bearer " +:+ token)]
         | None => fixed
         end).
  assert (Map_get name headers
          = if String.eqb name "Authorization"
            then option_map (fun token => "Bearer " +:+ token)
                   (truthy_string (Env.GITHUB_ACCESS_TOKEN env))
            else Map_get name fixed) as Hh.
  { subst headers.
    destruct (truthy_string (Env.GITHUB_ACCESS_TOKEN env)) as [token |];
      cbn [option_map].
    - rewrite Object_assign_lookup by (repeat constructor; intros []).
      cbn [Map_get]. rewrite String.eqb_sym.
      destruct (String.eqb_spec name "Authorization") as [-> | _]; reflexivity.
    - destruct (String.eqb_spec name "Authorization") as [-> | _]; reflexivity. }
  assert (buildHeaders env extra = Object_assign headers given) as ->
    by (subst given; now destruct extra).
  now rewrite (Object_assign_lookup _ _ _ Hnd), Hh.
Qed.

Lemma buildHeaders_lookup_witness :
  Map_get "Authorization"
    (buildHeaders env_with_token (Some [("Accept", "text/plain")]))
  = Some "Bearer ghp_token" /\
  Map_get "Accept" (buildHeaders env_with_token (Some [("Accept", "text/plain")]))
  = Some "text/plain".
Proof.
  split.
  - apply (buildHeaders_lookup env_with_token (Some [("Accept", "text/plain")])
             "Authorization").
    repeat constructor. intros [].
  - apply (buildHeaders_lookup env_with_token (Some [("Accept", "text/plain")])
             "Accept").
    repeat constructor. intros [].
Defined.
